(** * Gaimin PFP staking client: byte-level model and verified properties

    A shallow embedding of the TypeScript client of the Gaimin PFP staking
    program: the address derivations ([pda.ts]), the account decoders
    ([parse.ts]), the instruction builders ([instruction.ts]), the
    transaction composition ([transaction.ts]), the chunked claim driver
    ([index.ts]) and the configuration decoder of the legacy client
    ([client.ts]).

    Buffers are lists of bytes.  A JavaScript number is an IEEE 754 double
    ([spec_float] at precision 53); array offsets, opcodes and the integers
    the decoders read from 8-, 32- and 64-bit fields are [Z].  A string whose
    characters the client counts or converts is its sequence of UTF-16 code
    units.  Code that may throw returns a [result]. *)

From Stdlib Require Import ZArith String Ascii List Bool Lia.
From Stdlib Require Import Floats.SpecFloat.
From coqutil Require Import Byte Word.LittleEndianList.
From coqutil Require Datatypes.List.

Import ListNotations.
Local Open Scope Z_scope.
Local Open Scope list_scope.

(* ===================================================================== *)
(** ** Errors and the result monad *)

(** The exceptions (promise rejections) the client can raise. *)
Inductive exn : Type :=
| RangeError              (* Buffer read or write outside the buffer or range *)
| InvalidPublicKeyInput   (* [new PublicKey(...)]: "Invalid public key input" *)
| NonBase58Character      (* [bs58.decode]: "Non-base58 character" *)
| UninitializedAccount    (* [getAccountInfo]: "Uninitialized account" *)
| DerivationError.        (* bump search exhausted *)

Inductive result (A : Type) : Type :=
| Ok (a : A)
| Err (e : exn).

Arguments Ok {A} a.
Arguments Err {A} e.

Definition bind {A B : Type} (r : result A) (k : A -> result B) : result B :=
  match r with
  | Ok a => k a
  | Err e => Err e
  end.

Notation "x <- r ;; k" := (bind r (fun x => k))
  (at level 61, r at next level, right associativity).
Notation "' p <- r ;; k" := (bind r (fun x => let 'p := x in k))
  (at level 61, p pattern, r at next level, right associativity).

(** [Array.prototype.map] with a callback that may throw: the first
    exception aborts the whole map. *)
Fixpoint mapM {A B : Type} (f : A -> result B) (l : list A) : result (list B) :=
  match l with
  | [] => Ok []
  | a :: l' => b <- f a ;; bs <- mapM f l' ;; Ok (b :: bs)
  end.

Definition succeeds {A : Type} (r : result A) : Prop := exists a, r = Ok a.
Definition fails {A : Type} (r : result A) : Prop := exists e, r = Err e.

(* ===================================================================== *)
(** ** Numbers

    A JavaScript number is a double: a [spec_float] with 53 bits of
    precision and exponents up to 1024, with the arithmetic of the standard
    library's specification of IEEE 754. *)

Definition number : Type := spec_float.

(** The double nearest to an integer (the integer itself up to [2^53]). *)
Definition Number_ofZ (z : Z) : number := binary_normalize 53 1024 z 0 false.

(** [x + y], rounded to nearest, ties to even. *)
Definition Number_add (x y : number) : number := SFadd 53 1024 x y.

(** The order between a number and an integer (an array length, a bound of
    a range), decided on the exact values: [x] is [(-1)^s * m * 2^e].  [NaN]
    compares with nothing. *)
Definition Number_compare (x : number) (z : Z) : option comparison :=
  match x with
  | S754_nan => None
  | S754_infinity s => Some (if s then Lt else Gt)
  | S754_zero _ => Some (0 ?= z)
  | S754_finite s m e =>
      Some (if 0 <=? e
            then cond_Zopp s (Zpos m) * 2 ^ e ?= z
            else cond_Zopp s (Zpos m) ?= z * 2 ^ (- e))
  end.

(** [x < z], [x > z] and [x <= z]: all false when [x] is [NaN]. *)
Definition Number_lt (x : number) (z : Z) : bool :=
  match Number_compare x z with Some Lt => true | _ => false end.

Definition Number_gt (x : number) (z : Z) : bool :=
  match Number_compare x z with Some Gt => true | _ => false end.

Definition Number_le (x : number) (z : Z) : bool :=
  match Number_compare x z with Some Lt | Some Eq => true | _ => false end.

(** The integer part of a number, rounding toward zero; 0 for [NaN] and the
    infinities, as in the conversions [ToInt32], [ToUint32] and [ToUint8]. *)
Definition truncate (x : number) : Z :=
  match x with
  | S754_finite s m e =>
      cond_Zopp s (if 0 <=? e then Zpos m * 2 ^ e else Zpos m / 2 ^ (- e))
  | _ => 0
  end.

(** [Number.isInteger]: the integer a number is, when it is one. *)
Definition Number_integer (x : number) : option Z :=
  match x with
  | S754_zero _ => Some 0
  | S754_finite s m e =>
      if 0 <=? e then Some (cond_Zopp s (Zpos m * 2 ^ e))
      else if Zpos m mod 2 ^ (- e) =? 0
           then Some (cond_Zopp s (Zpos m / 2 ^ (- e)))
           else None
  | _ => None
  end.

(** [ToIntegerOrInfinity], which array methods apply to their indices. *)
Inductive integerOrInfinity : Type :=
| MinusInfinity
| Integer (z : Z)
| PlusInfinity.

Definition ToIntegerOrInfinity (x : number) : integerOrInfinity :=
  match x with
  | S754_nan => Integer 0
  | S754_infinity true => MinusInfinity
  | S754_infinity false => PlusInfinity
  | _ => Integer (truncate x)
  end.

(* ===================================================================== *)
(** ** Buffers (Node.js [Buffer]) *)

Definition Buffer : Type := list byte.

Definition len {A : Type} (l : list A) : Z := Z.of_nat (length l).

(** Relative index of [Array.prototype.slice], [Buffer.prototype.slice]
    and [String.prototype.slice]: negative indices count from the end, and
    the result is clamped to [0 .. len]. *)
Definition relativeIndex (n k : Z) : Z :=
  if k <? 0 then Z.max (n + k) 0 else Z.min k n.

Definition slice {A : Type} (l : list A) (start stop : Z) : list A :=
  let k := relativeIndex (len l) start in
  let final := relativeIndex (len l) stop in
  firstn (Z.to_nat (final - k)) (skipn (Z.to_nat k) l).

(** [l.slice(start)]: up to the end. *)
Definition sliceFrom {A : Type} (l : list A) (start : Z) : list A :=
  slice l start (len l).

(** [Array.prototype.slice] on indices that are any numbers: each index is
    converted by [ToIntegerOrInfinity] and then made relative. *)
Definition relativeIndexOf (n : Z) (k : integerOrInfinity) : Z :=
  match k with
  | MinusInfinity => 0
  | Integer z => relativeIndex n z
  | PlusInfinity => n
  end.

Definition Array_slice {A : Type} (l : list A) (start stop : number) : list A :=
  let k := relativeIndexOf (len l) (ToIntegerOrInfinity start) in
  let final := relativeIndexOf (len l) (ToIntegerOrInfinity stop) in
  firstn (Z.to_nat (final - k)) (skipn (Z.to_nat k) l).

(** Two's complement reading of an unsigned [bits]-bit value. *)
Definition toSigned (bits u : Z) : Z :=
  if u <? 2 ^ (bits - 1) then u else u - 2 ^ bits.

(** The bounds check ([boundsError]) shared by the fixed-width accessors. *)
Definition inBounds (buf : Buffer) (offset width : Z) : bool :=
  (0 <=? offset) && (offset + width <=? len buf).

Definition bytesAt (buf : Buffer) (offset : Z) (width : nat) : list byte :=
  firstn width (skipn (Z.to_nat offset) buf).

Definition readInt8 (buf : Buffer) (offset : Z) : result Z :=
  if inBounds buf offset 1
  then Ok (toSigned 8 (le_combine (bytesAt buf offset 1)))
  else Err RangeError.

Definition readInt32LE (buf : Buffer) (offset : Z) : result Z :=
  if inBounds buf offset 4
  then Ok (toSigned 32 (le_combine (bytesAt buf offset 4)))
  else Err RangeError.

Definition readBigInt64LE (buf : Buffer) (offset : Z) : result Z :=
  if inBounds buf offset 8
  then Ok (toSigned 64 (le_combine (bytesAt buf offset 8)))
  else Err RangeError.

(** IEEE 754 decoding of a bit pattern with [ebits] exponent bits and
    [mbits] fraction bits, as a [spec_float]. *)
Definition decodeFloat (ebits mbits bits : Z) : spec_float :=
  let sign := Z.testbit bits (ebits + mbits) in
  let e := Z.land (Z.shiftr bits mbits) (Z.ones ebits) in
  let m := Z.land bits (Z.ones mbits) in
  let bias := 2 ^ (ebits - 1) - 1 in
  if e =? 0 then
    match m with
    | Zpos p => S754_finite sign p (1 - bias - mbits)
    | _ => S754_zero sign
    end
  else if e =? Z.ones ebits then
    (if m =? 0 then S754_infinity sign else S754_nan)
  else
    match m + 2 ^ mbits with
    | Zpos p => S754_finite sign p (e - bias - mbits)
    | _ => S754_zero sign
    end.

Definition readDoubleLE (buf : Buffer) (offset : Z) : result spec_float :=
  if inBounds buf offset 8
  then Ok (decodeFloat 11 52 (le_combine (bytesAt buf offset 8)))
  else Err RangeError.

Definition readFloatLE (buf : Buffer) (offset : Z) : result spec_float :=
  if inBounds buf offset 4
  then Ok (decodeFloat 8 23 (le_combine (bytesAt buf offset 4)))
  else Err RangeError.

(** Overwrite [bytes] into [buf] at [offset] (the offset is in bounds). *)
Definition splice (buf : Buffer) (offset : Z) (bytes : list byte) : Buffer :=
  firstn (Z.to_nat offset) buf ++ bytes
    ++ skipn (Z.to_nat offset + length bytes) buf.

(** [buf.writeInt8(value, offset)]: [checkInt] rejects values outside
    [-128 .. 127], then the bounds are checked. *)
Definition writeInt8 (buf : Buffer) (value offset : Z) : result Buffer :=
  if (value <? - 2 ^ 7) || (2 ^ 7 - 1 <? value) then Err RangeError
  else if inBounds buf offset 1
  then Ok (splice buf offset (le_split 1 value))
  else Err RangeError.

(** [buf.writeInt32LE(value, offset)] for any number [value]: [checkInt]
    raises a [RangeError] when [value > 2^31 - 1] or [value < -2^31] (both
    false for [NaN]), then the bounds are checked.  Each of the four bytes is
    stored by a conversion that drops the fraction ([buf[k] = value],
    [value >>> 8]), so the bytes are those of the integer part, and of 0 for
    [NaN]. *)
Definition writeInt32LE (buf : Buffer) (value : number) (offset : Z)
  : result Buffer :=
  if Number_gt value (2 ^ 31 - 1) || Number_lt value (- 2 ^ 31)
  then Err RangeError
  else if inBounds buf offset 4
  then Ok (splice buf offset (le_split 4 (truncate value)))
  else Err RangeError.

(** [Buffer.allocUnsafe(n)]: [n] bytes of uninitialised memory; [stale] is
    whatever the allocator's pool held. *)
Definition allocUnsafe (stale : Buffer) (n : nat) : Buffer :=
  firstn n (stale ++ repeat Byte.x00 n).

(** [Buffer.from(s)] on an ASCII literal (the seed words): one byte per
    character. *)
Definition Buffer_from (s : string) : Buffer := list_byte_of_string s.

(* ===================================================================== *)
(** ** Strings

    Text the client only hands on (base-58 renderings, the words it writes
    to the console, the seed literals) is a [string].  The wallet address,
    whose characters the client counts ([slice]) and converts
    ([TextEncoder], [toString]), is a JavaScript string proper: the sequence
    of its UTF-16 code units, each in [0 .. 0xFFFF]. *)

Definition JSString : Type := list Z.

(** An ASCII literal as a JavaScript string. *)
Definition utf16 (s : string) : JSString :=
  map byte.unsigned (list_byte_of_string s).

(** [s.slice(start)]: code units are dropped, not characters or bytes. *)
Definition string_slice (s : JSString) (start : Z) : JSString :=
  sliceFrom s start.

Definition isCodeUnit (u : Z) : bool := (0 <=? u) && (u <=? 0xFFFF).

Definition isHighSurrogate (u : Z) : bool := (0xD800 <=? u) && (u <=? 0xDBFF).

Definition isLowSurrogate (u : Z) : bool := (0xDC00 <=? u) && (u <=? 0xDFFF).

(** The code points of a string: a high surrogate followed by a low one is
    one supplementary code point, and a surrogate on its own is replaced by
    U+FFFD. *)
Fixpoint codePoints (s : JSString) : list Z :=
  match s with
  | [] => []
  | u :: rest =>
      if isHighSurrogate u then
        match rest with
        | v :: rest' =>
            if isLowSurrogate v
            then (0x10000 + (u - 0xD800) * 0x400 + (v - 0xDC00)) :: codePoints rest'
            else 0xFFFD :: codePoints rest
        | [] => [0xFFFD]
        end
      else if isLowSurrogate u then 0xFFFD :: codePoints rest
      else u :: codePoints rest
  end.

(** [String.prototype.isWellFormed]: code units with no surrogate on its
    own. *)
Fixpoint isWellFormed (s : JSString) : bool :=
  match s with
  | [] => true
  | u :: rest =>
      if isHighSurrogate u then
        match rest with
        | v :: rest' => isLowSurrogate v && isWellFormed rest'
        | [] => false
        end
      else negb (isLowSurrogate u) && isCodeUnit u && isWellFormed rest
  end.

(** The UTF-8 bytes of a code point: the leading byte carries the high
    bits, each continuation byte six more. *)
Definition utf8_bytes (c : Z) : list Z :=
  if c <? 0x80 then [c]
  else if c <? 0x800 then [0xC0 + c / 64; 0x80 + c mod 64]
  else if c <? 0x10000 then
    [0xE0 + c / 4096; 0x80 + (c / 64) mod 64; 0x80 + c mod 64]
  else
    [0xF0 + c / 262144; 0x80 + (c / 4096) mod 64; 0x80 + (c / 64) mod 64;
     0x80 + c mod 64].

(** [new TextEncoder().encode(s)]: the UTF-8 bytes of the code points. *)
Definition TextEncoder_encode (s : JSString) : Buffer :=
  map byte.of_Z (flat_map utf8_bytes (codePoints s)).

(** The UTF-8 decoder: the continuation bytes still [needed], the bits of
    the code point read so far, and the range the next byte must lie in. *)
Record utf8_state : Type := mkUtf8 {
  needed : nat;
  codePoint : Z;
  lower : Z;
  upper : Z
}.

Definition utf8_idle : utf8_state := mkUtf8 0 0 0x80 0xBF.

(** A byte read between sequences: an ASCII character, the start of a
    sequence of two to four bytes, or an error, decoded as U+FFFD. *)
Definition utf8_lead (v : Z) : list Z * utf8_state :=
  if v <=? 0x7F then ([v], utf8_idle)
  else if (0xC2 <=? v) && (v <=? 0xDF) then ([], mkUtf8 1 (v - 0xC0) 0x80 0xBF)
  else if (0xE0 <=? v) && (v <=? 0xEF) then
    ([], mkUtf8 2 (v - 0xE0) (if v =? 0xE0 then 0xA0 else 0x80)
           (if v =? 0xED then 0x9F else 0xBF))
  else if (0xF0 <=? v) && (v <=? 0xF4) then
    ([], mkUtf8 3 (v - 0xF0) (if v =? 0xF0 then 0x90 else 0x80)
           (if v =? 0xF4 then 0x8F else 0xBF))
  else ([0xFFFD], utf8_idle).

(** A byte read inside a sequence continues it when it lies in the expected
    range; otherwise the sequence is decoded as U+FFFD and the byte is read
    again as the start of the next one. *)
Definition utf8_step (st : utf8_state) (v : Z) : list Z * utf8_state :=
  match needed st with
  | O => utf8_lead v
  | S n =>
      if (lower st <=? v) && (v <=? upper st) then
        let c := codePoint st * 64 + (v - 0x80) in
        match n with
        | O => ([c], utf8_idle)
        | S _ => ([], mkUtf8 n c 0x80 0xBF)
        end
      else let '(out, st') := utf8_lead v in (0xFFFD :: out, st')
  end.

(** The code points of a byte sequence; a sequence cut short by the end of
    the input is decoded as U+FFFD. *)
Fixpoint utf8_decode (st : utf8_state) (bytes : list Z) : list Z :=
  match bytes with
  | [] => match needed st with O => [] | S _ => [0xFFFD] end
  | v :: rest =>
      let '(out, st') := utf8_step st v in out ++ utf8_decode st' rest
  end.

(** The code units of a code point: itself, or a surrogate pair. *)
Definition utf16_units (c : Z) : list Z :=
  if c <? 0x10000 then [c]
  else [0xD800 + (c - 0x10000) / 0x400; 0xDC00 + (c - 0x10000) mod 0x400].

(** [buf.utf8Slice(0, buf.length)]. *)
Definition utf8Slice (bytes : Buffer) : JSString :=
  flat_map utf16_units (utf8_decode utf8_idle (map byte.unsigned bytes)).

(** [buf.toString('utf8', start)]. *)
Definition toString_utf8 (buf : Buffer) (start : Z) : JSString :=
  utf8Slice (sliceFrom buf start).

(* ===================================================================== *)
(** ** External collaborators

    What the client takes from its libraries: the chain's address hash and
    curve test ([@solana/web3.js]), the base-58 codec ([bs58]) and the
    random source ([crypto.randomBytes]). *)

Class Platform : Type := {
  addressHash : Buffer -> Buffer;
  isOnCurve : Buffer -> bool;
  domainSuffix : Buffer;
  bs58_encode : Buffer -> string;
  bs58_decode : string -> option Buffer;
  RNG : Type;
  randomBytes : nat -> RNG -> Buffer * RNG
}.

(* ===================================================================== *)
(** ** Public keys and program ids ([pid.ts]) *)

Record PublicKey : Type := mkPublicKey { toBuffer : Buffer }.

Record Keypair : Type := mkKeypair { publicKey : PublicKey; secretKey : Buffer }.

(** [new PublicKey(value)] on a base-58 string: [bs58.decode] throws on a
    character outside the alphabet, and the decoded bytes must be 32 long. *)
Definition PublicKey_new `{Platform} (value : string) : result PublicKey :=
  match bs58_decode value with
  | Some decoded =>
      if (length decoded =? 32)%nat then Ok (mkPublicKey decoded)
      else Err InvalidPublicKeyInput
  | None => Err NonBase58Character
  end.

(** [key.toString()]: the base-58 rendering. *)
Definition PublicKey_toString `{Platform} (key : PublicKey) : string :=
  bs58_encode (toBuffer key).

Module PID.
Import Stdlib.Init.Byte.

(** [TokenkegQfeZyiNwAJbNbGKPFXCWuBvf9Ss623VQ5DA] *)
Definition TOKEN : PublicKey := mkPublicKey
  [x06; xdd; xf6; xe1; xd7; x65; xa1; x93; xd9; xcb; xe1; x46; xce; xeb; x79; xac;
   x1c; xb4; x85; xed; x5f; x5b; x37; x91; x3a; x8c; xf5; x85; x7e; xff; x00; xa9].

(** [ATokenGPvbdGVxr1b2hvZbsiqW5xWH25efTNsLJA8knL] *)
Definition SPL_ASSOCIATED_TOKEN_ACCOUNT : PublicKey := mkPublicKey
  [x8c; x97; x25; x8f; x4e; x24; x89; xf1; xbb; x3d; x10; x29; x14; x8e; x0d; x83;
   x0b; x5a; x13; x99; xda; xff; x10; x84; x04; x8e; x7b; xd8; xdb; xe9; xf8; x59].

(** [metaqbxxUerdq28cj1RbAWkYQm3ybzjb6a8bt518x1s] *)
Definition MPL_TOKEN_METADATA : PublicKey := mkPublicKey
  [x0b; x70; x65; xb1; xe3; xd1; x7c; x45; x38; x9d; x52; x7f; x6b; x04; xc3; xcd;
   x58; xb8; x6c; x73; x1a; xa0; xfd; xb5; x49; xb6; xd1; xbc; x03; xf8; x29; x46].

(** [GMRXrgb2TF6ejGt3nJrUAkwVoKUrnVK5LZ6duRE8x47g] *)
Definition GAIMIN_PFP : PublicKey := mkPublicKey
  [xe4; x1a; xa8; x94; x0f; x7b; x6a; x36; x47; x3c; xc0; x83; x4c; xce; x61; xa4;
   xc7; x3e; x96; x5e; xbe; x67; xa9; x3d; x1b; xfd; x32; x47; x79; x32; x12; x17].
End PID.

(** [SystemProgram.programId]: the all-zero key. *)
Definition SystemProgram_programId : PublicKey :=
  mkPublicKey (repeat Byte.x00 32).

(* ===================================================================== *)
(** ** Address derivation ([pda.ts]) *)

(** The bytes hashed for one candidate bump. *)
Definition derivationPreimage `{Platform}
    (seeds : list Buffer) (bump : Z) (programId : PublicKey) : Buffer :=
  concat seeds ++ [byte.of_Z bump] ++ toBuffer programId ++ domainSuffix.

(** Modelled from the spec: [PublicKey.findProgramAddressSync] belongs to
    [@solana/web3.js] and is not part of the sources; this is the bump search
    of section 4.1.  [bumpSearch n] tries the bumps [n - 1], [n - 2], ...,
    [0] in that order and returns the first hash that is off the curve, with
    its bump. *)
Fixpoint bumpSearch `{Platform}
    (seeds : list Buffer) (programId : PublicKey) (n : nat)
  : result (PublicKey * Z) :=
  match n with
  | O => Err DerivationError
  | S b =>
      let h := addressHash (derivationPreimage seeds (Z.of_nat b) programId) in
      if isOnCurve h then bumpSearch seeds programId b
      else Ok (mkPublicKey h, Z.of_nat b)
  end.

(** Modelled from the spec: [derive(programId, seeds)], the search started at
    bump 255. *)
Definition findProgramAddressSync `{Platform}
    (seeds : list Buffer) (programId : PublicKey) : result (PublicKey * Z) :=
  bumpSearch seeds programId 256.

Section Pda.
Context `{Platform}.

Definition findMetadataAccountPda (mint : PublicKey) : result (PublicKey * Z) :=
  findProgramAddressSync
    [ Buffer_from "metadata";
      toBuffer PID.MPL_TOKEN_METADATA;
      toBuffer mint ]
    PID.MPL_TOKEN_METADATA.

Definition findMasterEditionAccountPda (mint : PublicKey) : result (PublicKey * Z) :=
  findProgramAddressSync
    [ Buffer_from "metadata";
      toBuffer PID.MPL_TOKEN_METADATA;
      toBuffer mint;
      Buffer_from "edition" ]
    PID.MPL_TOKEN_METADATA.

Definition findTokenAccountPda (mint wallet : PublicKey) : result (PublicKey * Z) :=
  findProgramAddressSync
    [ toBuffer wallet;
      toBuffer PID.TOKEN;
      toBuffer mint ]
    PID.SPL_ASSOCIATED_TOKEN_ACCOUNT.

Definition findTokenRecordPda (mint token : PublicKey) : result (PublicKey * Z) :=
  findProgramAddressSync
    [ Buffer_from "metadata";
      toBuffer PID.MPL_TOKEN_METADATA;
      toBuffer mint;
      Buffer_from "token_record";
      toBuffer token ]
    PID.MPL_TOKEN_METADATA.

Definition findConfigPda : result (PublicKey * Z) :=
  findProgramAddressSync
    [ Buffer_from "config" ]
    PID.GAIMIN_PFP.

Definition findNftPda (mint : PublicKey) : result (PublicKey * Z) :=
  findProgramAddressSync
    [ Buffer_from "nft";
      toBuffer mint ]
    PID.GAIMIN_PFP.

Definition findClaimPda (wallet : PublicKey) (seed : Buffer) : result (PublicKey * Z) :=
  findProgramAddressSync
    [ Buffer_from "claim";
      toBuffer wallet;
      seed ]
    PID.GAIMIN_PFP.
End Pda.

(* ===================================================================== *)
(** ** Record types ([types.ts]) *)

Inductive TokenRecordState : Type := Unlocked | Locked | Listed.

Inductive DelegateRole : Type :=
  Sale | Transfer | Utility | Staking | Standard | LockedTransfer | Migration.

(** The numbers the TypeScript enums stand for at run time. *)
Definition TokenRecordState_value (s : TokenRecordState) : Z :=
  match s with Unlocked => 0 | Locked => 1 | Listed => 2 end.

Definition DelegateRole_value (r : DelegateRole) : Z :=
  match r with
  | Sale => 0 | Transfer => 1 | Utility => 2 | Staking => 3
  | Standard => 4 | LockedTransfer => 5 | Migration => 255
  end.

(** A decoded token record holds whatever numbers the bytes held; [delegate]
    is the base-58 string [bs58.encode] returned. *)
Record TokenRecord : Type := mkTokenRecord {
  state : Z;
  delegate : option string;
  delegateRole : option Z
}.

Record ConfigRecord : Type := mkConfigRecord {
  authority : PublicKey;
  creator : PublicKey;
  claimable_from : Z;
  accumulated_reward : Z;
  initial_reward : Z;
  accumulation_duration : Z;
  generation_duration : Z
}.

(** The arguments of the set-config instruction are whatever numbers the
    caller passes: the drivers pass products and quotients. *)
Record ConfigArgs : Type := mkConfigArgs {
  args_claimable_from : number;
  args_accumulated_reward : number;
  args_initial_reward : number;
  args_total_accumulation_period : number;
  args_generation_duration : number
}.

Record NftRecord : Type := mkNftRecord {
  claimed_amount : Z;
  total_amount : Z;
  last_claimed_at : Z
}.

Record ClaimRecord : Type := mkClaimRecord {
  generation : Z;
  amount : Z;
  owner : PublicKey;
  bnb_chain_wallet_address : JSString
}.

(* ===================================================================== *)
(** ** Account decoders ([parse.ts]) *)

(** The RPC connection, as far as the decoders see it: the data of an
    account, or nothing when the account does not exist. *)
Definition Connection : Type := PublicKey -> option Buffer.

Record AccountInfo : Type := mkAccountInfo { data : Buffer }.

Definition getAccountInfo (connection : Connection) (acc : PublicKey)
  : result AccountInfo :=
  match connection acc with
  | None => Err UninitializedAccount
  | Some d => Ok (mkAccountInfo d)
  end.

Section Parse.
Context `{Platform}.

(** The callback of [parseTokenRecord]. *)
Definition decodeTokenRecord (resp : AccountInfo) : result TokenRecord :=
  let offset := 2 in
  state <- readInt8 (data resp) offset ;;
  let offset := offset + 1 in
  revision <- readInt8 (data resp) offset ;;
  let offset := offset + (if revision =? 0 then 1 else 9) in
  present <- readInt8 (data resp) offset ;;
  let delegate :=
    if present =? 0 then None
    else Some (bs58_encode (slice (data resp) (offset + 1) (offset + 33))) in
  delegateRole <-
    match delegate with
    | None => Ok None
    | Some _ => role <- readInt8 (data resp) (offset + 34) ;; Ok (Some role)
    end ;;
  Ok (mkTokenRecord state delegate delegateRole).

Definition parseTokenRecord (connection : Connection) (acc : PublicKey)
  : result TokenRecord :=
  resp <- getAccountInfo connection acc ;; decodeTokenRecord resp.

(** The callback of [parseConfig]. *)
Definition decodeConfig (resp : AccountInfo) : result ConfigRecord :=
  authority <- PublicKey_new (bs58_encode (slice (data resp) 0 32)) ;;
  creator <- PublicKey_new (bs58_encode (slice (data resp) 32 64)) ;;
  claimable_from <- readInt32LE (data resp) 64 ;;
  accumulated_reward <- readInt32LE (data resp) 68 ;;
  initial_reward <- readInt32LE (data resp) 72 ;;
  accumulation_duration <- readInt32LE (data resp) 76 ;;
  generation_duration <- readInt32LE (data resp) 80 ;;
  Ok (mkConfigRecord authority creator claimable_from accumulated_reward
        initial_reward accumulation_duration generation_duration).

Definition parseConfig (connection : Connection) (acc : PublicKey)
  : result ConfigRecord :=
  resp <- getAccountInfo connection acc ;; decodeConfig resp.

(** The callback of [parseNft]. *)
Definition decodeNft (resp : AccountInfo) : result NftRecord :=
  claimed_amount <- readInt32LE (data resp) 0 ;;
  total_amount <- readInt32LE (data resp) 4 ;;
  last_claimed_at <- readInt32LE (data resp) 8 ;;
  Ok (mkNftRecord claimed_amount total_amount last_claimed_at).

Definition parseNft (connection : Connection) (acc : PublicKey)
  : result NftRecord :=
  resp <- getAccountInfo connection acc ;; decodeNft resp.

(** The callback of [parseClaim]. *)
Definition decodeClaim (resp : AccountInfo) : result ClaimRecord :=
  generation <- readInt32LE (data resp) 0 ;;
  amount <- readInt32LE (data resp) 4 ;;
  owner <- PublicKey_new (bs58_encode (slice (data resp) 8 40)) ;;
  Ok (mkClaimRecord generation amount owner
        (utf16 "0x" ++ toString_utf8 (data resp) 40)).

Definition parseClaim (connection : Connection) (acc : PublicKey)
  : result ClaimRecord :=
  resp <- getAccountInfo connection acc ;; decodeClaim resp.
End Parse.

(* ===================================================================== *)
(** ** Instruction builders ([instruction.ts]) *)

Record AccountMeta : Type := mkAccountMeta {
  pubkey : PublicKey;
  isSigner : bool;
  isWritable : bool
}.

Record TransactionInstruction : Type := mkTransactionInstruction {
  ix_data : Buffer;
  keys : list AccountMeta;
  programId : PublicKey
}.

Module GAIMIN_PFP_INSTRUCTIONS.
Definition CONFIG : Z := 0.
Definition DELETE : Z := 1.
Definition NFT : Z := 2.
Definition CREATE_CLAIM : Z := 3.
Definition CLAIM : Z := 4.
End GAIMIN_PFP_INSTRUCTIONS.

(** [Uint8Array.of(...)]: every element is stored modulo 256. *)
Definition Uint8Array_of (elements : list Z) : Buffer := map byte.of_Z elements.

Definition spread (bytes : Buffer) : list Z := map byte.unsigned bytes.

Section Instruction.
Context `{Platform}.

(** [stale] is the content of the memory [Buffer.allocUnsafe] hands out. *)
Definition setConfigInstruction (stale : Buffer)
    (signer creator : PublicKey) (config : ConfigArgs)
  : result TransactionInstruction :=
  let data := allocUnsafe stale (1 + 5 * 4) in
  data <- writeInt8 data GAIMIN_PFP_INSTRUCTIONS.CONFIG 0 ;;
  data <- writeInt32LE data (args_claimable_from config) 1 ;;
  data <- writeInt32LE data (args_accumulated_reward config) 5 ;;
  data <- writeInt32LE data (args_initial_reward config) 9 ;;
  data <- writeInt32LE data (args_total_accumulation_period config) 13 ;;
  data <- writeInt32LE data (args_generation_duration config) 17 ;;
  '(config_pda, _) <- findConfigPda ;;
  Ok {| ix_data := data;
        keys :=
          [ mkAccountMeta signer true false;
            mkAccountMeta creator false false;
            mkAccountMeta config_pda false true;
            mkAccountMeta SystemProgram_programId false false ];
        programId := PID.GAIMIN_PFP |}.

Definition registerNftInstruction (signer mint : PublicKey)
  : result TransactionInstruction :=
  '(metadata, _) <- findMetadataAccountPda mint ;;
  '(master_edition, _) <- findMasterEditionAccountPda mint ;;
  '(nft, _) <- findNftPda mint ;;
  '(config, _) <- findConfigPda ;;
  Ok {| ix_data := Uint8Array_of [GAIMIN_PFP_INSTRUCTIONS.NFT];
        keys :=
          [ mkAccountMeta signer true false;
            mkAccountMeta mint false false;
            mkAccountMeta metadata false false;
            mkAccountMeta master_edition false false;
            mkAccountMeta nft false true;
            mkAccountMeta config false false;
            mkAccountMeta SystemProgram_programId false false ];
        programId := PID.GAIMIN_PFP |}.

Definition createClaimInstruction
    (wallet : PublicKey) (bnbWallet : JSString) (claim_seed : Buffer)
  : result TransactionInstruction :=
  '(claim, bump) <- findClaimPda wallet claim_seed ;;
  let data :=
    Uint8Array_of
      ([GAIMIN_PFP_INSTRUCTIONS.CREATE_CLAIM; bump]
         ++ spread claim_seed
         ++ spread (TextEncoder_encode (string_slice bnbWallet 2))) in
  '(config, _) <- findConfigPda ;;
  Ok {| ix_data := data;
        keys :=
          [ mkAccountMeta wallet true false;
            mkAccountMeta claim false true;
            mkAccountMeta config false false;
            mkAccountMeta SystemProgram_programId false false ];
        programId := PID.GAIMIN_PFP |}.

Definition claimInstruction
    (wallet mint : PublicKey) (claim_seed : Buffer)
  : result TransactionInstruction :=
  '(nft_record, nft_bump) <- findNftPda mint ;;
  '(token, token_bump) <- findTokenAccountPda mint wallet ;;
  '(config, _) <- findConfigPda ;;
  '(token_record, token_record_bump) <- findTokenRecordPda mint token ;;
  '(claim, _) <- findClaimPda wallet claim_seed ;;
  Ok {| ix_data :=
          Uint8Array_of
            [ GAIMIN_PFP_INSTRUCTIONS.CLAIM;
              token_bump;
              token_record_bump;
              nft_bump ];
        keys :=
          [ mkAccountMeta wallet true false;
            mkAccountMeta token false false;
            mkAccountMeta token_record false false;
            mkAccountMeta nft_record false true;
            mkAccountMeta claim false true;
            mkAccountMeta config false false ];
        programId := PID.GAIMIN_PFP |}.
End Instruction.

(* ===================================================================== *)
(** ** Transactions ([transaction.ts]) *)

Record AddressLookupTableAccount : Type := mkAddressLookupTableAccount {
  lut_key : PublicKey;
  lut_addresses : list PublicKey
}.

Record TransactionMessageArgs : Type := mkTransactionMessageArgs {
  payerKey : PublicKey;
  instructions : list TransactionInstruction
}.

(** A call of [sendAndConfirmTransaction], kept as the arguments it was
    given.  The function itself fetches a block hash and then has the library
    compile the message, sign it, serialise it and submit it; none of that is
    modelled.  A [SendRequest] is therefore a request to assemble and send a
    transaction, not an assembled transaction: the library can still refuse
    the message (one too large for a packet, for instance). *)
Record SendRequest : Type := sendAndConfirmTransaction {
  request_connection : Connection;
  signers : list Keypair;
  msg : TransactionMessageArgs;
  luts : option (list AddressLookupTableAccount)
}.

Section Transaction.
Context `{Platform}.

(** The random source is threaded through: [claimReward] draws the claim
    seed, builds the instruction array (which may throw) and hands the
    message to [sendAndConfirmTransaction]. *)
Definition claimReward (connection : Connection) (userPayer : Keypair)
    (mints : list PublicKey) (bnbWallet : JSString)
    (luts : option (list AddressLookupTableAccount)) (g : RNG)
  : result SendRequest * RNG :=
  let '(claim_seed, g') := randomBytes 32 g in
  (create <- createClaimInstruction (publicKey userPayer) bnbWallet claim_seed ;;
   registers <- mapM (fun mint => registerNftInstruction (publicKey userPayer) mint) mints ;;
   claims <- mapM (fun mint => claimInstruction (publicKey userPayer) mint claim_seed) mints ;;
   Ok (sendAndConfirmTransaction connection [userPayer]
         {| payerKey := publicKey userPayer;
            instructions := [create] ++ registers ++ claims |}
         luts),
   g').
End Transaction.

(* ===================================================================== *)
(** ** The claim driver ([index.ts]) *)

Definition bnbWallet : JSString :=
  utf16 "0xC3Fc58A10056fDF37b0AAAE295Ef3C42609988B8".

(** The state of the loop of [concurrentClaim]: the promises pushed so far,
    the lines written to the console and the random source. *)
Record ClaimLoop `{Platform} : Type := mkClaimLoop {
  promises : list (result SendRequest);
  console : list (string * list string);
  rng : RNG
}.

Arguments mkClaimLoop {_} _ _ _.

Section Index.
Context `{Platform}.
Variable connection : Connection.
Variable wallet : Keypair.

(** A call of the async function [claim] runs up to the first network
    request: the promise it returns is the pending request, or the
    rejection when building the instructions threw. *)
Definition claim (mints : list PublicKey) (g : RNG) : result SendRequest * RNG :=
  claimReward connection wallet mints bnbWallet None g.

(** The [for] loop of [concurrentClaim], with [i] its index.  The loop runs
    while [i < mints.length]; [fuel] bounds the number of iterations the
    model follows, and [None] means the bound was reached with the loop
    still running.  [chunkSize] is any number and [i], which starts at 0,
    is a number too: [i + chunkSize] is a floating-point sum, and [slice]
    truncates its two indices.  The final [await Promise.all(promises)] only
    waits on the network and is left out. *)
Fixpoint concurrentClaimLoop (fuel : nat) (mints : list PublicKey)
    (chunkSize i : number) (st : ClaimLoop) : option ClaimLoop :=
  match fuel with
  | O => None
  | S fuel' =>
      if Number_lt i (len mints) then
        let chunk := Array_slice mints i (Number_add i chunkSize) in
        let line := ("Claiming"%string, map PublicKey_toString chunk) in
        let '(promise, g') := claim chunk (rng st) in
        concurrentClaimLoop fuel' mints chunkSize (Number_add i chunkSize)
          (mkClaimLoop (promises st ++ [promise]) (console st ++ [line]) g')
      else Some st
  end.

Definition concurrentClaim (fuel : nat) (mints : list PublicKey)
    (chunkSize : number) (g : RNG) : option ClaimLoop :=
  concurrentClaimLoop fuel mints chunkSize (S754_zero false)
    (mkClaimLoop [] [] g).
End Index.

(* ===================================================================== *)
(** ** The legacy client ([client.ts]) *)

Module Legacy.

(** A JavaScript [Date]: a time value in milliseconds, or invalid. *)
Inductive Date : Type :=
| ValidDate (ms : Z)
| InvalidDate.

(** [new Date(1000 * Number(seconds))] for a 64-bit integer [seconds].
    Time values beyond 8.64e15 ms are invalid; within that range both the
    conversion to a double and the product are exact. *)
Definition Date_of_seconds (seconds : Z) : Date :=
  if Z.abs (1000 * seconds) <=? 8640000000000000
  then ValidDate (1000 * seconds)
  else InvalidDate.

Record ConfigRecord : Type := mkConfigRecord {
  authority : string;
  claimable_from : Date;
  total_reward : spec_float;
  initial_reward_frac : spec_float;
  reward_period_sec : Z
}.

Section Client.
Context `{Platform}.

(** The decoding part of the legacy [parseConfig]. *)
Definition decodeConfig (response : AccountInfo) : result ConfigRecord :=
  let authority := bs58_encode (slice (data response) 0 32) in
  seconds <- readBigInt64LE (data response) 32 ;;
  total_reward <- readDoubleLE (data response) 40 ;;
  initial_reward_frac <- readFloatLE (data response) 48 ;;
  reward_period_sec <- readInt32LE (data response) 52 ;;
  Ok (mkConfigRecord authority (Date_of_seconds seconds) total_reward
        initial_reward_frac reward_period_sec).

(** The legacy [parseConfig] returns [null] for a missing account. *)
Definition parseConfig (config_pda : PublicKey) (connection : Connection)
  : result (option ConfigRecord) :=
  match connection config_pda with
  | None => Ok None
  | Some d => config <- decodeConfig (mkAccountInfo d) ;; Ok (Some config)
  end.
End Client.
End Legacy.

(* ===================================================================== *)
(** ** The other instruction builders ([instruction.ts]) *)

(** [SYSVAR_INSTRUCTIONS_PUBKEY]:
    [Sysvar1nstructions1111111111111111111111111] *)
Definition SYSVAR_INSTRUCTIONS_PUBKEY : PublicKey := mkPublicKey
  (map byte.of_Z
     [0x06; 0xa7; 0xd5; 0x17; 0x18; 0x7b; 0xd1; 0x66; 0x35; 0xda; 0xd4; 0x04;
      0x55; 0xfd; 0xc2; 0xc0; 0xc1; 0x24; 0xc6; 0x8f; 0x21; 0x56; 0x75; 0xa5;
      0xdb; 0xba; 0xcb; 0x5f; 0x08; 0x00; 0x00; 0x00]).

(** [buf.writeBigInt64LE(value, offset)]: values outside
    [-2^63 .. 2^63 - 1] raise a [RangeError]. *)
Definition writeBigInt64LE (buf : Buffer) (value offset : Z) : result Buffer :=
  if (value <? - 2 ^ 63) || (2 ^ 63 - 1 <? value) then Err RangeError
  else if inBounds buf offset 8
  then Ok (splice buf offset (le_split 8 value))
  else Err RangeError.

Module MPL_INSTRUCTIONS.
Definition delegate : Z := 44.
Definition revoke : Z := 45.
Definition lock : Z := 46.
Definition unlock : Z := 47.
End MPL_INSTRUCTIONS.

Module MPL_DELEGATE_TYPES.
Definition staking : Z := 5.
End MPL_DELEGATE_TYPES.

(** The account that stands for an optional account left out. *)
Definition MPL_EMPTY_ACCOUNT : AccountMeta :=
  mkAccountMeta PID.MPL_TOKEN_METADATA false false.

Section OtherInstructions.
Context `{Platform}.

Definition deleteAccountInstruction (signer acc : PublicKey)
  : result TransactionInstruction :=
  let data := Uint8Array_of [GAIMIN_PFP_INSTRUCTIONS.DELETE] in
  '(config, _) <- findConfigPda ;;
  Ok {| ix_data := data;
        keys :=
          [ mkAccountMeta signer true false;
            mkAccountMeta acc false true;
            mkAccountMeta signer false true;
            mkAccountMeta config false false ];
        programId := PID.GAIMIN_PFP |}.

(** [stale] is the content of the memory [Buffer.allocUnsafe] hands out. *)
Definition delegateApproveInstruction (stale : Buffer)
    (mint wallet payer delegate : PublicKey) : result TransactionInstruction :=
  let data := allocUnsafe stale 11 in
  data <- writeInt8 data MPL_INSTRUCTIONS.delegate 0 ;;
  data <- writeInt8 data MPL_DELEGATE_TYPES.staking 1 ;;
  data <- writeBigInt64LE data 1 2 ;;
  data <- writeInt8 data 0 10 ;;
  '(token_acc, _) <- findTokenAccountPda mint wallet ;;
  '(metadata_acc, _) <- findMetadataAccountPda mint ;;
  '(master_edition_acc, _) <- findMasterEditionAccountPda mint ;;
  '(token_rec, _) <- findTokenRecordPda mint token_acc ;;
  Ok {| ix_data := data;
        keys :=
          [ MPL_EMPTY_ACCOUNT;
            mkAccountMeta delegate false false;
            mkAccountMeta metadata_acc false true;
            mkAccountMeta master_edition_acc false false;
            mkAccountMeta token_rec false true;
            mkAccountMeta mint false false;
            mkAccountMeta token_acc false true;
            mkAccountMeta wallet true false;
            mkAccountMeta payer true false;
            mkAccountMeta SystemProgram_programId false false;
            mkAccountMeta SYSVAR_INSTRUCTIONS_PUBKEY false false;
            mkAccountMeta PID.TOKEN false false;
            MPL_EMPTY_ACCOUNT;
            MPL_EMPTY_ACCOUNT ];
        programId := PID.MPL_TOKEN_METADATA |}.

Definition delegateRevokeInstruction
    (mint wallet payer delegate : PublicKey) : result TransactionInstruction :=
  '(token_acc, _) <- findTokenAccountPda mint wallet ;;
  '(metadata_acc, _) <- findMetadataAccountPda mint ;;
  '(master_edition_acc, _) <- findMasterEditionAccountPda mint ;;
  '(token_rec, _) <- findTokenRecordPda mint token_acc ;;
  Ok {| ix_data :=
          Uint8Array_of [MPL_INSTRUCTIONS.revoke; MPL_DELEGATE_TYPES.staking];
        keys :=
          [ MPL_EMPTY_ACCOUNT;
            mkAccountMeta delegate false false;
            mkAccountMeta metadata_acc false true;
            mkAccountMeta master_edition_acc false false;
            mkAccountMeta token_rec false true;
            mkAccountMeta mint false false;
            mkAccountMeta token_acc false true;
            mkAccountMeta wallet true false;
            mkAccountMeta payer true false;
            mkAccountMeta SystemProgram_programId false false;
            mkAccountMeta SYSVAR_INSTRUCTIONS_PUBKEY false false;
            mkAccountMeta PID.TOKEN false false;
            MPL_EMPTY_ACCOUNT;
            MPL_EMPTY_ACCOUNT ];
        programId := PID.MPL_TOKEN_METADATA |}.

Definition lockInstruction
    (mint wallet payer delegate : PublicKey) : result TransactionInstruction :=
  '(token_acc, _) <- findTokenAccountPda mint wallet ;;
  '(metadata_acc, _) <- findMetadataAccountPda mint ;;
  '(master_edition_acc, _) <- findMasterEditionAccountPda mint ;;
  '(token_rec, _) <- findTokenRecordPda mint token_acc ;;
  Ok {| ix_data := Uint8Array_of [MPL_INSTRUCTIONS.lock; 0; 0];
        keys :=
          [ mkAccountMeta delegate true false;
            MPL_EMPTY_ACCOUNT;
            mkAccountMeta token_acc false true;
            mkAccountMeta mint false false;
            mkAccountMeta metadata_acc false true;
            mkAccountMeta master_edition_acc false false;
            mkAccountMeta token_rec false true;
            mkAccountMeta payer true true;
            mkAccountMeta SystemProgram_programId false false;
            mkAccountMeta SYSVAR_INSTRUCTIONS_PUBKEY false false;
            mkAccountMeta PID.TOKEN false false;
            MPL_EMPTY_ACCOUNT;
            MPL_EMPTY_ACCOUNT ];
        programId := PID.MPL_TOKEN_METADATA |}.

Definition unlockInstruction
    (mint wallet payer delegate : PublicKey) : result TransactionInstruction :=
  '(token_acc, _) <- findTokenAccountPda mint wallet ;;
  '(metadata_acc, _) <- findMetadataAccountPda mint ;;
  '(master_edition_acc, _) <- findMasterEditionAccountPda mint ;;
  '(token_rec, _) <- findTokenRecordPda mint token_acc ;;
  Ok {| ix_data := Uint8Array_of [MPL_INSTRUCTIONS.unlock; 0; 0];
        keys :=
          [ mkAccountMeta delegate true false;
            MPL_EMPTY_ACCOUNT;
            mkAccountMeta token_acc false true;
            mkAccountMeta mint false false;
            mkAccountMeta metadata_acc false true;
            mkAccountMeta master_edition_acc false false;
            mkAccountMeta token_rec false true;
            mkAccountMeta payer true true;
            mkAccountMeta SystemProgram_programId false false;
            mkAccountMeta SYSVAR_INSTRUCTIONS_PUBKEY false false;
            mkAccountMeta PID.TOKEN false false;
            MPL_EMPTY_ACCOUNT;
            MPL_EMPTY_ACCOUNT ];
        programId := PID.MPL_TOKEN_METADATA |}.
End OtherInstructions.

(* ===================================================================== *)
(** ** The other transactions ([transaction.ts]) *)

(** [Array.prototype.map] with a callback that also looks at the index of
    the element; [k] is the index of the head of the list. *)
Fixpoint mapMi {A B : Type} (f : nat -> A -> result B) (k : nat) (l : list A)
  : result (list B) :=
  match l with
  | [] => Ok []
  | a :: l' => b <- f k a ;; bs <- mapMi f (S k) l' ;; Ok (b :: bs)
  end.

Section OtherTransactions.
Context `{Platform}.

Definition setConfig (stale : Buffer) (connection : Connection)
    (authPayer : Keypair) (creator : PublicKey) (config : ConfigArgs)
  : result SendRequest :=
  ix <- setConfigInstruction stale (publicKey authPayer) creator config ;;
  Ok (sendAndConfirmTransaction connection [authPayer]
        {| payerKey := publicKey authPayer; instructions := [ix] |} None).

Definition deleteAccount (connection : Connection) (authPayer : Keypair)
    (acc : PublicKey) : result SendRequest :=
  ix <- deleteAccountInstruction (publicKey authPayer) acc ;;
  Ok (sendAndConfirmTransaction connection [authPayer]
        {| payerKey := publicKey authPayer; instructions := [ix] |} None).

Definition registerNft (connection : Connection) (authPayer : Keypair)
    (mint : PublicKey) : result SendRequest :=
  ix <- registerNftInstruction (publicKey authPayer) mint ;;
  Ok (sendAndConfirmTransaction connection [authPayer]
        {| payerKey := publicKey authPayer; instructions := [ix] |} None).

(** [stale k] is the memory handed to the [k]-th delegate instruction. *)
Definition delegateAndLock (stale : nat -> Buffer) (connection : Connection)
    (userPayer : Keypair) (mints : list PublicKey)
    (luts : option (list AddressLookupTableAccount)) : result SendRequest :=
  approves <-
    mapMi (fun k mint =>
             delegateApproveInstruction (stale k) mint (publicKey userPayer)
               (publicKey userPayer) (publicKey userPayer)) 0 mints ;;
  locks <-
    mapM (fun mint =>
            lockInstruction mint (publicKey userPayer) (publicKey userPayer)
              (publicKey userPayer)) mints ;;
  Ok (sendAndConfirmTransaction connection [userPayer]
        {| payerKey := publicKey userPayer;
           instructions := approves ++ locks |} luts).

(** [revokeAndUnlock] takes lookup tables but calls
    [sendAndConfirmTransaction] without them. *)
Definition revokeAndUnlock (connection : Connection) (userPayer : Keypair)
    (mints : list PublicKey) (luts : option (list AddressLookupTableAccount))
  : result SendRequest :=
  unlocks <-
    mapM (fun mint =>
            unlockInstruction mint (publicKey userPayer) (publicKey userPayer)
              (publicKey userPayer)) mints ;;
  revokes <-
    mapM (fun mint =>
            delegateRevokeInstruction mint (publicKey userPayer)
              (publicKey userPayer) (publicKey userPayer)) mints ;;
  Ok (sendAndConfirmTransaction connection [userPayer]
        {| payerKey := publicKey userPayer;
           instructions := unlocks ++ revokes |} None).
End OtherTransactions.

(* ===================================================================== *)
(** ** The set-up steps of the driver ([index.ts]) and the claim query
    ([release.ts]) *)

Section Ensure.
Context `{Platform}.
Variable connection : Connection.
Variable wallet : Keypair.

(** [ensureNftRecord]: any rejection of [parseNft] is answered by
    registering the mint; [None] when the record was read. *)
Definition ensureNftRecord (mint : PublicKey) : result (option SendRequest) :=
  '(nft, _) <- findNftPda mint ;;
  match parseNft connection nft with
  | Ok _ => Ok None
  | Err _ => request <- registerNft connection wallet mint ;; Ok (Some request)
  end.

(** [ensureLock]: the lines written to the console, and the request issued
    when the token is not locked. *)
Definition ensureLock (stale : nat -> Buffer) (mint : PublicKey)
  : list string * result (option SendRequest) :=
  match
    ('(tokenPda, _) <- findTokenAccountPda mint (publicKey wallet) ;;
     '(tokenRecordPda, _) <- findTokenRecordPda mint tokenPda ;;
     parseTokenRecord connection tokenRecordPda)
  with
  | Err e => ([], Err e)
  | Ok tokenRecord =>
      if negb (state tokenRecord =? TokenRecordState_value Locked) then
        (["Locking token..."%string],
         request <- delegateAndLock stale connection wallet [mint] None ;;
         Ok (Some request))
      else ([], Ok None)
  end.
End Ensure.

Inductive GetProgramAccountsFilter : Type :=
| dataSize (size : Z)
| memcmp (offset : Z) (bytes : string).

(** The filters [printAllClaimRecords] of [release.ts] passes to
    [getProgramAccounts]; the query itself and the printing are network and
    console work.  The generation is any number: the caller passes a
    quotient. *)
Definition claimRecordFilters `{Platform} (stale : Buffer)
    (generation : option number) : result (list GetProgramAccountsFilter) :=
  let filters := [dataSize 80] in
  match generation with
  | None => Ok filters
  | Some generation =>
      let buf := allocUnsafe stale 4 in
      buf <- writeInt32LE buf generation 0 ;;
      Ok (filters ++ [memcmp 0 (bs58_encode buf)])
  end.

(* ===================================================================== *)
(** ** Stake records and claims of the legacy client ([client.ts]) *)

Module LegacyClaims.

Record NftRecord : Type := mkNftRecord {
  nonce : Z;
  claimed_amount : spec_float;
  total_amount : spec_float;
  last_claimed_at : option Legacy.Date
}.

Record ClaimRecord : Type := mkClaimRecord {
  claim_claimed_amount : spec_float;
  bnb_chain_wallet_address : JSString
}.

Section Client.
Context `{Platform}.

Definition getConfigPda (program_id : PublicKey) : result (PublicKey * Z) :=
  findProgramAddressSync [Buffer_from "config"] program_id.

Definition getNftPda (nft_public_key program_id : PublicKey)
  : result (PublicKey * Z) :=
  findProgramAddressSync [Buffer_from "nft"; toBuffer nft_public_key] program_id.

(** The nonce is 1 or one more than a 32-bit integer read from an account:
    an integer, held exactly by the number passed on. *)
Definition getClaimPda (stale : Buffer) (nft_public_key : PublicKey)
    (nonce : Z) (program_id : PublicKey) : result (PublicKey * Z) :=
  let nonce_buf := allocUnsafe stale 4 in
  nonce_buf <- writeInt32LE nonce_buf (Number_ofZ nonce) 0 ;;
  findProgramAddressSync
    [Buffer_from "claim"; toBuffer nft_public_key; nonce_buf] program_id.

Definition parseNft (nft_pda : PublicKey) (connection : Connection)
  : result (option NftRecord) :=
  match connection nft_pda with
  | None => Ok None
  | Some d =>
      timestamp <- readBigInt64LE d 20 ;;
      nonce <- readInt32LE d 0 ;;
      claimed_amount <- readDoubleLE d 4 ;;
      total_amount <- readDoubleLE d 12 ;;
      Ok (Some (mkNftRecord nonce claimed_amount total_amount
                  (if timestamp =? 0 then None
                   else Some (Legacy.Date_of_seconds timestamp))))
  end.

Definition parseClaim (claim_pda : PublicKey) (connection : Connection)
  : result (option ClaimRecord) :=
  match connection claim_pda with
  | None => Ok None
  | Some d =>
      claimed_amount <- readDoubleLE d 0 ;;
      Ok (Some (mkClaimRecord claimed_amount
                  (utf16 "0x" ++ toString_utf8 d 8)))
  end.

Definition registerNftInstruction (program_id user_key nft_public_key : PublicKey)
  : result TransactionInstruction :=
  '(nft_pda, _) <- getNftPda nft_public_key program_id ;;
  '(config_pda, _) <- getConfigPda program_id ;;
  Ok {| ix_data := Uint8Array_of [1];
        keys :=
          [ mkAccountMeta user_key true true;
            mkAccountMeta nft_public_key false false;
            mkAccountMeta nft_pda false true;
            mkAccountMeta config_pda false false;
            mkAccountMeta SystemProgram_programId false false ];
        programId := program_id |}.

Definition claimInstruction (stale : Buffer)
    (program_id user_key token_key nft_public_key : PublicKey)
    (bnb_wallet : JSString) (connection : Connection)
  : result TransactionInstruction :=
  '(nft_pda, _) <- getNftPda nft_public_key program_id ;;
  nft <- parseNft nft_pda connection ;;
  '(claim_pda, _) <-
    getClaimPda stale nft_public_key
      (match nft with None => 1 | Some record => nonce record + 1 end)
      program_id ;;
  '(config_pda, _) <- getConfigPda program_id ;;
  Ok {| ix_data :=
          Uint8Array_of
            ([2] ++ spread (TextEncoder_encode (string_slice bnb_wallet 2)));
        keys :=
          [ mkAccountMeta user_key true true;
            mkAccountMeta nft_public_key false false;
            mkAccountMeta token_key false false;
            mkAccountMeta nft_pda false true;
            mkAccountMeta claim_pda false true;
            mkAccountMeta config_pda false false;
            mkAccountMeta SystemProgram_programId false false ];
        programId := program_id |}.
End Client.
End LegacyClaims.

(* ===================================================================== *)
(** ** A sample platform and sample data

    A small executable instance of the collaborators, on which the model
    runs and the hypotheses of the theorems are seen to hold. *)

Module Sample.

Definition hash (b : Buffer) : Buffer :=
  le_split 32 (fold_left (fun acc x => acc * 257 + byte.unsigned x + 1) b 7).

Definition onCurve (h : Buffer) : bool := le_combine h mod 3 =? 0.

#[export] Instance platform : Platform := {|
  addressHash := hash;
  isOnCurve := onCurve;
  domainSuffix := Buffer_from "ProgramDerivedAddress";
  bs58_encode := string_of_list_byte;
  bs58_decode := fun s => Some (list_byte_of_string s);
  RNG := Z;
  randomBytes := fun n g => (le_split n (g * 2654435761 + 12345), g + 1)
|}.

(** The initial state of the random source. *)
Definition rng0 : @RNG platform := 0.

Definition key (n : Z) : PublicKey := mkPublicKey (le_split 32 n).

Definition payer : Keypair := mkKeypair (key 1000) (le_split 64 77).

Definition noAccounts : Connection := fun _ => None.

Definition mints (n : nat) : list PublicKey :=
  map (fun k => key (Z.of_nat k)) (seq 1 n).

Definition config : ConfigArgs :=
  mkConfigArgs (Number_ofZ 1711447200) (Number_ofZ 3282800) (Number_ofZ 820700)
    (Number_ofZ 25920000) (Number_ofZ 3600).

Definition extremeConfig : ConfigArgs :=
  mkConfigArgs (Number_ofZ 0) (Number_ofZ (2 ^ 31 - 1)) (Number_ofZ (- 2 ^ 31))
    (Number_ofZ (-1)) (Number_ofZ 1).

(** The numbers 0.5, 1.5 and 1711447200.5, and a configuration whose first
    field has a fraction. *)
Definition half : number := S754_finite false 4503599627370496 (-53).

Definition oneAndHalf : number := S754_finite false 6755399441055744 (-52).

Definition fractionalSeconds : number := S754_finite false 7178329838845952 (-22).

Definition fractionalConfig : ConfigArgs :=
  mkConfigArgs fractionalSeconds (Number_ofZ 3282800) (Number_ofZ 820700)
    (Number_ofZ 25920000) (Number_ofZ 3600).

(** A token record account: state 1, no rule set revision, a delegate
    (bytes 5 .. 36) and the role byte 3. *)
Definition delegateBytes : Buffer := le_split 32 123456789.

Definition tokenRecordData : Buffer :=
  Uint8Array_of [11; 255; 1; 0; 1] ++ delegateBytes ++ Uint8Array_of [0; 3; 0; 0].

(** A legacy configuration account laid out as the legacy decoder reads
    it, padded to the size of the current configuration account. *)
Definition legacyConfigData : Buffer :=
  le_split 32 42 ++ le_split 8 5 ++ le_split 8 0 ++ le_split 4 0
    ++ le_split 4 300 ++ le_split 8 0 ++ le_split 20 7.

(** A cluster on which every account is a locked token record, one on which
    every account is an unlocked one, and an allocator that hands out
    zeroed memory. *)
Definition lockedAccounts : Connection := fun _ => Some tokenRecordData.

Definition unlockedAccounts : Connection :=
  fun _ => Some (Uint8Array_of [11; 255; 0; 0; 0]).

Definition zeroed : nat -> Buffer := fun _ => [].
End Sample.

(* ===================================================================== *)
(** ** Vocabulary of the statements *)

(** The integers a 32-bit field holds. *)
Definition isInt32 (v : Z) : bool :=
  negb ((v <? - 2 ^ 31) || (2 ^ 31 - 1 <? v)).

(** The numbers [writeInt32LE] accepts: those neither above [2^31 - 1] nor
    below [-2^31]. *)
Definition inInt32Range (x : number) : bool :=
  negb (Number_gt x (2 ^ 31 - 1) || Number_lt x (- 2 ^ 31)).

(** Zero of either sign, a negative number or minus infinity. *)
Definition nonpositive (x : number) : Prop :=
  match x with
  | S754_zero _ | S754_infinity true | S754_finite true _ _ => True
  | _ => False
  end.

(** The double with mantissa of 53 bits that holds the integer [v] or its
    opposite ([0 < v < 2^53]). *)
Definition canon (s : bool) (v : Z) : number :=
  S754_finite s (Z.to_pos (v * 2 ^ (52 - Z.log2 v))) (Z.log2 v - 52).

(** [m * 2^e] is the integer [v]. *)
Definition represents (m e v : Z) : Prop :=
  if 0 <=? e then m * 2 ^ e = v else m = v * 2 ^ (- e).

(** Unicode scalar values: the code points that are not surrogates. *)
Definition isScalar (c : Z) : Prop :=
  0 <= c < 0x110000 /\ ~ (0xD800 <= c <= 0xDFFF).

(** ASCII code units and bytes. *)
Definition isAscii (u : Z) : Prop := 0 <= u < 0x80.

(** The byte at an index, as an unsigned number (0 outside the buffer). *)
Definition byteAt (buf : Buffer) (i : Z) : Z :=
  byte.unsigned (nth (Z.to_nat i) buf Byte.x00).

(** Where the token record decoder looks for the delegate flag: one byte
    after the revision flag when that flag is zero, nine bytes after it
    otherwise. *)
Definition delegateOffset (buf : Buffer) : Z :=
  3 + (if byteAt buf 3 =? 0 then 1 else 9).

(** The number of bytes the token record decoder needs, which depends on
    the two flags. *)
Definition tokenRecordSize (buf : Buffer) : Z :=
  if byteAt buf (delegateOffset buf) =? 0
  then delegateOffset buf + 1
  else delegateOffset buf + 35.

(** The 32-bit integer a decoder reads at an offset. *)
Definition int32At (buf : Buffer) (offset : Z) : Z :=
  toSigned 32 (le_combine (bytesAt buf offset 4)).

(** The records the decoders return on a buffer that is long enough. *)
Definition configRecordOf (buf : Buffer) : ConfigRecord :=
  mkConfigRecord (mkPublicKey (slice buf 0 32)) (mkPublicKey (slice buf 32 64))
    (int32At buf 64) (int32At buf 68) (int32At buf 72) (int32At buf 76)
    (int32At buf 80).

Definition nftRecordOf (buf : Buffer) : NftRecord :=
  mkNftRecord (int32At buf 0) (int32At buf 4) (int32At buf 8).

Definition claimRecordOf (buf : Buffer) : ClaimRecord :=
  mkClaimRecord (int32At buf 0) (int32At buf 4) (mkPublicKey (slice buf 8 40))
    (utf16 "0x" ++ toString_utf8 buf 40).

Definition tokenRecordOf `{Platform} (buf : Buffer) : TokenRecord :=
  let offset := delegateOffset buf in
  {| state := toSigned 8 (byteAt buf 2);
     delegate :=
       if byteAt buf offset =? 0 then None
       else Some (bs58_encode (slice buf (offset + 1) (offset + 33)));
     delegateRole :=
       if byteAt buf offset =? 0 then None
       else Some (toSigned 8 (byteAt buf (offset + 34))) |}.

Definition legacyConfigRecordOf `{Platform} (buf : Buffer) : Legacy.ConfigRecord :=
  Legacy.mkConfigRecord
    (bs58_encode (slice buf 0 32))
    (Legacy.Date_of_seconds (toSigned 64 (le_combine (bytesAt buf 32 8))))
    (decodeFloat 11 52 (le_combine (bytesAt buf 40 8)))
    (decodeFloat 8 23 (le_combine (bytesAt buf 48 4)))
    (int32At buf 52).

(** The payload of the set-config instruction: the opcode, then the
    integer parts of the five fields as 32-bit little-endian integers. *)
Definition configPayload (config : ConfigArgs) : Buffer :=
  le_split 1 0 ++ le_split 4 (truncate (args_claimable_from config))
    ++ le_split 4 (truncate (args_accumulated_reward config))
    ++ le_split 4 (truncate (args_initial_reward config))
    ++ le_split 4 (truncate (args_total_accumulation_period config))
    ++ le_split 4 (truncate (args_generation_duration config)).

Definition configInRange (config : ConfigArgs) : bool :=
  inInt32Range (args_claimable_from config)
  && inInt32Range (args_accumulated_reward config)
  && inInt32Range (args_initial_reward config)
  && inInt32Range (args_total_accumulation_period config)
  && inInt32Range (args_generation_duration config).

(** The errors by which a decoder rejects an account of the wrong shape. *)
Definition LayoutError (e : exn) : Prop :=
  e = RangeError \/ e = InvalidPublicKeyInput.

(** Modelled from the spec: the outcome section 4.1 prescribes for
    [derive], as a relation (the library function is not part of the
    sources): [bump] is the first bump, counting down from 255, whose hash is
    off the curve, and [address] is that hash. *)
Definition Derived `{Platform} (seeds : list Buffer) (programId : PublicKey)
    (address : PublicKey) (bump : Z) : Prop :=
  0 <= bump <= 255 /\
  toBuffer address = addressHash (derivationPreimage seeds bump programId) /\
  isOnCurve (toBuffer address) = false /\
  forall b, bump < b <= 255 ->
    isOnCurve (addressHash (derivationPreimage seeds b programId)) = true.

(** The first byte of the payload of an instruction. *)
Definition opcode (ix : TransactionInstruction) : option Z :=
  option_map byte.unsigned (hd_error (ix_data ix)).

(** The address in the [n]-th account slot of an instruction. *)
Definition account (ix : TransactionInstruction) (n : nat) : option PublicKey :=
  option_map pubkey (nth_error (keys ix) n).

(** The line [concurrentClaim] writes to the console for a chunk. *)
Definition claimingLine `{Platform} (chunk : list PublicKey)
  : string * list string :=
  ("Claiming"%string, map PublicKey_toString chunk).

(** One composite claim per chunk, in order, for the driver's wallet
    address and without lookup tables, each drawing its seed from the random
    source left by the previous one. *)
Fixpoint claimEach `{Platform} (connection : Connection) (wallet : Keypair)
    (chunks : list (list PublicKey)) (g : RNG)
  : list (result SendRequest) * RNG :=
  match chunks with
  | [] => ([], g)
  | chunk :: rest =>
      let '(promise, g') :=
        claimReward connection wallet chunk bnbWallet None g in
      let '(others, g'') := claimEach connection wallet rest g' in
      (promise :: others, g'')
  end.

(** The composite claim of the driver for the mints of [chunk]: the wallet
    signs and pays, no lookup table is passed, and the message holds the
    create-claim instruction built for some seed, then the register
    instruction built for each mint of the chunk (it names that mint), then
    the execute-claim instruction built for each mint of the chunk and that
    same seed: the [k]-th on the stake record the [k]-th register
    instruction names, and all on the claim address of the create-claim
    instruction. *)
Definition claimsChunk `{Platform} (payer : Keypair) (chunk : list PublicKey)
    (request : SendRequest) : Prop :=
  signers request = [payer] /\
  payerKey (msg request) = publicKey payer /\
  luts request = None /\
  exists claim_seed create registers claims claimAddress,
    instructions (msg request) = [create] ++ registers ++ claims /\
    createClaimInstruction (publicKey payer) bnbWallet claim_seed = Ok create /\
    opcode create = Some 3 /\
    account create 1 = Some claimAddress /\
    Forall2
      (fun mint ix =>
         registerNftInstruction (publicKey payer) mint = Ok ix /\
         opcode ix = Some 2 /\ account ix 1 = Some mint)
      chunk registers /\
    Forall2
      (fun mint ix =>
         claimInstruction (publicKey payer) mint claim_seed = Ok ix /\
         opcode ix = Some 4 /\ account ix 4 = Some claimAddress)
      chunk claims /\
    Forall2
      (fun register ix =>
         exists record,
           account register 4 = Some record /\ account ix 3 = Some record)
      registers claims.

(** What a run of the loop of [concurrentClaim] shows when it ends: the
    number of mints in each chunk it logged, and the number of claims it
    started. *)
Definition chunkSizes `{Platform} (run : option ClaimLoop) : option (list nat) :=
  option_map (fun st => map (fun line => length (snd line)) (console st)) run.

Definition claimsStarted `{Platform} (run : option ClaimLoop) : option nat :=
  option_map (fun st => length (promises st)) run.

(** Every account an instruction marks as signer is [key]. *)
Definition signedBy (key : PublicKey) (ix : TransactionInstruction) : Prop :=
  Forall (fun meta => isSigner meta = true -> pubkey meta = key) (keys ix).

(** A request signed by [payer] alone, who pays the fee and is the only
    signer its instructions ask for. *)
Definition signedByPayer (payer : Keypair) (request : SendRequest) : Prop :=
  signers request = [payer] /\
  payerKey (msg request) = publicKey payer /\
  Forall (signedBy (publicKey payer)) (instructions (msg request)).

(** The payload of an instruction as numbers. *)
Definition payload (ix : TransactionInstruction) : list Z :=
  map byte.unsigned (ix_data ix).

(* ===================================================================== *)
(** * Properties *)

(** ** Numbers: exact sums of integers, and signs *)


Lemma digits2_pos_size (p : positive) : digits2_pos p = Pos.size p.
Proof. induction p; cbn; congruence. Qed.

Lemma digits2_log2 (p : positive) : Zpos (digits2_pos p) = Z.log2 (Zpos p) + 1.
Proof.
  rewrite digits2_pos_size.
  destruct p; cbn [Z.log2 Pos.size]; lia.
Qed.

Lemma iter_xO (p k : positive) : Zpos (Pos.iter xO p k) = Zpos p * 2 ^ Zpos k.
Proof.
  induction k as [| k IH] using Pos.peano_ind.
  - cbn [Pos.iter]; lia.
  - rewrite Pos.iter_succ, Pos2Z.inj_succ, Z.pow_succ_r by lia.
    rewrite Pos2Z.inj_xO, IH; lia.
Qed.

Lemma iter_pos_iter {A : Type} (f : A -> A) (n : positive) (x : A) :
  iter_pos f n x = Pos.iter f x n.
Proof.
  revert x; induction n as [n IH | n IH |]; intros x; cbn [iter_pos Pos.iter].
  - rewrite !IH, <- !Pos.iter_swap; reflexivity.
  - rewrite !IH; reflexivity.
  - reflexivity.
Qed.

Lemma shr_exact (q k : positive) :
  iter_pos shr_1 k (Build_shr_record (Zpos (Pos.iter xO q k)) false false)
  = Build_shr_record (Zpos q) false false.
Proof.
  rewrite iter_pos_iter.
  revert q; induction k as [| k IH] using Pos.peano_ind; intros q.
  - reflexivity.
  - rewrite Pos.iter_succ_r.
    rewrite Pos.iter_succ; cbn [shr_1 orb].
    rewrite <- (IH q); reflexivity.
Qed.

Lemma fexp_eq (d : Z) : -1021 <= d -> fexp 53 1024 d = d - 53.
Proof. intros Hd; unfold fexp, emin; lia. Qed.

Lemma log2_canon (v : Z) :
  0 < v < 2 ^ 53 -> Z.log2 (v * 2 ^ (52 - Z.log2 v)) = 52.
Proof.
  intros Hv.
  assert (L : Z.log2 v < 53) by (apply Z.log2_lt_pow2; lia).
  pose proof (Z.log2_nonneg v).
  rewrite Z.log2_mul_pow2 by lia; lia.
Qed.

(** No shift is needed when the mantissa has 53 digits. *)
Lemma binary_round_aux_canon (s : bool) (m : positive) (e : Z) :
  Z.log2 (Zpos m) = 52 -> -1074 <= e <= 971 ->
  binary_round_aux 53 1024 s (Zpos m) e loc_Exact = S754_finite s m e.
Proof.
  intros Hm He.
  unfold binary_round_aux, shr_fexp.
  cbn [Zdigits2 shr_record_of_loc].
  rewrite digits2_log2, Hm, fexp_eq by lia.
  replace (52 + 1 + e - 53 - e) with 0 by lia.
  cbn [shr shr_m loc_of_shr_record round_nearest_even Zdigits2].
  rewrite digits2_log2, Hm, fexp_eq by lia.
  replace (52 + 1 + e - 53 - e) with 0 by lia.
  cbn [shr shr_m].
  replace (e <=? 1024 - 53) with true by lia.
  reflexivity.
Qed.

Lemma binary_round_exact (s : bool) (p : positive) (e v : Z) :
  0 < v < 2 ^ 53 ->
  (if 0 <=? e then Zpos p * 2 ^ e = v else Zpos p = v * 2 ^ (- e)) ->
  binary_round 53 1024 s p e = canon s v.
Proof.
  intros Hv Hp.
  assert (L : Z.log2 v < 53) by (apply Z.log2_lt_pow2; lia).
  pose proof (Z.log2_nonneg v) as L0.
  assert (D : Z.log2 (Zpos p) + e = Z.log2 v).
  { destruct (0 <=? e) eqn:E.
    - rewrite <- Hp, Z.log2_mul_pow2 by lia; lia.
    - rewrite Hp, Z.log2_mul_pow2 by lia; lia. }
  pose proof (log2_canon v Hv) as C.
  assert (P : 0 < v * 2 ^ (52 - Z.log2 v)) by (apply Z.mul_pos_pos; [lia | apply Z.pow_pos_nonneg; lia]).
  unfold binary_round.
  rewrite digits2_log2, fexp_eq by lia.
  replace (Z.log2 (Zpos p) + 1 + e - 53) with (Z.log2 v - 52) by lia.
  set (E := Z.log2 v - 52).
  assert (HE : E = Z.log2 v - 52) by reflexivity.
  unfold shl_align.
  destruct (E - e) as [| k | k] eqn:K.
  - (* no shift: E = e *)
    assert (e = E) by lia; subst e.
    assert (Q : Zpos p = v * 2 ^ (52 - Z.log2 v)).
    { destruct (0 <=? E) eqn:E0.
      - assert (E = 0) by lia.
        replace (52 - Z.log2 v) with 0 by lia.
        rewrite H in Hp; lia.
      - rewrite Hp; f_equal; f_equal; lia. }
    rewrite binary_round_aux_canon by (rewrite ?Q; lia).
    unfold canon; fold E; rewrite <- Q; reflexivity.
  - (* shift right by k bits *)
    assert (Ee : e = E - Zpos k) by lia.
    assert (e < 0) by lia.
    replace (0 <=? e) with false in Hp by lia.
    set (q := Z.to_pos (v * 2 ^ (52 - Z.log2 v))).
    assert (Q : p = Pos.iter xO q k).
    { apply Pos2Z.inj; rewrite iter_xO; subst q.
      rewrite Z2Pos.id by lia.
      rewrite Hp, <- Z.mul_assoc, <- Z.pow_add_r by lia.
      f_equal; f_equal; lia. }
    unfold binary_round_aux at 1, shr_fexp at 1.
    cbn [Zdigits2 shr_record_of_loc].
    rewrite digits2_log2, fexp_eq by lia.
    replace (Z.log2 (Zpos p) + 1 + e - 53 - e) with (Zpos k) by lia.
    cbn [shr]; rewrite Q, shr_exact.
    cbn [shr_m loc_of_shr_record round_nearest_even].
    assert (Lq : Z.log2 (Zpos q) = 52) by (subst q; rewrite Z2Pos.id by lia; exact C).
    unfold shr_fexp; cbn [Zdigits2 shr_record_of_loc].
    rewrite digits2_log2, Lq, fexp_eq by lia.
    replace (52 + 1 + (e + Zpos k) - 53 - (e + Zpos k)) with 0 by lia.
    cbn [shr shr_m].
    replace (e + Zpos k <=? 1024 - 53) with true by lia.
    unfold canon; fold E; fold q; f_equal; lia.
  - (* shift left by k bits *)
    assert (Ee : e = E + Zpos k) by lia.
    assert (Q : Zpos (Pos.iter xO p k) = v * 2 ^ (52 - Z.log2 v)).
    { rewrite iter_xO.
      destruct (0 <=? e) eqn:E0.
      - replace (Zpos k) with (e + (52 - Z.log2 v)) by lia.
        rewrite Z.pow_add_r, Z.mul_assoc, Hp by lia; reflexivity.
      - rewrite Hp, <- Z.mul_assoc, <- Z.pow_add_r by lia.
        f_equal; f_equal; lia. }
    rewrite binary_round_aux_canon by (rewrite ?Q; lia).
    unfold canon; fold E; rewrite <- Q; reflexivity.
Qed.

Lemma represents_align (m e v e' : Z) :
  represents m e v -> e' <= e -> represents (m * 2 ^ (e - e')) e' v.
Proof.
  unfold represents; intros R He.
  destruct (0 <=? e) eqn:E, (0 <=? e') eqn:E'; try lia.
  - rewrite <- R, <- Z.mul_assoc, <- Z.pow_add_r by lia; f_equal; f_equal; lia.
  - rewrite <- R, <- Z.mul_assoc, <- Z.pow_add_r by lia; f_equal; f_equal; lia.
  - rewrite R, <- Z.mul_assoc, <- Z.pow_add_r by lia; f_equal; f_equal; lia.
Qed.

Lemma represents_add (m1 m2 e v1 v2 : Z) :
  represents m1 e v1 -> represents m2 e v2 -> represents (m1 + m2) e (v1 + v2).
Proof. unfold represents; destruct (0 <=? e); intros; subst; lia. Qed.

Lemma represents_pos (m e v : Z) : represents m e v -> 0 < m -> 0 < v.
Proof.
  unfold represents; destruct (0 <=? e) eqn:E; intros R Hm.
  - subst v; apply Z.mul_pos_pos; [lia | apply Z.pow_pos_nonneg; lia].
  - assert (0 < 2 ^ (- e)) by (apply Z.pow_pos_nonneg; lia). nia.
Qed.

Lemma Number_integer_finite (s : bool) (m : positive) (e a : Z) :
  Number_integer (S754_finite s m e) = Some a <->
  exists v, represents (Zpos m) e v /\ a = cond_Zopp s v.
Proof.
  unfold Number_integer, represents.
  destruct (0 <=? e) eqn:E.
  - split.
    + intros [= <-]; eexists; split; reflexivity.
    + intros (v & <- & ->); reflexivity.
  - assert (P : 0 < 2 ^ (- e)) by (apply Z.pow_pos_nonneg; lia).
    destruct (Zpos m mod 2 ^ (- e) =? 0) eqn:M.
    + apply Z.eqb_eq in M.
      split.
      * intros [= <-]; eexists; split; [| reflexivity].
        rewrite Z.mul_comm; apply Z.div_exact; lia.
      * intros (v & R & ->); rewrite R, Z.div_mul by lia; reflexivity.
    + apply Z.eqb_neq in M.
      split; [discriminate |].
      intros (v & R & _); exfalso; apply M.
      rewrite R; apply Z.mod_mul; lia.
Qed.

Lemma Number_integer_canon (s : bool) (v : Z) :
  0 < v < 2 ^ 53 -> Number_integer (canon s v) = Some (cond_Zopp s v).
Proof.
  intros Hv; unfold canon.
  assert (L : Z.log2 v < 53) by (apply Z.log2_lt_pow2; lia).
  pose proof (Z.log2_nonneg v) as L0.
  assert (P : 0 < v * 2 ^ (52 - Z.log2 v))
    by (apply Z.mul_pos_pos; [lia | apply Z.pow_pos_nonneg; lia]).
  apply Number_integer_finite; exists v; split; [| reflexivity].
  rewrite Z2Pos.id by lia; unfold represents.
  destruct (0 <=? Z.log2 v - 52) eqn:E.
  - replace (Z.log2 v - 52) with 0 by lia.
    replace (52 - Z.log2 v) with 0 by lia; lia.
  - f_equal; f_equal; lia.
Qed.

Lemma Number_ofZ_canon (z : Z) :
  0 < Z.abs z < 2 ^ 53 -> Number_ofZ z = canon (z <? 0) (Z.abs z).
Proof.
  intros Hz; unfold Number_ofZ, binary_normalize.
  destruct z as [| p | p]; [lia | |].
  - apply binary_round_exact; [exact Hz |].
    change (Zpos p * 2 ^ 0 = Zpos p); lia.
  - apply binary_round_exact; [exact Hz |].
    change (Zpos p * 2 ^ 0 = Zpos p); lia.
Qed.

Lemma Number_integer_ofZ (z : Z) :
  Z.abs z < 2 ^ 53 -> Number_integer (Number_ofZ z) = Some z.
Proof.
  intros Hz; destruct (Z.eq_dec z 0) as [-> | N]; [reflexivity |].
  rewrite Number_ofZ_canon, Number_integer_canon by lia.
  f_equal; unfold cond_Zopp; destruct (z <? 0) eqn:E; lia.
Qed.

Lemma shl_align_fst (m : positive) (e e' : Z) :
  e' <= e -> Zpos (fst (shl_align m e e')) = Zpos m * 2 ^ (e - e').
Proof.
  intros He; unfold shl_align.
  destruct (e' - e) as [| k | k] eqn:K; cbn [fst].
  - replace (e - e') with 0 by lia; lia.
  - lia.
  - rewrite iter_xO; f_equal; f_equal; lia.
Qed.

(** Adding two non-negative integers whose sum is below [2^53] is exact. *)
Lemma Number_add_integer (x y : number) (a b : Z) :
  Number_integer x = Some a -> Number_integer y = Some b ->
  0 <= a -> 0 <= b -> a + b < 2 ^ 53 ->
  Number_integer (Number_add x y) = Some (a + b).
Proof.
  intros Hx Hy Ha Hb Hs.
  destruct x as [sx | sx | | sx mx ex]; try discriminate Hx;
    destruct y as [sy | sy | | sy my ey]; try discriminate Hy.
  - injection Hx as <-; injection Hy as <-.
    destruct sx, sy; reflexivity.
  - injection Hx as <-; exact Hy.
  - injection Hy as <-; rewrite Z.add_0_r; exact Hx.
  - apply Number_integer_finite in Hx, Hy.
    destruct Hx as (vx & Rx & ->), Hy as (vy & Ry & ->).
    pose proof (represents_pos _ _ _ Rx eq_refl) as Px.
    pose proof (represents_pos _ _ _ Ry eq_refl) as Py.
    destruct sx; [cbn in Ha; lia |].
    destruct sy; [cbn in Hb; lia |].
    cbn [cond_Zopp] in *.
    unfold Number_add, SFadd; cbv zeta.
    set (ez := Z.min ex ey).
    cbn [cond_Zopp].
    pose proof (represents_add _ _ _ _ _
                  (represents_align _ _ _ ez Rx ltac:(lia))
                  (represents_align _ _ _ ez Ry ltac:(lia))) as R.
    rewrite <- !shl_align_fst in R by lia.
    cbn [Z.add binary_normalize].
    change (Zpos (fst (shl_align mx ex ez)) + Zpos (fst (shl_align my ey ez)))
      with (Zpos (fst (shl_align mx ex ez) + fst (shl_align my ey ez))) in R.
    rewrite (binary_round_exact false _ ez (vx + vy)) by (lia || exact R).
    apply (Number_integer_canon false); lia.
Qed.

Lemma Number_compare_integer (x : number) (a z : Z) :
  Number_integer x = Some a -> Number_compare x z = Some (a ?= z).
Proof.
  destruct x as [s | s | | s m e]; try discriminate.
  - intros [= <-]; reflexivity.
  - intros Hx; apply Number_integer_finite in Hx.
    destruct Hx as (v & R & ->); unfold Number_compare, represents in *.
    destruct (0 <=? e) eqn:E.
    + f_equal; f_equal; destruct s; cbn [cond_Zopp]; lia.
    + assert (P : 0 < 2 ^ (- e)) by (apply Z.pow_pos_nonneg; lia).
      f_equal; rewrite R.
      replace (cond_Zopp s (v * 2 ^ (- e))) with (cond_Zopp s v * 2 ^ (- e))
        by (destruct s; cbn [cond_Zopp]; lia).
      symmetry; apply Zmult_compare_compat_r; lia.
Qed.

Lemma truncate_integer (x : number) (a : Z) :
  Number_integer x = Some a -> truncate x = a.
Proof.
  destruct x as [s | s | | s m e]; try discriminate.
  - intros [= <-]; reflexivity.
  - unfold Number_integer, truncate.
    destruct (0 <=? e); [congruence |].
    destruct (_ =? 0); congruence.
Qed.

Lemma Number_le_0 (x : number) : Number_le x 0 = true <-> nonpositive x.
Proof.
  unfold Number_le, Number_compare, nonpositive.
  destruct x as [s | [|] | | [|] m e]; cbn [cond_Zopp]; try tauto;
    try (split; [discriminate | contradiction]).
  - destruct (0 <=? e) eqn:E.
    + assert (0 < Zpos m * 2 ^ e) by (apply Z.mul_pos_pos; [lia | apply Z.pow_pos_nonneg; lia]).
      replace (- Zpos m * 2 ^ e ?= 0) with Lt by (symmetry; apply Z.compare_lt_iff; lia).
      tauto.
    + cbn; tauto.
  - destruct (0 <=? e) eqn:E.
    + assert (0 < Zpos m * 2 ^ e) by (apply Z.mul_pos_pos; [lia | apply Z.pow_pos_nonneg; lia]).
      replace (Zpos m * 2 ^ e ?= 0) with Gt by (symmetry; apply Z.compare_gt_iff; lia).
      split; [discriminate | contradiction].
    + cbn; split; [discriminate | contradiction].
Qed.

Lemma nonpositive_lt (x : number) (n : Z) :
  nonpositive x -> 0 < n -> Number_lt x n = true.
Proof.
  unfold Number_lt, Number_compare, nonpositive.
  destruct x as [s | [|] | | [|] m e]; try contradiction; intros _ Hn.
  - replace (0 ?= n) with Lt by (symmetry; apply Z.compare_lt_iff; lia); reflexivity.
  - reflexivity.
  - cbn [cond_Zopp]; destruct (0 <=? e) eqn:E.
    + assert (0 < Zpos m * 2 ^ e) by (apply Z.mul_pos_pos; [lia | apply Z.pow_pos_nonneg; lia]).
      replace (- Zpos m * 2 ^ e ?= n) with Lt by (symmetry; apply Z.compare_lt_iff; lia).
      reflexivity.
    + assert (0 < n * 2 ^ (- e)) by (apply Z.mul_pos_pos; [lia | apply Z.pow_pos_nonneg; lia]).
      replace (- Zpos m ?= n * 2 ^ (- e)) with Lt by (symmetry; apply Z.compare_lt_iff; lia).
      reflexivity.
Qed.

Lemma shr_1_nonneg (r : shr_record) : 0 <= shr_m r -> 0 <= shr_m (shr_1 r).
Proof.
  destruct r as [m r s]; cbn [shr_m]; intros Hm.
  destruct m as [| [p | p |] | p]; cbn; lia.
Qed.

Lemma shr_nonneg (r : shr_record) (e n : Z) :
  0 <= shr_m r -> 0 <= shr_m (fst (shr r e n)).
Proof.
  intros Hm; unfold shr; destruct n as [| k | k]; cbn [fst]; try exact Hm.
  rewrite iter_pos_iter.
  apply Pos.iter_invariant; [| exact Hm].
  intros x; apply shr_1_nonneg.
Qed.

Lemma round_nearest_even_nonneg (m : Z) (l : location) :
  0 <= m -> 0 <= round_nearest_even m l.
Proof.
  intros Hm; unfold round_nearest_even.
  destruct l as [| [| |]]; try destruct (Z.even m); lia.
Qed.

(** Rounding keeps the sign. *)
Lemma binary_round_sign (s : bool) (p : positive) (e : Z) :
  match binary_round 53 1024 s p e with
  | S754_zero s' | S754_infinity s' | S754_finite s' _ _ => s' = s
  | S754_nan => False
  end.
Proof.
  unfold binary_round.
  destruct (shl_align p e _) as [mz ez].
  unfold binary_round_aux.
  destruct (shr_fexp 53 1024 (Zpos mz) ez loc_Exact) as [mrs' e'] eqn:S1.
  destruct (shr_fexp 53 1024 _ e' loc_Exact) as [mrs'' e''] eqn:S2.
  assert (N1 : 0 <= shr_m mrs').
  { unfold shr_fexp in S1.
    pose proof (shr_nonneg (shr_record_of_loc (Zpos mz) loc_Exact) ez
                  (fexp 53 1024 (Zdigits2 (Zpos mz) + ez) - ez)) as N.
    rewrite S1 in N; apply N; cbn; lia. }
  assert (N2 : 0 <= shr_m mrs'').
  { unfold shr_fexp in S2.
    set (m := round_nearest_even (shr_m mrs') (loc_of_shr_record mrs')) in *.
    pose proof (shr_nonneg (shr_record_of_loc m loc_Exact) e'
                  (fexp 53 1024 (Zdigits2 m + e') - e')) as N.
    rewrite S2 in N; apply N; cbn [shr_record_of_loc shr_m].
    apply round_nearest_even_nonneg; exact N1. }
  destruct (shr_m mrs'') as [| m | m]; [reflexivity | | lia].
  destruct (e'' <=? 1024 - 53); reflexivity.
Qed.

Lemma nonpositive_add (x y : number) :
  nonpositive x -> nonpositive y -> nonpositive (Number_add x y).
Proof.
  destruct x as [sx | [|] | | [|] mx ex]; try contradiction;
    destruct y as [sy | [|] | | [|] my ey]; try contradiction; intros _ _;
    try exact I.
  - destruct sx, sy; exact I.
  - unfold Number_add, SFadd; cbv zeta; cbn [cond_Zopp Z.opp Z.add binary_normalize].
    pose proof (binary_round_sign true
                  (fst (shl_align mx ex (Z.min ex ey)) + fst (shl_align my ey (Z.min ex ey)))
                  (Z.min ex ey)) as S.
    destruct (binary_round 53 1024 true _ _); try contradiction; subst; exact I.
Qed.

(** ** Strings: the UTF-8 codec *)


Lemma pairs_ind (P : JSString -> Prop) :
  P [] -> (forall u, P [u]) ->
  (forall u v rest, P rest -> P (v :: rest) -> P (u :: v :: rest)) ->
  forall s, P s.
Proof.
  intros H0 H1 H2 s.
  assert (B : P s /\ forall u, P (u :: s)); [| exact (proj1 B)].
  induction s as [| v rest [IH1 IH2]]; split; auto.
Qed.

Lemma length_utf8_bytes (c : Z) :
  (1 <= length (utf8_bytes c) <= 4)%nat /\
  (c < 0x10000 -> (length (utf8_bytes c) <= 3)%nat) /\
  (0x10000 <= c -> length (utf8_bytes c) = 4%nat) /\
  (c < 0x80 -> utf8_bytes c = [c]).
Proof.
  unfold utf8_bytes.
  destruct (c <? 0x80) eqn:E1; [cbn; repeat split; lia |].
  destruct (c <? 0x800) eqn:E2; [cbn; repeat split; lia |].
  destruct (c <? 0x10000) eqn:E3; cbn; repeat split; lia.
Qed.

Lemma codePoints_cons (u : Z) (rest : JSString) :
  codePoints (u :: rest)
  = if isHighSurrogate u then
      match rest with
      | v :: rest' =>
          if isLowSurrogate v
          then (0x10000 + (u - 0xD800) * 0x400 + (v - 0xDC00)) :: codePoints rest'
          else 0xFFFD :: codePoints rest
      | [] => [0xFFFD]
      end
    else if isLowSurrogate u then 0xFFFD :: codePoints rest
    else u :: codePoints rest.
Proof. reflexivity. Qed.

(** Every code unit gives one to three bytes. *)
Lemma length_TextEncoder_encode (s : JSString) :
  forallb isCodeUnit s = true ->
  (length s <= length (TextEncoder_encode s) <= 3 * length s)%nat.
Proof.
  unfold TextEncoder_encode; rewrite length_map.
  induction s as [| u | u v rest IH1 IH2] using pairs_ind.
  - cbn; lia.
  - cbn [codePoints forallb]; rewrite andb_true_r; unfold isCodeUnit; intros Hu.
    destruct (isHighSurrogate u); [cbn; lia |].
    destruct (isLowSurrogate u) eqn:L; [cbn; lia |].
    cbn [flat_map length]; rewrite app_nil_r.
    destruct (length_utf8_bytes u) as (B1 & B2 & _).
    specialize (B2 ltac:(lia)); lia.
  - cbn [forallb]; intros Hs.
    apply andb_prop in Hs; destruct Hs as [Hu Hs].
    specialize (IH2 Hs); cbn [length] in IH2.
    cbn [forallb] in Hs; apply andb_prop in Hs; destruct Hs as [Hv Hs].
    specialize (IH1 Hs).
    unfold isCodeUnit in Hu, Hv.
    rewrite (codePoints_cons u); cbv beta iota.
    destruct (isHighSurrogate u) eqn:Hh.
    + destruct (isLowSurrogate v) eqn:Hl.
      * cbn [flat_map length]; rewrite length_app.
        destruct (length_utf8_bytes (65536 + (u - 55296) * 1024 + (v - 56320)))
          as (_ & _ & B4 & _).
        unfold isHighSurrogate, isLowSurrogate in Hh, Hl.
        rewrite B4 by lia; lia.
      * cbn [flat_map length]; rewrite length_app.
        change (length (utf8_bytes 65533)) with 3%nat. lia.
    + destruct (isLowSurrogate u) eqn:Hl.
      * cbn [flat_map length]; rewrite length_app.
        change (length (utf8_bytes 65533)) with 3%nat. lia.
      * cbn [flat_map length]; rewrite length_app.
        destruct (length_utf8_bytes u) as (B1 & B2 & _).
        specialize (B2 ltac:(lia)); lia.
Qed.

(** ASCII text is encoded unit by unit. *)
Lemma TextEncoder_encode_ascii (s : JSString) :
  Forall isAscii s ->
  TextEncoder_encode s = map byte.of_Z s.
Proof.
  unfold TextEncoder_encode; intros F; f_equal.
  induction F as [| u rest Hu F IH]; [reflexivity |].
  unfold isAscii in Hu; cbn [codePoints].
  unfold isHighSurrogate, isLowSurrogate.
  replace (0xD800 <=? u) with false by lia.
  replace (0xDC00 <=? u) with false by lia.
  cbn [andb flat_map].
  destruct (length_utf8_bytes u) as (_ & _ & _ & B); rewrite B by lia.
  cbn [app]; congruence.
Qed.

Lemma length_utf16_units (c : Z) : (1 <= length (utf16_units c) <= 2)%nat.
Proof. unfold utf16_units; destruct (c <? 0x10000); cbn; lia. Qed.

Lemma utf16_units_bmp (c : Z) : c < 0x10000 -> utf16_units c = [c].
Proof. intros Hc; unfold utf16_units; replace (c <? 0x10000) with true by lia; reflexivity. Qed.

Lemma utf8_lead_output (v : Z) :
  match utf8_lead v with
  | ([c], st) => needed st = O /\ c < 0x10000
  | ([], st) => needed st <> O
  | _ => False
  end.
Proof.
  unfold utf8_lead.
  destruct (v <=? 0x7F) eqn:E1; [cbn; split; [reflexivity | lia] |].
  destruct ((0xC2 <=? v) && (v <=? 0xDF)); [cbn; discriminate |].
  destruct ((0xE0 <=? v) && (v <=? 0xEF)); [cbn; discriminate |].
  destruct ((0xF0 <=? v) && (v <=? 0xF4)); [cbn; discriminate |].
  cbn; split; [reflexivity | lia].
Qed.

(** The decoder never produces more code units than it reads bytes (a
    sequence cut short counts for one). *)
Lemma length_utf8_decode (bytes : list Z) :
  forall st,
    (length (flat_map utf16_units (utf8_decode st bytes))
     <= length bytes + match needed st with O => 0 | S _ => 1 end)%nat.
Proof.
  induction bytes as [| v rest IH]; intros st.
  - cbn [utf8_decode]; destruct (needed st); cbn; lia.
  - cbn [utf8_decode length].
    destruct (utf8_step st v) as [out st'] eqn:S.
    rewrite flat_map_app, length_app.
    specialize (IH st').
    unfold utf8_step in S.
    destruct (needed st) as [| n] eqn:N.
    + pose proof (utf8_lead_output v) as L; rewrite S in L.
      destruct out as [| c [| ? ?]]; try contradiction.
      * destruct (needed st'); [contradiction | cbn [flat_map length]; lia].
      * destruct L as [L Hc]; rewrite L in IH.
        cbn [flat_map app]; rewrite app_nil_r, utf16_units_bmp by lia.
        cbn [length]; lia.
    + destruct ((lower st <=? v) && (v <=? upper st)).
      * destruct n as [| n']; injection S as <- <-.
        -- cbn [flat_map needed utf8_idle] in *; rewrite app_nil_r.
           pose proof (length_utf16_units (codePoint st * 64 + (v - 128))); lia.
        -- cbn [flat_map length needed] in *; lia.
      * pose proof (utf8_lead_output v) as L.
        destruct (utf8_lead v) as [out' st''].
        injection S as <- <-.
        destruct out' as [| c [| ? ?]]; try contradiction.
        -- destruct (needed st''); [contradiction |].
           change (flat_map utf16_units [0xFFFD]) with [0xFFFD].
           cbn [length] in *; lia.
        -- destruct L as [L Hc]; rewrite L in IH.
           change (flat_map utf16_units [0xFFFD; c])
             with ([0xFFFD] ++ flat_map utf16_units [c]).
           cbn [flat_map app]; rewrite app_nil_r, utf16_units_bmp by lia.
           cbn [length app]; lia.
Qed.

Lemma length_utf8Slice (bytes : Buffer) :
  (length (utf8Slice bytes) <= length bytes)%nat.
Proof.
  unfold utf8Slice.
  pose proof (length_utf8_decode (map byte.unsigned bytes) utf8_idle) as L.
  rewrite length_map in L; cbn in L; lia.
Qed.

Lemma utf8Slice_ascii (bytes : Buffer) :
  Forall (fun b => isAscii (byte.unsigned b)) bytes ->
  utf8Slice bytes = map byte.unsigned bytes.
Proof.
  unfold utf8Slice; intros F.
  induction F as [| b rest Hb F IH]; [reflexivity |].
  unfold isAscii in Hb; cbn [map utf8_decode].
  unfold utf8_step; cbn [needed utf8_idle]; unfold utf8_lead.
  replace (byte.unsigned b <=? 0x7F) with true by lia.
  cbn [app flat_map]; fold utf8_idle.
  rewrite utf16_units_bmp by lia.
  cbn [app]; congruence.
Qed.

Ltac decide_tests :=
  repeat match goal with
    | |- context [?a <=? ?b] =>
        first [ replace (a <=? b) with true by lia
              | replace (a <=? b) with false by lia ]
    | |- context [?a <? ?b] =>
        first [ replace (a <? b) with true by lia
              | replace (a <? b) with false by lia ]
    | |- context [?a =? ?b] =>
        first [ replace (a =? b) with true by lia
              | replace (a =? b) with false by lia ]
    end.

Lemma utf8_bytes_range (c : Z) :
  isScalar c -> Forall (fun b => 0 <= b < 256) (utf8_bytes c).
Proof.
  intros [R N]; unfold utf8_bytes.
  destruct (c <? 0x80) eqn:E1; [repeat constructor; lia |].
  destruct (c <? 0x800) eqn:E2;
    [repeat constructor; Z.div_mod_to_equations; lia |].
  destruct (c <? 0x10000) eqn:E3;
    repeat constructor; Z.div_mod_to_equations; lia.
Qed.

Lemma utf8_decode_bytes (c : Z) (rest : list Z) :
  isScalar c ->
  utf8_decode utf8_idle (utf8_bytes c ++ rest) = c :: utf8_decode utf8_idle rest.
Proof.
  intros [R N]; unfold utf8_bytes.
  destruct (c <? 0x80) eqn:E1.
  { cbn [app utf8_decode]; unfold utf8_step; cbn [needed utf8_idle].
    unfold utf8_lead; decide_tests; reflexivity. }
  pose proof (Z.div_mod c 64 ltac:(lia)) as Dc.
  pose proof (Z.mod_pos_bound c 64 ltac:(lia)) as Bc.
  destruct (c <? 0x800) eqn:E2.
  { set (q := c / 64) in *; set (r := c mod 64) in *; clearbody q r.
    cbn [app utf8_decode]; unfold utf8_step at 1; cbn [needed utf8_idle].
    unfold utf8_lead; decide_tests; cbn [andb app].
    unfold utf8_step at 1; cbn [needed lower upper codePoint].
    decide_tests; cbn [andb app]; cbv zeta.
    fold utf8_idle; f_equal; lia. }
  change (c / 4096) with (c / (64 * 64)).
  change (c / 262144) with (c / (64 * 64 * 64)).
  rewrite <- ?(Z.div_div c (64 * 64) 64), <- ?(Z.div_div c 64 64) by lia.
  set (q := c / 64) in *; set (r := c mod 64) in *; clearbody q r.
  pose proof (Z.div_mod q 64 ltac:(lia)) as Dq.
  pose proof (Z.mod_pos_bound q 64 ltac:(lia)) as Bq.
  set (q2 := q / 64) in *; set (r2 := q mod 64) in *; clearbody q2 r2.
  destruct (c <? 0x10000) eqn:E3.
  { cbn [app utf8_decode]; unfold utf8_step at 1; cbn [needed utf8_idle].
    unfold utf8_lead.
    replace (224 + q2 <=? 127) with false by lia.
    replace ((194 <=? 224 + q2) && (224 + q2 <=? 223)) with false by lia.
    replace ((224 <=? 224 + q2) && (224 + q2 <=? 239)) with true by lia.
    cbn [app].
    unfold utf8_step at 1; cbn [needed lower upper codePoint].
    assert (T : ((if 224 + q2 =? 224 then 160 else 128) <=? 128 + r2)
                && (128 + r2 <=? (if 224 + q2 =? 237 then 159 else 191)) = true).
    { destruct (224 + q2 =? 224) eqn:A, (224 + q2 =? 237) eqn:B; lia. }
    rewrite T; cbn [app]; cbv zeta.
    unfold utf8_step at 1; cbn [needed lower upper codePoint].
    decide_tests; cbn [andb app]; cbv zeta.
    fold utf8_idle; f_equal; lia. }
  pose proof (Z.div_mod q2 64 ltac:(lia)) as Dq2.
  pose proof (Z.mod_pos_bound q2 64 ltac:(lia)) as Bq2.
  set (q3 := q2 / 64) in *; set (r3 := q2 mod 64) in *; clearbody q3 r3.
  cbn [app utf8_decode]; unfold utf8_step at 1; cbn [needed utf8_idle].
  unfold utf8_lead.
  replace (240 + q3 <=? 127) with false by lia.
  replace ((194 <=? 240 + q3) && (240 + q3 <=? 223)) with false by lia.
  replace ((224 <=? 240 + q3) && (240 + q3 <=? 239)) with false by lia.
  replace ((240 <=? 240 + q3) && (240 + q3 <=? 244)) with true by lia.
  cbn [app].
  unfold utf8_step at 1; cbn [needed lower upper codePoint].
  assert (T : ((if 240 + q3 =? 240 then 144 else 128) <=? 128 + r3)
              && (128 + r3 <=? (if 240 + q3 =? 244 then 143 else 191)) = true).
  { destruct (240 + q3 =? 240) eqn:A, (240 + q3 =? 244) eqn:B; lia. }
  rewrite T; cbn [app]; cbv zeta.
  unfold utf8_step at 1; cbn [needed lower upper codePoint].
  decide_tests; cbn [andb app]; cbv zeta.
  unfold utf8_step at 1; cbn [needed lower upper codePoint].
  decide_tests; cbn [andb app]; cbv zeta.
  fold utf8_idle; f_equal; lia.
Qed.

Lemma utf16_units_pair (u v : Z) :
  isHighSurrogate u = true -> isLowSurrogate v = true ->
  let c := 0x10000 + (u - 0xD800) * 0x400 + (v - 0xDC00) in
  isScalar c /\ utf16_units c = [u; v].
Proof.
  intros Hu Hv c; unfold isHighSurrogate, isLowSurrogate in Hu, Hv.
  unfold isScalar, utf16_units.
  assert (Ru : 0xD800 <= u <= 0xDBFF) by lia.
  assert (Rv : 0xDC00 <= v <= 0xDFFF) by lia.
  split; [subst c; lia |].
  replace (c <? 0x10000) with false by (subst c; lia).
  replace (c - 0x10000) with ((u - 0xD800) * 0x400 + (v - 0xDC00)) by (subst c; lia).
  f_equal; [| f_equal]; Z.div_mod_to_equations; lia.
Qed.

Lemma isWellFormed_codePoints (s : JSString) :
  isWellFormed s = true ->
  Forall isScalar (codePoints s) /\ flat_map utf16_units (codePoints s) = s.
Proof.
  assert (One : forall u rest,
            isHighSurrogate u = false ->
            negb (isLowSurrogate u) && isCodeUnit u && isWellFormed rest = true ->
            isLowSurrogate u = false /\ isScalar u /\ utf16_units u = [u]
            /\ isWellFormed rest = true).
  { intros u rest Hh W.
    unfold isHighSurrogate in Hh.
    destruct (isLowSurrogate u) eqn:Hl; [discriminate W |].
    unfold isLowSurrogate in Hl; unfold isCodeUnit in W; cbn [negb andb] in W.
    split; [reflexivity |].
    split; [unfold isScalar; lia |].
    split; [apply utf16_units_bmp; lia |].
    destruct (isWellFormed rest); [reflexivity | lia]. }
  induction s as [| u | u v rest IH1 IH2] using pairs_ind.
  - intros _; split; [constructor | reflexivity].
  - cbn [isWellFormed codePoints].
    destruct (isHighSurrogate u) eqn:Hh; [discriminate |].
    intros W; destruct (One u [] Hh W) as (Hl & Sc & U & _).
    rewrite Hl; cbn [flat_map]; rewrite U.
    split; [constructor; [exact Sc | constructor] | reflexivity].
  - rewrite (codePoints_cons u); cbv beta iota.
    change (isWellFormed (u :: v :: rest))
      with (if isHighSurrogate u then isLowSurrogate v && isWellFormed rest
            else negb (isLowSurrogate u) && isCodeUnit u
                 && isWellFormed (v :: rest)).
    destruct (isHighSurrogate u) eqn:Hh.
    + intros W; apply andb_prop in W; destruct W as [Hl W].
      rewrite Hl.
      destruct (utf16_units_pair u v Hh Hl) as [Sc U].
      destruct (IH1 W) as [F E].
      cbn [flat_map]; rewrite U, E.
      split; [constructor; assumption | reflexivity].
    + intros W; destruct (One u (v :: rest) Hh W) as (Hl & Sc & U & W').
      rewrite Hl.
      destruct (IH2 W') as [F E].
      cbn [flat_map]; rewrite U, E.
      split; [constructor; assumption | reflexivity].
Qed.

Lemma unsigned_of_Z_bytes (l : list Z) :
  Forall (fun b => 0 <= b < 256) l ->
  map byte.unsigned (map byte.of_Z l) = l.
Proof.
  induction 1 as [| b l Hb F IH]; [reflexivity |].
  cbn [map]; rewrite IH; f_equal.
  rewrite byte.unsigned_of_Z; unfold byte.wrap; apply Z.mod_small; lia.
Qed.

Lemma utf8_decode_codePoints (cps : list Z) :
  Forall isScalar cps ->
  Forall (fun b => 0 <= b < 256) (flat_map utf8_bytes cps) /\
  utf8_decode utf8_idle (flat_map utf8_bytes cps) = cps.
Proof.
  induction 1 as [| c cps Hc F [IHr IHd]]; [split; [constructor | reflexivity] |].
  cbn [flat_map]; split.
  - apply Forall_app; split; [apply utf8_bytes_range; exact Hc | exact IHr].
  - rewrite utf8_decode_bytes, IHd by exact Hc; reflexivity.
Qed.

(** Decoding inverts encoding on well-formed strings. *)
Lemma utf8Slice_encode (s : JSString) :
  isWellFormed s = true -> utf8Slice (TextEncoder_encode s) = s.
Proof.
  intros W; destruct (isWellFormed_codePoints s W) as [F E].
  destruct (utf8_decode_codePoints _ F) as [R D].
  unfold utf8Slice, TextEncoder_encode.
  rewrite unsigned_of_Z_bytes, D by exact R; exact E.
Qed.


(** ** Results *)

Lemma Ok_inj {A : Type} (a b : A) : Ok a = Ok b -> a = b.
Proof. congruence. Qed.

Lemma succeeds_Ok {A : Type} (a : A) : succeeds (Ok a).
Proof. exists a; reflexivity. Qed.

Lemma succeeds_Err {A : Type} (e : exn) : ~ succeeds (@Err A e).
Proof. intros [a Ha]; discriminate. Qed.

Lemma bind_Ok {A B : Type} (r : result A) (k : A -> result B) (b : B) :
  bind r k = Ok b -> exists a, r = Ok a /\ k a = Ok b.
Proof. destruct r as [a | e]; cbn; [eauto | discriminate]. Qed.

Ltac bind_inv E :=
  repeat (apply bind_Ok in E;
          let x := fresh "x" in
          let Ex := fresh "Ex" in
          destruct E as (x & Ex & E); try destruct x as [? ?]);
  apply Ok_inj in E.

Ltac replay :=
  repeat match goal with
    | E : ?r = Ok _ |- context [bind ?r _] => rewrite E; cbn [bind]
    end.

Ltac replay_in X :=
  repeat match type of X with
    | context [bind ?r _] =>
        match goal with E : r = Ok _ |- _ => rewrite E in X; cbn [bind] in X end
    end.

Lemma mapM_Ok {A B : Type} (f : A -> result B) (l : list A) (bs : list B) :
  mapM f l = Ok bs <-> Forall2 (fun a b => f a = Ok b) l bs.
Proof.
  revert bs; induction l as [| a l IH]; intros bs; cbn.
  - split.
    + intros E; apply Ok_inj in E; subst; constructor.
    + intros F; inversion F; reflexivity.
  - split.
    + intros E.
      apply bind_Ok in E; destruct E as (b & Eb & E).
      apply bind_Ok in E; destruct E as (bs' & Ebs & E).
      apply Ok_inj in E; subst bs.
      constructor; [exact Eb | apply IH, Ebs].
    + intros F; inversion F as [| a' b l' bs' Eb F' ]; subst.
      rewrite Eb; cbn.
      apply IH in F'; rewrite F'; reflexivity.
Qed.

Lemma mapM_succeeds {A B : Type} (f : A -> result B) (l : list A) :
  succeeds (mapM f l) <-> Forall (fun a => succeeds (f a)) l.
Proof.
  induction l as [| a l IH]; cbn.
  - split; [constructor | intros _; apply succeeds_Ok].
  - split.
    + intros [bs E].
      apply bind_Ok in E; destruct E as (b & Eb & E).
      apply bind_Ok in E; destruct E as (bs' & Ebs & _).
      constructor; [exists b; exact Eb | apply IH; exists bs'; exact Ebs].
    + intros F; inversion F as [| a' l' [b Eb] F']; subst.
      apply IH in F'; destruct F' as [bs Ebs].
      rewrite Eb, Ebs; cbn; apply succeeds_Ok.
Qed.

(** ** Slices and fixed-width accessors *)

Lemma len_nonneg {A : Type} (l : list A) : 0 <= len l.
Proof. unfold len; lia. Qed.

Lemma len_app {A : Type} (l1 l2 : list A) : len (l1 ++ l2) = len l1 + len l2.
Proof. unfold len; rewrite length_app; lia. Qed.

Lemma slice_inside {A : Type} (l : list A) (start stop : Z) :
  0 <= start <= stop -> stop <= len l ->
  slice l start stop
  = firstn (Z.to_nat (stop - start)) (skipn (Z.to_nat start) l).
Proof.
  intros Hs He; unfold slice, relativeIndex.
  destruct (start <? 0) eqn:E1; [lia |].
  destruct (stop <? 0) eqn:E2; [lia |].
  rewrite !Z.min_l by lia; reflexivity.
Qed.

Lemma length_slice {A : Type} (l : list A) (start stop : Z) :
  0 <= start <= stop ->
  length (slice l start stop)
  = Z.to_nat (Z.min stop (len l) - Z.min start (len l)).
Proof.
  intros Hs; unfold slice, relativeIndex.
  destruct (start <? 0) eqn:E1; [lia |].
  destruct (stop <? 0) eqn:E2; [lia |].
  rewrite length_firstn, length_skipn; unfold len; lia.
Qed.

Lemma slice_prefix {A : Type} (l1 l2 : list A) (stop : Z) :
  stop = len l1 -> slice (l1 ++ l2) 0 stop = l1.
Proof.
  intros ->; rewrite slice_inside
    by (rewrite ?len_app; pose proof (len_nonneg l1); pose proof (len_nonneg l2); lia).
  cbn [Z.to_nat skipn]; unfold len.
  rewrite Z.sub_0_r, Nat2Z.id, firstn_app, Nat.sub_diag, firstn_all.
  cbn; apply app_nil_r.
Qed.

Lemma slice_skip {A : Type} (l1 l2 : list A) (start stop : Z) :
  len l1 <= start -> start <= stop ->
  slice (l1 ++ l2) start stop = slice l2 (start - len l1) (stop - len l1).
Proof.
  intros H1 H2; pose proof (len_nonneg l1) as H0.
  unfold slice, relativeIndex; rewrite len_app.
  destruct (start <? 0) eqn:E1; [lia |].
  destruct (stop <? 0) eqn:E2; [lia |].
  destruct (start - len l1 <? 0) eqn:E3; [lia |].
  destruct (stop - len l1 <? 0) eqn:E4; [lia |].
  replace (Z.to_nat (Z.min start (len l1 + len l2)))
    with (Z.to_nat (Z.min (start - len l1) (len l2)) + length l1)%nat
    by (unfold len in *; lia).
  rewrite <- skipn_skipn, skipn_app, skipn_all, Nat.sub_diag.
  cbn [app skipn]; f_equal; lia.
Qed.

Lemma sliceFrom_skip {A : Type} (l1 l2 : list A) (start : Z) :
  start = len l1 -> sliceFrom (l1 ++ l2) start = l2.
Proof.
  intros ->; pose proof (len_nonneg l1); pose proof (len_nonneg l2).
  unfold sliceFrom; rewrite slice_skip by (rewrite ?len_app; lia).
  rewrite len_app, Z.sub_diag.
  replace (len l1 + len l2 - len l1) with (len l2) by lia.
  rewrite <- (app_nil_r l2) at 1; apply slice_prefix; reflexivity.
Qed.

Lemma bytesAt_here (mid post : Buffer) (n : nat) :
  n = length mid -> bytesAt (mid ++ post) 0 n = mid.
Proof.
  intros ->; unfold bytesAt; cbn [Z.to_nat skipn].
  rewrite firstn_app, Nat.sub_diag, firstn_all; cbn; apply app_nil_r.
Qed.

Lemma bytesAt_skip (pre rest : Buffer) (k offset : Z) (n : nat) :
  len pre = k -> k <= offset ->
  bytesAt (pre ++ rest) offset n = bytesAt rest (offset - k) n.
Proof.
  intros <- Hle; unfold bytesAt; f_equal.
  replace (Z.to_nat offset) with (Z.to_nat (offset - len pre) + length pre)%nat
    by (unfold len in *; lia).
  rewrite <- skipn_skipn, skipn_app, skipn_all, Nat.sub_diag; reflexivity.
Qed.

Lemma inBounds_true (buf : Buffer) (offset width : Z) :
  inBounds buf offset width = true <-> 0 <= offset /\ offset + width <= len buf.
Proof. unfold inBounds; rewrite andb_true_iff; lia. Qed.

Lemma inBounds_false (buf : Buffer) (offset width : Z) :
  inBounds buf offset width = false <-> offset < 0 \/ len buf < offset + width.
Proof. unfold inBounds; rewrite andb_false_iff; lia. Qed.

Lemma toSigned_wrap (bits v : Z) :
  0 < bits -> - 2 ^ (bits - 1) <= v < 2 ^ (bits - 1) ->
  toSigned bits (v mod 2 ^ bits) = v.
Proof.
  intros Hb Hv; unfold toSigned.
  assert (E : 2 ^ bits = 2 * 2 ^ (bits - 1)).
  { replace bits with (Z.succ (bits - 1)) at 1 by lia.
    rewrite Z.pow_succ_r by lia; reflexivity. }
  assert (P : 0 < 2 ^ (bits - 1)) by (apply Z.pow_pos_nonneg; lia).
  destruct (Z.lt_ge_cases v 0) as [Hneg | Hpos].
  - replace (v mod 2 ^ bits) with (v + 2 ^ bits)
      by (apply Z.mod_unique with (q := -1); lia).
    destruct (v + 2 ^ bits <? 2 ^ (bits - 1)) eqn:E1; lia.
  - rewrite Z.mod_small by lia.
    destruct (v <? 2 ^ (bits - 1)) eqn:E1; lia.
Qed.

(** A fixed-width signed integer, split into little-endian bytes and read
    back, is unchanged over the whole signed range of the width. *)
Lemma toSigned_le_split (n : nat) (v : Z) :
  (0 < n)%nat ->
  - 2 ^ (Z.of_nat n * 8 - 1) <= v < 2 ^ (Z.of_nat n * 8 - 1) ->
  toSigned (Z.of_nat n * 8) (le_combine (le_split n v)) = v.
Proof.
  intros Hn Hv; rewrite le_combine_split; apply toSigned_wrap; lia.
Qed.

Lemma len_le_split (n : nat) (v : Z) : len (le_split n v) = Z.of_nat n.
Proof. unfold len; rewrite length_le_split; reflexivity. Qed.

Lemma readInt32LE_at (pre post : Buffer) (v offset : Z) :
  offset = len pre -> - 2 ^ 31 <= v < 2 ^ 31 ->
  readInt32LE (pre ++ le_split 4 v ++ post) offset = Ok v.
Proof.
  intros -> Hv; unfold readInt32LE.
  pose proof (len_nonneg pre); pose proof (len_nonneg post).
  replace (inBounds _ _ _) with true
    by (symmetry; apply inBounds_true;
        rewrite !len_app, len_le_split; lia).
  rewrite (bytesAt_skip pre _ (len pre)) by lia.
  rewrite Z.sub_diag, bytesAt_here by (rewrite length_le_split; reflexivity).
  f_equal; apply (toSigned_le_split 4); lia.
Qed.

Lemma readInt32LE_skip (pre rest : Buffer) (k offset : Z) :
  len pre = k -> k <= offset ->
  readInt32LE (pre ++ rest) offset = readInt32LE rest (offset - k).
Proof.
  intros Hk Hle; unfold readInt32LE.
  rewrite (bytesAt_skip pre rest k) by assumption.
  replace (inBounds (pre ++ rest) offset 4) with (inBounds rest (offset - k) 4);
    [reflexivity |].
  pose proof (len_nonneg pre).
  unfold inBounds; rewrite len_app, Hk; lia.
Qed.

(** ** Encoding and decoding of the account fields *)

Lemma isInt32_true (v : Z) : isInt32 v = true <-> - 2 ^ 31 <= v <= 2 ^ 31 - 1.
Proof. unfold isInt32; rewrite negb_true_iff, orb_false_iff; lia. Qed.

Lemma readInt32LE_skip' (pre rest : Buffer) (k offset' offset : Z) :
  len pre = k -> 0 <= offset' -> offset = k + offset' ->
  readInt32LE (pre ++ rest) offset = readInt32LE rest offset'.
Proof.
  intros Hk H0 ->; pose proof (len_nonneg pre).
  rewrite (readInt32LE_skip pre rest k) by lia; f_equal; lia.
Qed.

Lemma readInt32LE_here (post : Buffer) (v : Z) :
  isInt32 v = true -> readInt32LE (le_split 4 v ++ post) 0 = Ok v.
Proof.
  intros Hv; apply isInt32_true in Hv.
  apply (readInt32LE_at [] post v 0); [reflexivity | lia].
Qed.

(** The payload written by [setConfigInstruction], whatever the fresh buffer
    held. *)
Lemma config_payload (buf : Buffer) (f1 f2 f3 f4 f5 : number) :
  length buf = 21%nat ->
  (d <- writeInt8 buf 0 0 ;;
   d <- writeInt32LE d f1 1 ;;
   d <- writeInt32LE d f2 5 ;;
   d <- writeInt32LE d f3 9 ;;
   d <- writeInt32LE d f4 13 ;;
   d <- writeInt32LE d f5 17 ;;
   Ok d)
  = if inInt32Range f1 && inInt32Range f2 && inInt32Range f3
       && inInt32Range f4 && inInt32Range f5
    then Ok (le_split 1 0 ++ le_split 4 (truncate f1) ++ le_split 4 (truncate f2)
               ++ le_split 4 (truncate f3) ++ le_split 4 (truncate f4)
               ++ le_split 4 (truncate f5))
    else Err RangeError.
Proof.
  intros L.
  do 21 (destruct buf as [| ? buf]; [discriminate L |]).
  destruct buf; [clear L | discriminate L].
  unfold inInt32Range, writeInt8, writeInt32LE, splice, inBounds, len.
  generalize (truncate f1) (truncate f2) (truncate f3) (truncate f4)
    (truncate f5).
  generalize (Number_gt f1 (2 ^ 31 - 1) || Number_lt f1 (- 2 ^ 31))
    (Number_gt f2 (2 ^ 31 - 1) || Number_lt f2 (- 2 ^ 31))
    (Number_gt f3 (2 ^ 31 - 1) || Number_lt f3 (- 2 ^ 31))
    (Number_gt f4 (2 ^ 31 - 1) || Number_lt f4 (- 2 ^ 31))
    (Number_gt f5 (2 ^ 31 - 1) || Number_lt f5 (- 2 ^ 31)).
  intros r1 r2 r3 r4 r5 t1 t2 t3 t4 t5.
  cbv [le_split].
  change ((0 <? - 2 ^ 7) || (2 ^ 7 - 1 <? 0)) with false.
  cbn.
  destruct r1; cbn; [reflexivity |].
  destruct r2; cbn; [reflexivity |].
  destruct r3; cbn; [reflexivity |].
  destruct r4; cbn; [reflexivity |].
  destruct r5; cbn; reflexivity.
Qed.

Lemma length_allocUnsafe (stale : Buffer) (n : nat) :
  length (allocUnsafe stale n) = n.
Proof.
  unfold allocUnsafe; rewrite length_firstn, length_app, repeat_length; lia.
Qed.

Ltac split_decoder :=
  repeat match goal with
    | |- context [length (slice ?d ?a ?b)] =>
        rewrite (length_slice d a b) by lia
    | |- context [if ?c then _ else _] =>
        let E := fresh "E" in destruct c eqn:E; cbn [bind]
    end;
  unfold inBounds in *;
  repeat match goal with
    | E : (_ =? _)%nat = true |- _ => apply Nat.eqb_eq in E
    | E : (_ =? _)%nat = false |- _ => apply Nat.eqb_neq in E
    end;
  first [reflexivity | exfalso; lia].

Lemma bytesAt_one (buf : Buffer) (offset : Z) :
  0 <= offset < len buf ->
  bytesAt buf offset 1 = [nth (Z.to_nat offset) buf Byte.x00].
Proof.
  intros Ho; unfold bytesAt.
  assert (Hn : (Z.to_nat offset < length buf)%nat) by (unfold len in Ho; lia).
  generalize dependent (Z.to_nat offset); clear Ho offset.
  induction buf as [| b buf IH]; intros n Hn; cbn in Hn; [lia |].
  destruct n as [| n]; cbn [skipn nth].
  - destruct buf; reflexivity.
  - apply IH; lia.
Qed.

Lemma readInt8_spec (buf : Buffer) (offset : Z) :
  readInt8 buf offset
  = if inBounds buf offset 1 then Ok (toSigned 8 (byteAt buf offset))
    else Err RangeError.
Proof.
  unfold readInt8, byteAt.
  destruct (inBounds buf offset 1) eqn:E; [| reflexivity].
  apply inBounds_true in E.
  rewrite bytesAt_one by lia.
  rewrite le_combine_1; reflexivity.
Qed.

Lemma toSigned8_zero (buf : Buffer) (i : Z) :
  (toSigned 8 (byteAt buf i) =? 0) = (byteAt buf i =? 0).
Proof.
  unfold byteAt; set (b := nth (Z.to_nat i) buf Byte.x00).
  pose proof (byte.unsigned_range b) as R; unfold toSigned.
  change (2 ^ (8 - 1)) with 128; change (2 ^ 8) with 256 in *.
  destruct (byte.unsigned b <? 128) eqn:E; [reflexivity |].
  apply Z.ltb_ge in E.
  destruct (byte.unsigned b - 256 =? 0) eqn:E1, (byte.unsigned b =? 0) eqn:E2; lia.
Qed.

Lemma byteAt_outside (buf : Buffer) (i : Z) : len buf <= i -> byteAt buf i = 0.
Proof.
  intros Hi; unfold byteAt, len in *.
  rewrite nth_overflow by lia; reflexivity.
Qed.

Section Codec.
Context `{Platform}.

Lemma setConfigInstruction_spec (stale : Buffer)
    (signer creator : PublicKey) (config : ConfigArgs) :
  setConfigInstruction stale signer creator config
  = if configInRange config
    then
      '(config_pda, _) <- findConfigPda ;;
      Ok {| ix_data := configPayload config;
            keys :=
              [ mkAccountMeta signer true false;
                mkAccountMeta creator false false;
                mkAccountMeta config_pda false true;
                mkAccountMeta SystemProgram_programId false false ];
            programId := PID.GAIMIN_PFP |}
    else Err RangeError.
Proof.
  unfold setConfigInstruction.
  pose proof (config_payload (allocUnsafe stale (1 + 5 * 4))
                (args_claimable_from config) (args_accumulated_reward config)
                (args_initial_reward config)
                (args_total_accumulation_period config)
                (args_generation_duration config)
                (length_allocUnsafe stale _)) as P.
  fold (configInRange config) in P; fold (configPayload config) in P.
  set (buf := allocUnsafe stale (1 + 5 * 4)) in *.
  change GAIMIN_PFP_INSTRUCTIONS.CONFIG with 0.
  destruct (writeInt8 buf 0 0) as [d0 |]; cbn [bind] in *;
    [| destruct (configInRange config); [discriminate P | congruence]].
  destruct (writeInt32LE d0 _ 1) as [d1 |]; cbn [bind] in *;
    [| destruct (configInRange config); [discriminate P | congruence]].
  destruct (writeInt32LE d1 _ 5) as [d2 |]; cbn [bind] in *;
    [| destruct (configInRange config); [discriminate P | congruence]].
  destruct (writeInt32LE d2 _ 9) as [d3 |]; cbn [bind] in *;
    [| destruct (configInRange config); [discriminate P | congruence]].
  destruct (writeInt32LE d3 _ 13) as [d4 |]; cbn [bind] in *;
    [| destruct (configInRange config); [discriminate P | congruence]].
  destruct (writeInt32LE d4 _ 17) as [d5 |]; cbn [bind] in *;
    [| destruct (configInRange config); [discriminate P | congruence]].
  destruct (configInRange config); [| discriminate P].
  apply Ok_inj in P; subst d5; reflexivity.
Qed.

Hypothesis bs58_round_trip : forall b, bs58_decode (bs58_encode b) = Some b.

Lemma PublicKey_new_encode (b : Buffer) :
  PublicKey_new (bs58_encode b)
  = if (length b =? 32)%nat then Ok (mkPublicKey b)
    else Err InvalidPublicKeyInput.
Proof. unfold PublicKey_new; rewrite bs58_round_trip; reflexivity. Qed.

Lemma decodeConfig_layout (a c rest : Buffer) (f1 f2 f3 f4 f5 : Z) :
  length a = 32%nat -> length c = 32%nat ->
  isInt32 f1 && isInt32 f2 && isInt32 f3 && isInt32 f4 && isInt32 f5 = true ->
  decodeConfig
    (mkAccountInfo
       (a ++ c ++ le_split 4 f1 ++ le_split 4 f2 ++ le_split 4 f3
          ++ le_split 4 f4 ++ le_split 4 f5 ++ rest))
  = Ok (mkConfigRecord (mkPublicKey a) (mkPublicKey c) f1 f2 f3 f4 f5).
Proof.
  intros La Lc R.
  repeat (apply andb_true_iff in R; destruct R as [R ?]).
  assert (La' : len a = 32) by (unfold len; rewrite La; reflexivity).
  assert (Lc' : len c = 32) by (unfold len; rewrite Lc; reflexivity).
  unfold decodeConfig; cbn [data].
  rewrite slice_prefix by (symmetry; exact La').
  rewrite PublicKey_new_encode, La; cbn [Nat.eqb bind].
  rewrite (slice_skip a) by lia.
  rewrite La'; change (32 - 32) with 0; change (64 - 32) with 32.
  rewrite slice_prefix by (symmetry; exact Lc').
  rewrite PublicKey_new_encode, Lc; cbn [Nat.eqb bind].
  rewrite (readInt32LE_skip' a _ 32 32 64), (readInt32LE_skip' c _ 32 0 32)
    by (assumption || lia).
  rewrite readInt32LE_here by assumption; cbn [bind].
  rewrite (readInt32LE_skip' a _ 32 36 68), (readInt32LE_skip' c _ 32 4 36),
    (readInt32LE_skip' (le_split 4 f1) _ 4 0 4)
    by (assumption || apply len_le_split || lia).
  rewrite readInt32LE_here by assumption; cbn [bind].
  rewrite (readInt32LE_skip' a _ 32 40 72), (readInt32LE_skip' c _ 32 8 40),
    (readInt32LE_skip' (le_split 4 f1) _ 4 4 8),
    (readInt32LE_skip' (le_split 4 f2) _ 4 0 4)
    by (assumption || apply len_le_split || lia).
  rewrite readInt32LE_here by assumption; cbn [bind].
  rewrite (readInt32LE_skip' a _ 32 44 76), (readInt32LE_skip' c _ 32 12 44),
    (readInt32LE_skip' (le_split 4 f1) _ 4 8 12),
    (readInt32LE_skip' (le_split 4 f2) _ 4 4 8),
    (readInt32LE_skip' (le_split 4 f3) _ 4 0 4)
    by (assumption || apply len_le_split || lia).
  rewrite readInt32LE_here by assumption; cbn [bind].
  rewrite (readInt32LE_skip' a _ 32 48 80), (readInt32LE_skip' c _ 32 16 48),
    (readInt32LE_skip' (le_split 4 f1) _ 4 12 16),
    (readInt32LE_skip' (le_split 4 f2) _ 4 8 12),
    (readInt32LE_skip' (le_split 4 f3) _ 4 4 8),
    (readInt32LE_skip' (le_split 4 f4) _ 4 0 4)
    by (assumption || apply len_le_split || lia).
  rewrite readInt32LE_here by assumption; cbn [bind].
  reflexivity.
Qed.

Lemma decodeNft_layout (rest : Buffer) (f1 f2 f3 : Z) :
  isInt32 f1 && isInt32 f2 && isInt32 f3 = true ->
  decodeNft (mkAccountInfo (le_split 4 f1 ++ le_split 4 f2 ++ le_split 4 f3 ++ rest))
  = Ok (mkNftRecord f1 f2 f3).
Proof.
  intros R.
  repeat (apply andb_true_iff in R; destruct R as [R ?]).
  unfold decodeNft; cbn [data].
  rewrite readInt32LE_here by assumption; cbn [bind].
  rewrite (readInt32LE_skip' (le_split 4 f1) _ 4 0 4)
    by (apply len_le_split || lia).
  rewrite readInt32LE_here by assumption; cbn [bind].
  rewrite (readInt32LE_skip' (le_split 4 f1) _ 4 4 8),
    (readInt32LE_skip' (le_split 4 f2) _ 4 0 4)
    by (apply len_le_split || lia).
  rewrite readInt32LE_here by assumption; cbn [bind].
  reflexivity.
Qed.

Lemma decodeClaim_layout (o w : Buffer) (f1 f2 : Z) :
  length o = 32%nat ->
  isInt32 f1 && isInt32 f2 = true ->
  decodeClaim (mkAccountInfo (le_split 4 f1 ++ le_split 4 f2 ++ o ++ w))
  = Ok (mkClaimRecord f1 f2 (mkPublicKey o) (utf16 "0x" ++ utf8Slice w)).
Proof.
  intros Lo R.
  repeat (apply andb_true_iff in R; destruct R as [R ?]).
  assert (Lo' : len o = 32) by (unfold len; rewrite Lo; reflexivity).
  unfold decodeClaim; cbn [data].
  rewrite readInt32LE_here by assumption; cbn [bind].
  rewrite (readInt32LE_skip' (le_split 4 f1) _ 4 0 4)
    by (apply len_le_split || lia).
  rewrite readInt32LE_here by assumption; cbn [bind].
  rewrite (slice_skip (le_split 4 f1)), len_le_split by (rewrite ?len_le_split; lia).
  rewrite (slice_skip (le_split 4 f2)), len_le_split by (rewrite ?len_le_split; lia).
  change (8 - 4 - 4) with 0; change (40 - 4 - 4) with 32.
  rewrite slice_prefix by (symmetry; exact Lo').
  rewrite PublicKey_new_encode, Lo; cbn [Nat.eqb bind].
  unfold toString_utf8.
  rewrite !app_assoc, sliceFrom_skip; [reflexivity |].
  rewrite !len_app, !len_le_split, Lo'; reflexivity.
Qed.

Lemma decodeConfig_spec (resp : AccountInfo) :
  decodeConfig resp
  = if 84 <=? len (data resp) then Ok (configRecordOf (data resp))
    else if len (data resp) <? 64 then Err InvalidPublicKeyInput
    else Err RangeError.
Proof.
  destruct resp as [buf]; cbn [data]; pose proof (len_nonneg buf).
  unfold decodeConfig, configRecordOf, int32At, readInt32LE; cbn [data].
  rewrite !PublicKey_new_encode.
  split_decoder.
Qed.

Lemma decodeNft_spec (resp : AccountInfo) :
  decodeNft resp
  = if 12 <=? len (data resp) then Ok (nftRecordOf (data resp))
    else Err RangeError.
Proof.
  destruct resp as [buf]; cbn [data]; pose proof (len_nonneg buf).
  unfold decodeNft, nftRecordOf, int32At, readInt32LE; cbn [data].
  split_decoder.
Qed.

Lemma decodeClaim_spec (resp : AccountInfo) :
  decodeClaim resp
  = if 40 <=? len (data resp) then Ok (claimRecordOf (data resp))
    else if len (data resp) <? 8 then Err RangeError
    else Err InvalidPublicKeyInput.
Proof.
  destruct resp as [buf]; cbn [data]; pose proof (len_nonneg buf).
  unfold decodeClaim, claimRecordOf, int32At, readInt32LE; cbn [data].
  rewrite !PublicKey_new_encode.
  split_decoder.
Qed.

Lemma decodeTokenRecord_spec (resp : AccountInfo) :
  decodeTokenRecord resp
  = if tokenRecordSize (data resp) <=? len (data resp)
    then Ok (tokenRecordOf (data resp))
    else Err RangeError.
Proof.
  destruct resp as [buf]; cbn [data].
  unfold decodeTokenRecord, tokenRecordOf, tokenRecordSize; cbn [data].
  pose proof (len_nonneg buf) as L.
  assert (D : delegateOffset buf = 4 \/ delegateOffset buf = 12)
    by (unfold delegateOffset; destruct (byteAt buf 3 =? 0); lia).
  rewrite !readInt8_spec.
  change (2 + 1) with 3.
  destruct (inBounds buf 2 1) eqn:B2; cbn [bind].
  2: { apply inBounds_false in B2.
       destruct (byteAt buf (delegateOffset buf) =? 0);
         destruct (_ <=? len buf) eqn:E; try reflexivity; lia. }
  destruct (inBounds buf 3 1) eqn:B3; cbn [bind].
  2: { apply inBounds_false in B3.
       destruct (byteAt buf (delegateOffset buf) =? 0);
         destruct (_ <=? len buf) eqn:E; try reflexivity; lia. }
  rewrite toSigned8_zero; fold (delegateOffset buf).
  rewrite readInt8_spec.
  destruct (inBounds buf (delegateOffset buf) 1) eqn:B4; cbn [bind].
  2: { apply inBounds_false in B4.
       rewrite byteAt_outside by lia; cbn [Z.eqb].
       destruct (_ <=? len buf) eqn:E; try reflexivity; lia. }
  apply inBounds_true in B4.
  rewrite toSigned8_zero.
  destruct (byteAt buf (delegateOffset buf) =? 0); cbn [bind].
  - destruct (_ <=? len buf) eqn:E; try reflexivity; lia.
  - rewrite readInt8_spec.
    destruct (inBounds buf (delegateOffset buf + 34) 1) eqn:B5; cbn [bind].
    + apply inBounds_true in B5.
      destruct (_ <=? len buf) eqn:E; try reflexivity; lia.
    + apply inBounds_false in B5.
      destruct (_ <=? len buf) eqn:E; try reflexivity; lia.
Qed.

Lemma tokenRecordSize_min (buf : Buffer) : 5 <= tokenRecordSize buf.
Proof.
  unfold tokenRecordSize, delegateOffset.
  destruct (byteAt buf 3 =? 0); destruct (byteAt buf _ =? 0); lia.
Qed.
End Codec.

(** ** The bump search *)

Section Derivation.
Context `{Platform}.

Lemma bumpSearch_sound (seeds : list Buffer) (programId : PublicKey) (n : nat)
    (address : PublicKey) (bump : Z) :
  bumpSearch seeds programId n = Ok (address, bump) ->
  0 <= bump < Z.of_nat n /\
  toBuffer address = addressHash (derivationPreimage seeds bump programId) /\
  isOnCurve (toBuffer address) = false /\
  forall b, bump < b < Z.of_nat n ->
    isOnCurve (addressHash (derivationPreimage seeds b programId)) = true.
Proof.
  induction n as [| n IH]; cbn [bumpSearch]; [discriminate |].
  destruct (isOnCurve (addressHash (derivationPreimage seeds (Z.of_nat n) programId)))
    eqn:C.
  - intros E; destruct (IH E) as (R & A & O & P).
    repeat split; try assumption; try lia.
    intros b Hb.
    destruct (Z.eq_dec b (Z.of_nat n)) as [-> | Hne]; [exact C | apply P; lia].
  - intros E; apply Ok_inj in E; inversion E; subst; cbn [toBuffer].
    repeat split; try assumption; try lia.
Qed.

Lemma bumpSearch_complete (seeds : list Buffer) (programId : PublicKey) (n : nat)
    (address : PublicKey) (bump : Z) :
  0 <= bump < Z.of_nat n ->
  toBuffer address = addressHash (derivationPreimage seeds bump programId) ->
  isOnCurve (toBuffer address) = false ->
  (forall b, bump < b < Z.of_nat n ->
     isOnCurve (addressHash (derivationPreimage seeds b programId)) = true) ->
  bumpSearch seeds programId n = Ok (address, bump).
Proof.
  intros R A O P.
  induction n as [| n IH]; cbn [bumpSearch]; [lia |].
  destruct (Z.eq_dec bump (Z.of_nat n)) as [-> | Hne].
  - rewrite <- A, O; destruct address as [a]; cbn [toBuffer] in *; subst a.
    reflexivity.
  - rewrite P by lia; apply IH; [lia |].
    intros b Hb; apply P; lia.
Qed.

Lemma bumpSearch_error (seeds : list Buffer) (programId : PublicKey) (n : nat)
    (e : exn) :
  bumpSearch seeds programId n = Err e ->
  e = DerivationError /\
  forall b, 0 <= b < Z.of_nat n ->
    isOnCurve (addressHash (derivationPreimage seeds b programId)) = true.
Proof.
  induction n as [| n IH]; cbn [bumpSearch].
  - intros E; split; [congruence | lia].
  - destruct (isOnCurve (addressHash (derivationPreimage seeds (Z.of_nat n) programId)))
      eqn:C; [| discriminate].
    intros E; destruct (IH E) as (-> & P); split; [reflexivity |].
    intros b Hb.
    destruct (Z.eq_dec b (Z.of_nat n)) as [-> | Hne]; [exact C | apply P; lia].
Qed.

Lemma findProgramAddressSync_Derived (seeds : list Buffer) (programId : PublicKey)
    (address : PublicKey) (bump : Z) :
  findProgramAddressSync seeds programId = Ok (address, bump)
  <-> Derived seeds programId address bump.
Proof.
  unfold findProgramAddressSync, Derived; split.
  - intros E; apply bumpSearch_sound in E; destruct E as (R & A & O & P).
    repeat split; try assumption; try lia.
    intros b Hb; apply P; lia.
  - intros (R & A & O & P); apply bumpSearch_complete; try assumption; try lia.
    intros b Hb; apply P; lia.
Qed.

Lemma Derived_unique (seeds : list Buffer) (programId : PublicKey)
    (a1 a2 : PublicKey) (b1 b2 : Z) :
  Derived seeds programId a1 b1 -> Derived seeds programId a2 b2 ->
  a1 = a2 /\ b1 = b2.
Proof.
  intros (R1 & A1 & O1 & P1) (R2 & A2 & O2 & P2).
  assert (E : b1 = b2).
  { destruct (Z.lt_trichotomy b1 b2) as [L | [E | L]]; [| exact E |].
    - specialize (P1 b2 ltac:(lia)); rewrite <- A2 in P1; congruence.
    - specialize (P2 b1 ltac:(lia)); rewrite <- A1 in P2; congruence. }
  split; [| exact E]; subst b2.
  destruct a1 as [x1], a2 as [x2]; cbn [toBuffer] in *; congruence.
Qed.

(** C7.  Address derivation is deterministic: the outcome of the bump search
    for a program id and a seed list is unique, it is the pair
    [findProgramAddressSync] returns, and a named derivation such as
    [findClaimPda] returns exactly the pair derived from its arguments. *)
Theorem derive_deterministic (seeds : list Buffer) (programId : PublicKey) :
  (forall a1 b1 a2 b2,
     Derived seeds programId a1 b1 -> Derived seeds programId a2 b2 ->
     a1 = a2 /\ b1 = b2) /\
  (forall address bump,
     findProgramAddressSync seeds programId = Ok (address, bump)
     <-> Derived seeds programId address bump) /\
  (forall e,
     findProgramAddressSync seeds programId = Err e ->
     e = DerivationError /\
     forall address bump, ~ Derived seeds programId address bump) /\
  (forall wallet seed address bump,
     findClaimPda wallet seed = Ok (address, bump)
     <-> Derived [Buffer_from "claim"; toBuffer wallet; seed] PID.GAIMIN_PFP
           address bump).
Proof.
  split; [intros a1 b1 a2 b2; apply Derived_unique |].
  split; [intros address bump; apply findProgramAddressSync_Derived |].
  split.
  - intros e E; split.
    + apply bumpSearch_error in E; tauto.
    + intros address bump D.
      apply findProgramAddressSync_Derived in D; congruence.
  - intros wallet seed address bump; apply findProgramAddressSync_Derived.
Qed.

(** C5.  Every named derivation hashes exactly its documented seed list, the
    literals byte for byte: "config" alone for the configuration address
    (which therefore has no argument), "nft" and the mint for the stake
    record, "claim", the wallet and the nonce for the claim record, and
    "metadata", the metadata program id and the mint, followed by nothing,
    by "edition", or by "token_record" and the token, for the three
    metadata-program addresses. *)
Theorem derivation_seeds (mint wallet token : PublicKey) (nonce : Buffer) :
  let config := [Byte.x63; Byte.x6f; Byte.x6e; Byte.x66; Byte.x69; Byte.x67] in
  let nft := [Byte.x6e; Byte.x66; Byte.x74] in
  let claim := [Byte.x63; Byte.x6c; Byte.x61; Byte.x69; Byte.x6d] in
  let metadata := [Byte.x6d; Byte.x65; Byte.x74; Byte.x61; Byte.x64; Byte.x61; Byte.x74; Byte.x61] in
  let edition := [Byte.x65; Byte.x64; Byte.x69; Byte.x74; Byte.x69; Byte.x6f; Byte.x6e] in
  let token_record :=
    [Byte.x74; Byte.x6f; Byte.x6b; Byte.x65; Byte.x6e; Byte.x5f; Byte.x72; Byte.x65; Byte.x63; Byte.x6f; Byte.x72; Byte.x64] in
  findConfigPda = findProgramAddressSync [config] PID.GAIMIN_PFP /\
  findNftPda mint
  = findProgramAddressSync [nft; toBuffer mint] PID.GAIMIN_PFP /\
  findClaimPda wallet nonce
  = findProgramAddressSync [claim; toBuffer wallet; nonce] PID.GAIMIN_PFP /\
  findMetadataAccountPda mint
  = findProgramAddressSync
      [metadata; toBuffer PID.MPL_TOKEN_METADATA; toBuffer mint]
      PID.MPL_TOKEN_METADATA /\
  findMasterEditionAccountPda mint
  = findProgramAddressSync
      [metadata; toBuffer PID.MPL_TOKEN_METADATA; toBuffer mint; edition]
      PID.MPL_TOKEN_METADATA /\
  findTokenRecordPda mint token
  = findProgramAddressSync
      [metadata; toBuffer PID.MPL_TOKEN_METADATA; toBuffer mint; token_record;
       toBuffer token]
      PID.MPL_TOKEN_METADATA /\
  (forall address bump,
     findConfigPda = Ok (address, bump) ->
     toBuffer address
     = addressHash
         (config ++ [byte.of_Z bump] ++ toBuffer PID.GAIMIN_PFP ++ domainSuffix)) /\
  (forall address bump,
     findClaimPda wallet nonce = Ok (address, bump) ->
     toBuffer address
     = addressHash
         (claim ++ toBuffer wallet ++ nonce ++ [byte.of_Z bump]
            ++ toBuffer PID.GAIMIN_PFP ++ domainSuffix)).
Proof.
  cbv zeta; repeat split.
  - intros address bump E.
    apply findProgramAddressSync_Derived in E; destruct E as (_ & A & _).
    exact A.
  - intros address bump E.
    apply findProgramAddressSync_Derived in E; destruct E as (_ & A & _).
    rewrite A; unfold derivationPreimage; cbn [concat].
    rewrite app_nil_r, <- !app_assoc; reflexivity.
Qed.
End Derivation.

(** ** The instruction builders *)

Lemma Uint8Array_of_spread (bytes : Buffer) : Uint8Array_of (spread bytes) = bytes.
Proof.
  unfold Uint8Array_of, spread; rewrite map_map.
  rewrite <- (map_id bytes) at 2; apply map_ext.
  intros b; apply byte.of_Z_unsigned.
Qed.

Lemma Uint8Array_of_app (l1 l2 : list Z) :
  Uint8Array_of (l1 ++ l2) = Uint8Array_of l1 ++ Uint8Array_of l2.
Proof. apply map_app. Qed.

Section Builders.
Context `{Platform}.

Lemma createClaimInstruction_Ok (wallet : PublicKey) (bnb : JSString)
    (claim_seed : Buffer) (ix : TransactionInstruction) :
  createClaimInstruction wallet bnb claim_seed = Ok ix ->
  exists claim bump,
    findClaimPda wallet claim_seed = Ok (claim, bump) /\
    ix_data ix
    = [byte.of_Z GAIMIN_PFP_INSTRUCTIONS.CREATE_CLAIM; byte.of_Z bump]
        ++ claim_seed ++ TextEncoder_encode (string_slice bnb 2) /\
    opcode ix = Some 3 /\
    account ix 1 = Some claim.
Proof.
  unfold createClaimInstruction; intros E.
  apply bind_Ok in E; destruct E as ([claim bump] & Ec & E).
  apply bind_Ok in E; destruct E as ([config cb] & _ & E).
  apply Ok_inj in E; subst ix; cbn [ix_data keys].
  exists claim, bump; repeat split; try assumption.
  rewrite !Uint8Array_of_app, !Uint8Array_of_spread; reflexivity.
Qed.

Lemma registerNftInstruction_Ok (signer mint : PublicKey)
    (ix : TransactionInstruction) :
  registerNftInstruction signer mint = Ok ix ->
  opcode ix = Some 2 /\ account ix 1 = Some mint.
Proof.
  unfold registerNftInstruction; intros E.
  apply bind_Ok in E; destruct E as ([? ?] & _ & E).
  apply bind_Ok in E; destruct E as ([? ?] & _ & E).
  apply bind_Ok in E; destruct E as ([? ?] & _ & E).
  apply bind_Ok in E; destruct E as ([? ?] & _ & E).
  apply Ok_inj in E; subst ix; split; reflexivity.
Qed.

Lemma claimInstruction_Ok (wallet mint : PublicKey) (claim_seed : Buffer)
    (ix : TransactionInstruction) :
  claimInstruction wallet mint claim_seed = Ok ix ->
  exists claim bump,
    findClaimPda wallet claim_seed = Ok (claim, bump) /\
    opcode ix = Some 4 /\
    account ix 4 = Some claim.
Proof.
  unfold claimInstruction; intros E.
  apply bind_Ok in E; destruct E as ([? ?] & _ & E).
  apply bind_Ok in E; destruct E as ([? ?] & _ & E).
  apply bind_Ok in E; destruct E as ([? ?] & _ & E).
  apply bind_Ok in E; destruct E as ([? ?] & _ & E).
  apply bind_Ok in E; destruct E as ([claim bump] & Ec & E).
  apply Ok_inj in E; subst ix.
  exists claim, bump; repeat split; assumption.
Qed.

Lemma builders_succeed :
  (forall seeds programId, succeeds (findProgramAddressSync seeds programId)) ->
  forall (wallet mint : PublicKey) (bnb : JSString) (claim_seed : Buffer),
    succeeds (createClaimInstruction wallet bnb claim_seed) /\
    succeeds (registerNftInstruction wallet mint) /\
    succeeds (claimInstruction wallet mint claim_seed).
Proof.
  intros Total wallet mint bnb claim_seed.
  unfold createClaimInstruction, registerNftInstruction, claimInstruction,
    findMetadataAccountPda, findMasterEditionAccountPda, findTokenAccountPda,
    findTokenRecordPda, findConfigPda, findNftPda, findClaimPda.
  repeat split;
    repeat match goal with
      | |- context [findProgramAddressSync ?seeds ?programId] =>
          let E := fresh "E" in
          destruct (Total seeds programId) as [[? ?] E]; rewrite E; cbn [bind]
      end;
    apply succeeds_Ok.
Qed.

(** ** The composite claim *)

Lemma Forall2_length_eq {A B : Type} (R : A -> B -> Prop) (l : list A) (l' : list B) :
  Forall2 R l l' -> length l' = length l.
Proof. induction 1; cbn; congruence. Qed.

Lemma Forall2_Forall_r {A B : Type} (R : A -> B -> Prop) (Q : B -> Prop)
    (l : list A) (l' : list B) :
  (forall a b, R a b -> Q b) -> Forall2 R l l' -> Forall Q l'.
Proof. intros HR; induction 1; constructor; eauto. Qed.

Hypothesis randomBytes_length :
  forall n g, length (fst (randomBytes n g)) = n.

(** C1.  The composite claim draws one 32-byte seed and assembles one
    create-claim instruction, then one register instruction per mint in input
    order, then one execute-claim instruction per mint in input order; the
    create-claim builder and every execute-claim builder receive that same
    seed, so all of them name the same claim address.  The request is issued
    exactly when every builder succeeds, which they all do when the bump
    search finds an address for every seed list. *)
Theorem claimReward_sequence (connection : Connection) (userPayer : Keypair)
    (mints : list PublicKey) (bnb : JSString)
    (luts : option (list AddressLookupTableAccount)) (g : RNG) :
  let claim_seed := fst (randomBytes 32 g) in
  let payer := publicKey userPayer in
  let outcome := claimReward connection userPayer mints bnb luts g in
  length claim_seed = 32%nat /\
  snd outcome = snd (randomBytes 32 g) /\
  (succeeds (fst outcome) <->
   succeeds (createClaimInstruction payer bnb claim_seed) /\
   Forall (fun mint => succeeds (registerNftInstruction payer mint)) mints /\
   Forall (fun mint => succeeds (claimInstruction payer mint claim_seed)) mints) /\
  ((forall seeds programId, succeeds (findProgramAddressSync seeds programId)) ->
   succeeds (fst outcome)) /\
  forall request, fst outcome = Ok request ->
    exists create registers claims claimAddress bump,
      instructions (msg request) = [create] ++ registers ++ claims /\
      length registers = length mints /\
      length claims = length mints /\
      createClaimInstruction payer bnb claim_seed = Ok create /\
      Forall2 (fun mint ix => registerNftInstruction payer mint = Ok ix)
        mints registers /\
      Forall2 (fun mint ix => claimInstruction payer mint claim_seed = Ok ix)
        mints claims /\
      opcode create = Some GAIMIN_PFP_INSTRUCTIONS.CREATE_CLAIM /\
      Forall (fun ix => opcode ix = Some GAIMIN_PFP_INSTRUCTIONS.NFT) registers /\
      Forall (fun ix => opcode ix = Some GAIMIN_PFP_INSTRUCTIONS.CLAIM) claims /\
      findClaimPda payer claim_seed = Ok (claimAddress, bump) /\
      account create 1 = Some claimAddress /\
      Forall (fun ix => account ix 4 = Some claimAddress) claims.
Proof.
  intros claim_seed payer outcome.
  assert (Eo : outcome
    = (create <- createClaimInstruction payer bnb claim_seed ;;
       registers <- mapM (fun mint => registerNftInstruction payer mint) mints ;;
       claims <- mapM (fun mint => claimInstruction payer mint claim_seed) mints ;;
       Ok (sendAndConfirmTransaction connection [userPayer]
             {| payerKey := payer;
                instructions := [create] ++ registers ++ claims |} luts),
       snd (randomBytes 32 g))).
  { subst outcome claim_seed payer; unfold claimReward.
    destruct (randomBytes 32 g) as [seed g']; reflexivity. }
  rewrite Eo; cbn [fst snd]; clear Eo outcome.
  split; [apply randomBytes_length |].
  split; [reflexivity |].
  assert (Iff :
    succeeds
      (create <- createClaimInstruction payer bnb claim_seed ;;
       registers <- mapM (fun mint => registerNftInstruction payer mint) mints ;;
       claims <- mapM (fun mint => claimInstruction payer mint claim_seed) mints ;;
       Ok (sendAndConfirmTransaction connection [userPayer]
             {| payerKey := payer;
                instructions := [create] ++ registers ++ claims |} luts))
    <-> succeeds (createClaimInstruction payer bnb claim_seed) /\
        Forall (fun mint => succeeds (registerNftInstruction payer mint)) mints /\
        Forall (fun mint => succeeds (claimInstruction payer mint claim_seed))
          mints).
  { split.
    + intros [request E].
      apply bind_Ok in E; destruct E as (create & Ec & E).
      apply bind_Ok in E; destruct E as (registers & Er & E).
      apply bind_Ok in E; destruct E as (claims & Ek & _).
      split; [exists create; exact Ec |].
      split; apply mapM_succeeds; eexists; eassumption.
    + intros ([create Ec] & Fr & Fk).
      apply mapM_succeeds in Fr; destruct Fr as [registers Er].
      apply mapM_succeeds in Fk; destruct Fk as [claims Ek].
      rewrite Ec; cbn [bind].
      change (mapM (fun mint => registerNftInstruction payer mint) mints)
        with (mapM (registerNftInstruction payer) mints).
      rewrite Er, Ek; cbn [bind]; apply succeeds_Ok. }
  split; [exact Iff |].
  split.
  { intros Total; apply Iff.
    split; [apply (builders_succeed Total payer payer bnb claim_seed) |].
    split; apply Forall_forall; intros mint _;
      apply (builders_succeed Total payer mint bnb claim_seed). }
  intros request E.
  apply bind_Ok in E; destruct E as (create & Ec & E).
  apply bind_Ok in E; destruct E as (registers & Er & E).
  apply bind_Ok in E; destruct E as (claims & Ek & E).
  apply Ok_inj in E; subst request; cbn [msg instructions].
  apply mapM_Ok in Er, Ek.
  destruct (createClaimInstruction_Ok _ _ _ _ Ec) as (claim & bump & Ep & _ & Oc & Ac).
  exists create, registers, claims, claim, bump.
  split; [reflexivity |].
  split; [eapply Forall2_length_eq; eassumption |].
  split; [eapply Forall2_length_eq; eassumption |].
  split; [assumption |].
  split; [assumption |].
  split; [assumption |].
  split; [assumption |].
  split.
  { eapply Forall2_Forall_r; [| exact Er].
    intros mint ix Ei; cbv beta in Ei.
    apply registerNftInstruction_Ok in Ei; tauto. }
  split.
  { eapply Forall2_Forall_r; [| exact Ek].
    intros mint ix Ei; cbv beta in Ei.
    apply claimInstruction_Ok in Ei; destruct Ei as (? & ? & _ & Oi & _); exact Oi. }
  split; [assumption |].
  split; [assumption |].
  eapply Forall2_Forall_r; [| exact Ek].
  intros mint ix Ei; cbv beta in Ei.
  apply claimInstruction_Ok in Ei; destruct Ei as (c' & b' & Ep' & _ & Ai).
  rewrite Ep in Ep'; apply Ok_inj in Ep'; inversion Ep'; subst; exact Ai.
Qed.
End Builders.

(** ** Chunks *)

Lemma slice_chunk {A : Type} (l : list A) (i c : Z) :
  0 <= i < len l -> 1 <= c ->
  slice l i (i + c) = firstn (Z.to_nat c) (skipn (Z.to_nat i) l).
Proof.
  intros Hi Hc; unfold slice, relativeIndex.
  destruct (i <? 0) eqn:E1; [lia |].
  destruct (i + c <? 0) eqn:E2; [lia |].
  rewrite (Z.min_l i) by lia.
  destruct (Z.le_gt_cases (i + c) (len l)) as [Hle | Hgt].
  - rewrite Z.min_l by lia; f_equal; lia.
  - rewrite Z.min_r by lia.
    rewrite !firstn_all2; [reflexivity | |];
      rewrite length_skipn; unfold len in *; lia.
Qed.

Lemma ToIntegerOrInfinity_integer (x : number) (a : Z) :
  Number_integer x = Some a -> ToIntegerOrInfinity x = Integer a.
Proof.
  intros Hx; pose proof (truncate_integer x a Hx) as T.
  destruct x as [s | s | | s m e]; try discriminate Hx;
    unfold ToIntegerOrInfinity; rewrite T; reflexivity.
Qed.

(** On indices that are integers, [slice] is the slice of the integers. *)
Lemma Array_slice_integer {A : Type} (l : list A) (x y : number) (a b : Z) :
  Number_integer x = Some a -> Number_integer y = Some b ->
  Array_slice l x y = slice l a b.
Proof.
  intros Hx Hy; unfold Array_slice, slice.
  rewrite (ToIntegerOrInfinity_integer x a Hx), (ToIntegerOrInfinity_integer y b Hy).
  reflexivity.
Qed.

Lemma Number_lt_integer (x : number) (a z : Z) :
  Number_integer x = Some a -> Number_lt x z = (a <? z).
Proof.
  intros Hx; unfold Number_lt; rewrite (Number_compare_integer x a z Hx).
  reflexivity.
Qed.

Lemma Number_integer_nonpositive (x : number) (a : Z) :
  Number_integer x = Some a -> a <= 0 -> nonpositive x.
Proof.
  destruct x as [s | s | | s m e]; try discriminate; intros Hx Ha; [exact I |].
  apply Number_integer_finite in Hx; destruct Hx as (v & R & ->).
  pose proof (represents_pos _ _ _ R eq_refl).
  destruct s; [exact I | cbn in Ha; lia].
Qed.

Lemma chunk_cons {A : Type} (k : nat) (l : list A) :
  k <> 0%nat -> l <> [] ->
  List.chunk k l = firstn k l :: List.chunk k (skipn k l).
Proof.
  intros Hk Hl.
  pose proof (List.hd_error_chunk k Hk l Hl) as Hh.
  pose proof (List.skipn_chunk k Hk 1 l) as Hs.
  rewrite Nat.mul_1_l in Hs.
  destruct (List.chunk k l) as [| ck rest]; [discriminate Hh |].
  cbn in Hh, Hs; congruence.
Qed.

Lemma div_up_Z (n k : nat) :
  k <> 0%nat ->
  Z.of_nat (List.Nat.div_up n k) = (Z.of_nat n + Z.of_nat k - 1) / Z.of_nat k.
Proof.
  intros Hk; unfold List.Nat.div_up.
  rewrite Nat2Z.inj_div, Nat2Z.inj_add, Nat2Z.inj_sub by lia.
  f_equal; lia.
Qed.

Lemma Forall2_join {A B C : Type} (R : A -> B -> Prop) (S : A -> C -> Prop)
    (T : B -> C -> Prop) (l : list A) (l1 : list B) (l2 : list C) :
  (forall a b c, R a b -> S a c -> T b c) ->
  Forall2 R l l1 -> Forall2 S l l2 -> Forall2 T l1 l2.
Proof.
  intros HT F1; revert l2; induction F1 as [| a b l l1 Rab F1 IH]; intros l2 F2;
    inversion F2; subst; constructor; eauto.
Qed.

Section Chunks.
Context `{Platform}.
Variable connection : Connection.
Variable wallet : Keypair.

Lemma register_claim_record (signer mint : PublicKey) (claim_seed : Buffer)
    (r k : TransactionInstruction) :
  registerNftInstruction signer mint = Ok r ->
  claimInstruction signer mint claim_seed = Ok k ->
  exists record, account r 4 = Some record /\ account k 3 = Some record.
Proof.
  unfold registerNftInstruction, claimInstruction; intros Er Ek.
  bind_inv Er; replay_in Ek; bind_inv Ek; subst.
  eexists; split; reflexivity.
Qed.

(** What the driver's composite claim hands on. *)
Lemma claimReward_claimsChunk (payer : Keypair) (chunk : list PublicKey)
    (g : RNG) (request : SendRequest) :
  fst (claimReward connection payer chunk bnbWallet None g) = Ok request ->
  claimsChunk payer chunk request.
Proof.
  unfold claimReward; destruct (randomBytes 32 g) as [seed g']; cbn [fst].
  intros E.
  apply bind_Ok in E; destruct E as (create & Ec & E).
  apply bind_Ok in E; destruct E as (registers & Er & E).
  apply bind_Ok in E; destruct E as (claims & Ek & E).
  apply Ok_inj in E; subst request; unfold claimsChunk.
  cbn [signers msg luts payerKey instructions].
  split; [reflexivity |].
  split; [reflexivity |].
  split; [reflexivity |].
  apply mapM_Ok in Er, Ek.
  destruct (createClaimInstruction_Ok _ _ _ _ Ec) as (claim & bump & Ep & _ & Oc & Ac).
  exists seed, create, registers, claims, claim.
  split; [reflexivity |].
  split; [exact Ec |].
  split; [exact Oc |].
  split; [exact Ac |].
  split; [| split].
  - eapply Forall2_impl; [| exact Er].
    intros mint ix Ei; cbv beta in Ei.
    split; [exact Ei | apply registerNftInstruction_Ok in Ei; exact Ei].
  - eapply Forall2_impl; [| exact Ek].
    intros mint ix Ei; cbv beta in Ei.
    split; [exact Ei |].
    apply claimInstruction_Ok in Ei; destruct Ei as (c' & b' & Ep' & Ok4 & A4).
    rewrite Ep in Ep'; apply Ok_inj in Ep'; inversion Ep'; subst.
    split; assumption.
  - refine (Forall2_join _ _ _ _ _ _ _ Er Ek).
    intros mint r k Ei Ej; cbv beta in Ei, Ej.
    exact (register_claim_record _ _ _ _ _ Ei Ej).
Qed.

Lemma claimReward_succeeds (payer : Keypair) (chunk : list PublicKey)
    (bnb : JSString) (luts : option (list AddressLookupTableAccount)) (g : RNG) :
  (forall seeds programId, succeeds (findProgramAddressSync seeds programId)) ->
  succeeds (fst (claimReward connection payer chunk bnb luts g)).
Proof.
  intros Total; unfold claimReward.
  destruct (randomBytes 32 g) as [seed g']; cbn [fst].
  destruct (builders_succeed Total (publicKey payer) (publicKey payer) bnb seed)
    as ([create Ec] & _ & _).
  assert (Fr : Forall (fun mint => succeeds (registerNftInstruction (publicKey payer) mint)) chunk)
    by (apply Forall_forall; intros mint _;
        apply (builders_succeed Total (publicKey payer) mint bnb seed)).
  assert (Fk : Forall (fun mint => succeeds (claimInstruction (publicKey payer) mint seed)) chunk)
    by (apply Forall_forall; intros mint _;
        apply (builders_succeed Total (publicKey payer) mint bnb seed)).
  apply mapM_succeeds in Fr; destruct Fr as [registers Er].
  apply mapM_succeeds in Fk; destruct Fk as [claims Ek].
  rewrite Ec; cbn [bind].
  change (mapM (fun mint => registerNftInstruction (publicKey payer) mint) chunk)
    with (mapM (registerNftInstruction (publicKey payer)) chunk).
  rewrite Er, Ek; cbn [bind]; apply succeeds_Ok.
Qed.

Lemma concurrentClaimLoop_chunks (mints : list PublicKey) (chunkSize : number)
    (c : Z) :
  Number_integer chunkSize = Some c -> 1 <= c -> len mints + c <= 2 ^ 53 ->
  forall (fuel : nat) (i : number) (iz : Z) (st : ClaimLoop),
    Number_integer i = Some iz -> 0 <= iz ->
    (Z.to_nat (len mints - iz) < fuel)%nat ->
    let chunks := List.chunk (Z.to_nat c) (skipn (Z.to_nat iz) mints) in
    concurrentClaimLoop connection wallet fuel mints chunkSize i st
    = Some (mkClaimLoop
              (promises st ++ fst (claimEach connection wallet chunks (rng st)))
              (console st ++ map claimingLine chunks)
              (snd (claimEach connection wallet chunks (rng st)))).
Proof.
  intros Hk Hc Hb; induction fuel as [| fuel IH]; intros i iz st Hi Hz Hf; [lia |].
  cbn [concurrentClaimLoop]; cbv zeta.
  rewrite (Number_lt_integer i iz _ Hi).
  destruct (iz <? len mints) eqn:E.
  - apply Z.ltb_lt in E.
    assert (Hn : Number_integer (Number_add i chunkSize) = Some (iz + c))
      by (apply Number_add_integer; (assumption || lia)).
    rewrite (Array_slice_integer mints i _ iz (iz + c) Hi Hn).
    rewrite slice_chunk by lia.
    assert (Hne : skipn (Z.to_nat iz) mints <> []).
    { intros C; apply (f_equal (@length _)) in C.
      rewrite length_skipn in C; cbn in C; unfold len in E; lia. }
    rewrite (chunk_cons (Z.to_nat c)) by (assumption || lia).
    rewrite skipn_skipn.
    replace (Z.to_nat c + Z.to_nat iz)%nat with (Z.to_nat (iz + c)) by lia.
    cbn [claimEach map].
    set (chunk := firstn (Z.to_nat c) (skipn (Z.to_nat iz) mints)).
    unfold claim.
    destruct (claimReward connection wallet chunk bnbWallet None (rng st))
      as [promise g'].
    rewrite (IH _ (iz + c)) by (cbn [rng]; (assumption || lia)).
    cbn [promises console rng].
    destruct (claimEach connection wallet _ g') as [others g''].
    cbn [fst snd]; rewrite <- !app_assoc; reflexivity.
  - apply Z.ltb_ge in E.
    rewrite skipn_all2 by (unfold len in E; lia).
    cbn; rewrite !app_nil_r; destruct st; reflexivity.
Qed.

Lemma concurrentClaimLoop_stuck (mints : list PublicKey) (chunkSize : number) :
  mints <> [] -> nonpositive chunkSize ->
  forall (fuel : nat) (i : number) (st : ClaimLoop),
    nonpositive i ->
    concurrentClaimLoop connection wallet fuel mints chunkSize i st = None.
Proof.
  intros Hm Hc; induction fuel as [| fuel IH]; intros i st Hi; [reflexivity |].
  cbn [concurrentClaimLoop]; cbv zeta.
  rewrite nonpositive_lt
    by first [assumption
             | destruct mints; [congruence | unfold len; cbn [length]; lia]].
  destruct (claim connection wallet _ (rng st)) as [promise g'].
  apply IH; apply nonpositive_add; assumption.
Qed.

Lemma chunk_nth (mints : list PublicKey) (k n : nat) (chunk : list PublicKey) :
  k <> 0%nat ->
  nth_error (List.chunk k mints) n = Some chunk ->
  chunk = firstn k (skipn (n * k) mints) /\
  chunk <> [] /\
  (length chunk <= k)%nat /\
  (S n < length (List.chunk k mints) -> length chunk = k)%nat.
Proof.
  intros Hk E.
  assert (Hn : (n < List.Nat.div_up (length mints) k)%nat).
  { rewrite <- (List.length_chunk k Hk); apply nth_error_Some; congruence. }
  rewrite (List.nth_error_chunk k Hk) in E by exact Hn.
  injection E as E; subst chunk.
  pose proof (List.Nat.div_up_range (length mints) k Hk) as R.
  assert (L : length (firstn k (skipn (n * k) mints))
              = Nat.min k (length mints - n * k))
    by (rewrite length_firstn, length_skipn; reflexivity).
  split; [reflexivity |].
  split; [| split].
  - intros C; rewrite C in L; cbn in L; nia.
  - lia.
  - rewrite (List.length_chunk k Hk); intros Hlt; nia.
Qed.

Lemma chunk_nonempty (mints : list PublicKey) (k : nat) :
  k <> 0%nat -> Forall (fun chunk => chunk <> []) (List.chunk k mints).
Proof.
  intros Hk; apply Forall_forall; intros chunk Hin.
  apply In_nth_error in Hin; destruct Hin as [n E].
  exact (proj1 (proj2 (chunk_nth mints k n chunk Hk E))).
Qed.

Lemma claimEach_promises (chunks : list (list PublicKey)) (g : RNG) :
  Forall2
    (fun chunk promise =>
       (exists g',
          promise = fst (claimReward connection wallet chunk bnbWallet None g')) /\
       forall request, promise = Ok request -> claimsChunk wallet chunk request)
    chunks (fst (claimEach connection wallet chunks g)).
Proof.
  revert g; induction chunks as [| chunk chunks IH]; intros g; cbn [claimEach].
  - constructor.
  - destruct (claimReward connection wallet chunk bnbWallet None g)
      as [promise g'] eqn:E.
    specialize (IH g').
    destruct (claimEach connection wallet chunks g') as [others g''].
    cbn [fst] in *; constructor; [| exact IH].
    assert (Ep : promise = fst (claimReward connection wallet chunk bnbWallet None g))
      by (rewrite E; reflexivity).
    split; [exists g; exact Ep |].
    intros request Er; apply (claimReward_claimsChunk wallet chunk g).
    rewrite <- Ep; exact Er.
Qed.

Lemma claimEach_succeed (chunks : list (list PublicKey)) (g : RNG) :
  (forall seeds programId, succeeds (findProgramAddressSync seeds programId)) ->
  Forall (fun promise => succeeds promise)
    (fst (claimEach connection wallet chunks g)).
Proof.
  intros Total; revert g; induction chunks as [| chunk chunks IH]; intros g;
    cbn [claimEach].
  - constructor.
  - pose proof (claimReward_succeeds wallet chunk bnbWallet None g Total) as S.
    destruct (claimReward connection wallet chunk bnbWallet None g)
      as [promise g'].
    specialize (IH g').
    destruct (claimEach connection wallet chunks g') as [others g''].
    cbn [fst] in *; constructor; assumption.
Qed.

Lemma claimEach_length (chunks : list (list PublicKey)) (g : RNG) :
  length (fst (claimEach connection wallet chunks g)) = length chunks.
Proof.
  pose proof (claimEach_promises chunks g) as F.
  induction F; cbn [length]; congruence.
Qed.

Lemma concurrentClaim_runs (mints : list PublicKey) (chunkSize : number)
    (c : Z) (g : RNG) :
  Number_integer chunkSize = Some c -> 1 <= c -> len mints + c <= 2 ^ 53 ->
  forall fuel, (length mints < fuel)%nat ->
    let chunks := List.chunk (Z.to_nat c) mints in
    concurrentClaim connection wallet fuel mints chunkSize g
    = Some (mkClaimLoop
              (fst (claimEach connection wallet chunks g))
              (map claimingLine chunks)
              (snd (claimEach connection wallet chunks g))).
Proof.
  intros Hk Hc Hb fuel Hf; unfold concurrentClaim.
  rewrite (concurrentClaimLoop_chunks mints chunkSize c Hk Hc Hb fuel _ 0)
    by (reflexivity || unfold len; lia).
  reflexivity.
Qed.


End Chunks.

(** ** Accounts: what the decoders accept and return *)

Lemma string_slice_0x (rest : JSString) :
  string_slice (utf16 "0x" ++ rest) 2 = rest.
Proof. unfold string_slice; apply sliceFrom_skip; reflexivity. Qed.

(** On a number that is an integer, the range check of [writeInt32LE] is
    the one on the integer. *)
Lemma inInt32Range_integer (x : number) (z : Z) :
  Number_integer x = Some z -> inInt32Range x = isInt32 z.
Proof.
  intros Hx; unfold inInt32Range, Number_gt, Number_lt, isInt32.
  rewrite !(Number_compare_integer x z _ Hx).
  f_equal; rewrite orb_comm; f_equal.
  rewrite Z.ltb_antisym, Z.leb_compare.
  destruct (z ?= 2 ^ 31 - 1); reflexivity.
Qed.

Ltac compare_facts :=
  repeat match goal with
    | C : (_ ?= _) = Eq |- _ => apply Z.compare_eq_iff in C
    | C : (?a ?= ?b) = Lt |- _ => change (a < b) in C
    | C : (?a ?= ?b) = Gt |- _ => change (a > b) in C
    end.

(** The integer part of a number in range is a 32-bit integer. *)
Lemma inInt32Range_truncate (x : number) :
  inInt32Range x = true -> isInt32 (truncate x) = true.
Proof.
  unfold inInt32Range, Number_gt, Number_lt, Number_compare.
  destruct x as [s | s | | s m e]; try reflexivity.
  intros R; apply negb_true_iff, orb_false_iff in R; destruct R as [G L].
  apply isInt32_true; unfold truncate.
  destruct (0 <=? e) eqn:E.
  - destruct (_ ?= 2 ^ 31 - 1) eqn:C1; try discriminate G;
      destruct (_ ?= - 2 ^ 31) eqn:C2; try discriminate L;
      compare_facts; destruct s; cbn [cond_Zopp] in *; lia.
  - assert (P : 0 < 2 ^ (- e)) by (apply Z.pow_pos_nonneg; lia).
    pose proof (Z.div_mod (Zpos m) (2 ^ (- e)) ltac:(lia)) as D.
    pose proof (Z.mod_pos_bound (Zpos m) (2 ^ (- e)) P) as B.
    set (q := Zpos m / 2 ^ (- e)) in *; set (r := Zpos m mod 2 ^ (- e)) in *.
    set (p := 2 ^ (- e)) in *; clearbody q r p.
    assert (Q : 0 <= q) by nia.
    destruct (_ ?= (2 ^ 31 - 1) * p) eqn:C1; try discriminate G;
      destruct (_ ?= - 2 ^ 31 * p) eqn:C2; try discriminate L;
      compare_facts; destruct s; cbn [cond_Zopp] in *; nia.
Qed.

Section Accounts.
Context `{Platform}.

Lemma legacy_decodeConfig_spec (response : AccountInfo) :
  Legacy.decodeConfig response
  = if 56 <=? len (data response)
    then Ok (legacyConfigRecordOf (data response))
    else Err RangeError.
Proof.
  destruct response as [buf]; cbn [data]; pose proof (len_nonneg buf).
  unfold Legacy.decodeConfig, legacyConfigRecordOf, int32At, readBigInt64LE,
    readDoubleLE, readFloatLE, readInt32LE; cbn [data].
  split_decoder.
Qed.

(** C4.  The token record decoder reads the state at offset 2 and the
    revision flag at offset 3; it then skips 1 byte when that flag is zero and
    9 bytes when it is not, and reads the delegate flag there (offset 4 or
    12).  With a delegate, the address is the 32 bytes after the flag and the
    role is the byte 34 after the flag.  A buffer with state 1, no revision,
    a delegate and role byte 3 decodes to Locked, that delegate, Staking. *)
Theorem decodeTokenRecord_layout :
  (forall resp : AccountInfo,
     let d := data resp in
     let offset := 3 + (if byteAt d 3 =? 0 then 1 else 9) in
     let size := if byteAt d offset =? 0 then offset + 1 else offset + 35 in
     decodeTokenRecord resp
     = if size <=? len d
       then Ok {| state := toSigned 8 (byteAt d 2);
                  delegate :=
                    if byteAt d offset =? 0 then None
                    else Some (bs58_encode (slice d (offset + 1) (offset + 33)));
                  delegateRole :=
                    if byteAt d offset =? 0 then None
                    else Some (toSigned 8 (byteAt d (offset + 34))) |}
       else Err RangeError) /\
  (forall (h0 h1 present gap : byte) (address tail : Buffer),
     length address = 32%nat -> byte.unsigned present <> 0 ->
     decodeTokenRecord
       (mkAccountInfo
          ([h0; h1; Byte.x01; Byte.x00; present] ++ address
             ++ [gap; Byte.x03] ++ tail))
     = Ok {| state := TokenRecordState_value Locked;
             delegate := Some (bs58_encode address);
             delegateRole := Some (DelegateRole_value Staking) |}).
Proof.
  split; [intros resp; apply decodeTokenRecord_spec |].
  intros h0 h1 present gap address tail L P.
  rewrite decodeTokenRecord_spec; cbn [data].
  set (buf := [h0; h1; Byte.x01; Byte.x00; present] ++ address
                ++ [gap; Byte.x03] ++ tail).
  assert (Lb : len buf = 39 + len tail).
  { subst buf; rewrite !len_app; unfold len; rewrite L; cbn [length]; lia. }
  pose proof (len_nonneg tail) as Lt.
  assert (E3 : byteAt buf 3 = 0) by reflexivity.
  assert (Eo : delegateOffset buf = 4) by (unfold delegateOffset; rewrite E3; reflexivity).
  assert (E4 : byteAt buf 4 = byte.unsigned present) by reflexivity.
  assert (Es : slice buf 5 37 = address).
  { subst buf; rewrite slice_skip by (cbn; lia).
    change (5 - len [h0; h1; Byte.x01; Byte.x00; present]) with 0.
    change (37 - len [h0; h1; Byte.x01; Byte.x00; present]) with 32.
    apply slice_prefix; unfold len; rewrite L; reflexivity. }
  assert (E38 : byteAt buf 38 = 3).
  { subst buf; unfold byteAt.
    rewrite app_nth2 by (cbn [length]; lia).
    rewrite app_nth2 by (rewrite L; cbn [length]; lia).
    rewrite L; reflexivity. }
  unfold tokenRecordSize, tokenRecordOf; rewrite Eo, E4.
  change (4 + 1) with 5; change (4 + 33) with 37; change (4 + 34) with 38.
  rewrite Es, E38.
  destruct (byte.unsigned present =? 0) eqn:Ep; [lia |].
  replace (4 + 35 <=? len buf) with true by lia.
  reflexivity.
Qed.

(** C9.  In every token record the decoder returns, the role is absent
    exactly when the delegate is absent. *)
Theorem decodeTokenRecord_role (resp : AccountInfo) (r : TokenRecord) :
  decodeTokenRecord resp = Ok r ->
  (delegateRole r = None <-> delegate r = None).
Proof.
  rewrite decodeTokenRecord_spec.
  destruct (_ <=? _); [| discriminate].
  intros E; apply Ok_inj in E; subst r.
  unfold tokenRecordOf; cbn [delegate delegateRole].
  destruct (byteAt _ _ =? 0); split; intros; congruence.
Qed.

Hypothesis bs58_round_trip : forall b, bs58_decode (bs58_encode b) = Some b.

(** C2, as the code has it.  The client writes instruction payloads, not
    accounts: the 21 bytes of the set-config payload are rejected by the
    decoder of the configuration account.  The set-config instruction is
    built exactly when none of its five fields is above [2^31 - 1] or below
    [-2^31]: for a field that is an integer, when the integer lies in that
    range; [NaN] passes and the infinities do not.  Its payload is the opcode
    byte followed by the integer parts of the five fields (0 for [NaN]) as
    32-bit little-endian integers; placed after a 32-byte authority and a
    32-byte creator, as in the configuration account, those bytes decode to
    these integer parts: to the fields themselves when they are integers, the
    bounds 0, [2^31 - 1] and [-2^31] included.  The wallet string of a
    create-claim payload, when it begins with "0x" and is well formed, comes
    back unchanged from the claim account layout, and the stake record
    decoder inverts the little-endian layout of its three fields. *)
Theorem config_fields_round_trip :
  (forall stale signer creator config,
     succeeds (setConfigInstruction stale signer creator config)
     <-> configInRange config = true /\ succeeds findConfigPda) /\
  (forall (x : number) (z : Z),
     Number_integer x = Some z ->
     (inInt32Range x = true <-> - 2 ^ 31 <= z <= 2 ^ 31 - 1) /\
     truncate x = z) /\
  (forall x : number,
     inInt32Range x = true -> - 2 ^ 31 <= truncate x <= 2 ^ 31 - 1) /\
  (inInt32Range S754_nan = true /\ truncate S754_nan = 0) /\
  (forall s, inInt32Range (S754_infinity s) = false) /\
  (forall stale signer creator config ix authority,
     setConfigInstruction stale signer creator config = Ok ix ->
     length (toBuffer authority) = 32%nat ->
     length (toBuffer creator) = 32%nat ->
     ix_data ix = configPayload config /\
     decodeConfig
       (mkAccountInfo
          (toBuffer authority ++ toBuffer creator ++ sliceFrom (ix_data ix) 1))
     = Ok (mkConfigRecord authority creator
             (truncate (args_claimable_from config))
             (truncate (args_accumulated_reward config))
             (truncate (args_initial_reward config))
             (truncate (args_total_accumulation_period config))
             (truncate (args_generation_duration config)))) /\
  (forall stale signer creator config ix,
     setConfigInstruction stale signer creator config = Ok ix ->
     length (ix_data ix) = 21%nat /\
     decodeConfig (mkAccountInfo (ix_data ix)) = Err InvalidPublicKeyInput) /\
  (forall wallet rest claim_seed ix generation amount owner,
     createClaimInstruction wallet (utf16 "0x" ++ rest) claim_seed = Ok ix ->
     isWellFormed rest = true ->
     length claim_seed = 32%nat ->
     length (toBuffer owner) = 32%nat ->
     isInt32 generation && isInt32 amount = true ->
     decodeClaim
       (mkAccountInfo
          (le_split 4 generation ++ le_split 4 amount ++ toBuffer owner
             ++ sliceFrom (ix_data ix) 34))
     = Ok (mkClaimRecord generation amount owner (utf16 "0x" ++ rest))) /\
  (forall claimed total last rest,
     isInt32 claimed && isInt32 total && isInt32 last = true ->
     decodeNft
       (mkAccountInfo
          (le_split 4 claimed ++ le_split 4 total ++ le_split 4 last ++ rest))
     = Ok (mkNftRecord claimed total last)) /\
  (forall z, Z.abs z < 2 ^ 53 -> Number_integer (Number_ofZ z) = Some z).
Proof.
  split; [| split; [| split; [| split; [| split; [| split; [| split; [| split; [| split]]]]]]]].
  - intros stale signer creator config.
    rewrite setConfigInstruction_spec.
    destruct (configInRange config).
    + destruct findConfigPda as [[pda bump] | e]; cbn [bind]; split.
      * intros _; split; [reflexivity | apply succeeds_Ok].
      * intros _; apply succeeds_Ok.
      * intros S; exfalso; revert S; apply succeeds_Err.
      * intros [_ S]; exfalso; revert S; apply succeeds_Err.
    + split.
      * intros S; exfalso; revert S; apply succeeds_Err.
      * intros [C _]; discriminate C.
  - intros x z Hx; split; [| apply truncate_integer; exact Hx].
    rewrite (inInt32Range_integer x z Hx); apply isInt32_true.
  - intros x R; apply isInt32_true, inInt32Range_truncate; exact R.
  - split; reflexivity.
  - intros [|]; reflexivity.
  - intros stale signer creator config ix authority E La Lc.
    rewrite setConfigInstruction_spec in E.
    destruct (configInRange config) eqn:R; [| discriminate E].
    apply bind_Ok in E; destruct E as ([pda bump] & _ & E).
    apply Ok_inj in E; subst ix; cbn [ix_data].
    split; [reflexivity |].
    unfold configPayload; rewrite sliceFrom_skip by reflexivity.
    destruct authority as [a], creator as [c]; cbn [toBuffer] in *.
    rewrite <- (app_nil_r (le_split 4 (truncate (args_generation_duration config)))).
    apply decodeConfig_layout; try assumption.
    unfold configInRange in R.
    repeat (apply andb_true_iff in R; destruct R as [R ?]).
    rewrite !inInt32Range_truncate by assumption; reflexivity.
  - intros stale signer creator config ix E.
    rewrite setConfigInstruction_spec in E.
    destruct (configInRange config); [| discriminate E].
    apply bind_Ok in E; destruct E as ([pda bump] & _ & E).
    apply Ok_inj in E; subst ix; cbn [ix_data].
    assert (L : length (configPayload config) = 21%nat)
      by (unfold configPayload; rewrite !length_app, !length_le_split; reflexivity).
    split; [exact L |].
    rewrite (decodeConfig_spec bs58_round_trip); cbn [data]; unfold len.
    rewrite L; reflexivity.
  - intros wallet rest claim_seed ix generation amount owner E W Ls Lo R.
    apply createClaimInstruction_Ok in E.
    destruct E as (claim & bump & _ & D & _).
    rewrite D, string_slice_0x.
    rewrite (app_assoc _ claim_seed), sliceFrom_skip
      by (rewrite len_app; unfold len; rewrite Ls; reflexivity).
    destruct owner as [o]; cbn [toBuffer] in *.
    rewrite decodeClaim_layout by assumption.
    rewrite utf8Slice_encode by exact W; reflexivity.
  - intros claimed total last rest R; apply decodeNft_layout; assumption.
  - apply Number_integer_ofZ.
Qed.

(** C3, as the code has it.  Every decoder rejects an account shorter than
    what it reads, with a range error or an invalid-public-key error, and
    accepts every account at least that long: 84 bytes for the configuration,
    12 for a stake record, 40 for a claim, and for a token record the size its
    two flags call for (5, 13, 39 or 47 bytes).  A 79-byte configuration
    account is rejected, and so is one of 80 to 83 bytes. *)
Theorem short_account_rejected (connection : Connection) (acc : PublicKey)
    (d : Buffer) :
  connection acc = Some d ->
  ((len d < 84 ->
    exists e, parseConfig connection acc = Err e /\ LayoutError e) /\
   (84 <= len d -> succeeds (parseConfig connection acc))) /\
  ((len d < 12 ->
    exists e, parseNft connection acc = Err e /\ LayoutError e) /\
   (12 <= len d -> succeeds (parseNft connection acc))) /\
  ((len d < 40 ->
    exists e, parseClaim connection acc = Err e /\ LayoutError e) /\
   (40 <= len d -> succeeds (parseClaim connection acc))) /\
  ((len d < tokenRecordSize d ->
    exists e, parseTokenRecord connection acc = Err e /\ LayoutError e) /\
   (tokenRecordSize d <= len d -> succeeds (parseTokenRecord connection acc)) /\
   5 <= tokenRecordSize d).
Proof.
  intros Hd.
  unfold parseConfig, parseNft, parseClaim, parseTokenRecord, getAccountInfo.
  rewrite Hd; cbn [bind].
  rewrite decodeConfig_spec, decodeNft_spec, decodeClaim_spec,
    decodeTokenRecord_spec by assumption; cbn [data].
  unfold LayoutError.
  repeat split; try exact (tokenRecordSize_min d); intros L;
    repeat match goal with
      | |- context [if ?c then _ else _] => destruct c eqn:?
      end;
    try lia; try apply succeeds_Ok; eexists; split; (reflexivity || tauto).
Qed.

(** C8.  The legacy configuration decoder and the current one read
    different layouts: the legacy one reads a 64-bit integer at offset 32, a
    double at 40, a float at 48 and a 32-bit integer at 52 (56 bytes in all);
    the current one reads two 32-byte addresses and five 32-bit integers at
    offsets 64 to 80 (84 bytes in all).  On one and the same account they
    return different claim dates, and a 56-byte account is accepted by the
    legacy decoder and rejected by the current one. *)
Theorem legacy_config_layout_differs :
  (forall response : AccountInfo,
     let d := data response in
     Legacy.decodeConfig response
     = if 56 <=? len d
       then Ok {| Legacy.authority := bs58_encode (slice d 0 32);
                  Legacy.claimable_from :=
                    Legacy.Date_of_seconds
                      (toSigned 64 (le_combine (bytesAt d 32 8)));
                  Legacy.total_reward :=
                    decodeFloat 11 52 (le_combine (bytesAt d 40 8));
                  Legacy.initial_reward_frac :=
                    decodeFloat 8 23 (le_combine (bytesAt d 48 4));
                  Legacy.reward_period_sec :=
                    toSigned 32 (le_combine (bytesAt d 52 4)) |}
       else Err RangeError) /\
  (forall resp : AccountInfo,
     let d := data resp in
     decodeConfig resp
     = if 84 <=? len d
       then Ok {| authority := mkPublicKey (slice d 0 32);
                  creator := mkPublicKey (slice d 32 64);
                  claimable_from := toSigned 32 (le_combine (bytesAt d 64 4));
                  accumulated_reward := toSigned 32 (le_combine (bytesAt d 68 4));
                  initial_reward := toSigned 32 (le_combine (bytesAt d 72 4));
                  accumulation_duration :=
                    toSigned 32 (le_combine (bytesAt d 76 4));
                  generation_duration :=
                    toSigned 32 (le_combine (bytesAt d 80 4)) |}
       else if len d <? 64 then Err InvalidPublicKeyInput
       else Err RangeError) /\
  (exists resp legacy primary,
     Legacy.decodeConfig resp = Ok legacy /\
     decodeConfig resp = Ok primary /\
     Legacy.claimable_from legacy = Legacy.ValidDate 5000 /\
     claimable_from primary = 7 /\
     Legacy.claimable_from legacy
     <> Legacy.Date_of_seconds (claimable_from primary)) /\
  (exists resp,
     succeeds (Legacy.decodeConfig resp) /\ fails (decodeConfig resp)).
Proof.
  split; [intros response; apply legacy_decodeConfig_spec |].
  split; [intros resp; apply decodeConfig_spec; assumption |].
  split.
  - exists (mkAccountInfo Sample.legacyConfigData).
    eexists; eexists.
    rewrite legacy_decodeConfig_spec, decodeConfig_spec by assumption.
    split; [reflexivity |].
    split; [reflexivity |].
    split; [reflexivity |].
    split; [reflexivity |].
    discriminate.
  - exists (mkAccountInfo (firstn 56 Sample.legacyConfigData)).
    rewrite legacy_decodeConfig_spec, decodeConfig_spec by assumption.
    split; [apply succeeds_Ok | eexists; reflexivity].
Qed.
End Accounts.

(** ** The other builders and transactions *)

Lemma approve_payload (buf : Buffer) :
  length buf = 11%nat ->
  (d <- writeInt8 buf MPL_INSTRUCTIONS.delegate 0 ;;
   d <- writeInt8 d MPL_DELEGATE_TYPES.staking 1 ;;
   d <- writeBigInt64LE d 1 2 ;;
   d <- writeInt8 d 0 10 ;;
   Ok d)
  = Ok (Uint8Array_of [44; 5; 1; 0; 0; 0; 0; 0; 0; 0; 0]).
Proof.
  intros L.
  do 11 (destruct buf as [| ? buf]; [discriminate L |]).
  destruct buf; [clear L | discriminate L].
  reflexivity.
Qed.

Lemma mapMi_Forall {A B : Type} (f : nat -> A -> result B) (Q : B -> Prop) :
  (forall k a b, f k a = Ok b -> Q b) ->
  forall l k bs, mapMi f k l = Ok bs -> Forall Q bs /\ length bs = length l.
Proof.
  intros HQ; induction l as [| a l IH]; intros k bs E; cbn [mapMi] in E.
  - apply Ok_inj in E; subst; split; [constructor | reflexivity].
  - apply bind_Ok in E; destruct E as (b & Eb & E).
    apply bind_Ok in E; destruct E as (bs' & Ebs & E).
    apply Ok_inj in E; subst bs.
    destruct (IH _ _ Ebs) as [F L].
    split; [constructor; eauto | cbn; congruence].
Qed.

Lemma mapM_Forall {A B : Type} (f : A -> result B) (Q : B -> Prop) :
  (forall a b, f a = Ok b -> Q b) ->
  forall l bs, mapM f l = Ok bs -> Forall Q bs /\ length bs = length l.
Proof.
  intros HQ l bs E; apply mapM_Ok in E; split.
  - eapply Forall2_Forall_r; [| exact E]; exact HQ.
  - eapply Forall2_length_eq; exact E.
Qed.

Section Others.
Context `{Platform}.

Lemma delegateApproveInstruction_spec (stale : Buffer)
    (mint wallet payer delegate : PublicKey) :
  delegateApproveInstruction stale mint wallet payer delegate
  = ('(token_acc, _) <- findTokenAccountPda mint wallet ;;
     '(metadata_acc, _) <- findMetadataAccountPda mint ;;
     '(master_edition_acc, _) <- findMasterEditionAccountPda mint ;;
     '(token_rec, _) <- findTokenRecordPda mint token_acc ;;
     Ok {| ix_data := Uint8Array_of [44; 5; 1; 0; 0; 0; 0; 0; 0; 0; 0];
           keys :=
             [ MPL_EMPTY_ACCOUNT;
               mkAccountMeta delegate false false;
               mkAccountMeta metadata_acc false true;
               mkAccountMeta master_edition_acc false false;
               mkAccountMeta token_rec false true;
               mkAccountMeta mint false false;
               mkAccountMeta token_acc false true;
               mkAccountMeta wallet true false;
               mkAccountMeta payer true false;
               mkAccountMeta SystemProgram_programId false false;
               mkAccountMeta SYSVAR_INSTRUCTIONS_PUBKEY false false;
               mkAccountMeta PID.TOKEN false false;
               MPL_EMPTY_ACCOUNT;
               MPL_EMPTY_ACCOUNT ];
           programId := PID.MPL_TOKEN_METADATA |}).
Proof.
  unfold delegateApproveInstruction.
  pose proof (approve_payload (allocUnsafe stale 11) (length_allocUnsafe stale _)) as P.
  set (buf := allocUnsafe stale 11) in *.
  destruct (writeInt8 buf _ 0) as [d0 |]; cbn [bind] in *; [| discriminate P].
  destruct (writeInt8 d0 _ 1) as [d1 |]; cbn [bind] in *; [| discriminate P].
  destruct (writeBigInt64LE d1 1 2) as [d2 |]; cbn [bind] in *; [| discriminate P].
  destruct (writeInt8 d2 0 10) as [d3 |]; cbn [bind] in *; [| discriminate P].
  apply Ok_inj in P; subst d3; reflexivity.
Qed.

(** X1.  The set-config instruction does not depend on what the
    uninitialised buffer held: all 21 bytes of the payload are written, the
    opcode 0 and the integer parts of the five fields in little-endian
    order. *)
Theorem setConfigInstruction_ignores_stale_memory (stale stale' : Buffer)
    (signer creator : PublicKey) (config : ConfigArgs) :
  setConfigInstruction stale signer creator config
  = setConfigInstruction stale' signer creator config /\
  forall ix,
    setConfigInstruction stale signer creator config = Ok ix ->
    length (ix_data ix) = 21%nat /\
    payload ix
    = [0] ++ map byte.unsigned
               (le_split 4 (truncate (args_claimable_from config))
                  ++ le_split 4 (truncate (args_accumulated_reward config))
                  ++ le_split 4 (truncate (args_initial_reward config))
                  ++ le_split 4 (truncate (args_total_accumulation_period config))
                  ++ le_split 4 (truncate (args_generation_duration config))).
Proof.
  rewrite !setConfigInstruction_spec; split; [reflexivity |].
  intros ix E.
  destruct (configInRange config); [| discriminate E].
  bind_inv E; subst ix; unfold payload; cbn [ix_data].
  unfold configPayload; rewrite !length_app, !length_le_split.
  split; reflexivity.
Qed.

(** X2.  The delegate instruction does not depend on what the
    uninitialised buffer held: its payload is always the 11 bytes 44, 5, the
    amount 1 as a 64-bit little-endian integer, and 0. *)
Theorem delegateApproveInstruction_payload (stale stale' : Buffer)
    (mint wallet payer delegate : PublicKey) :
  delegateApproveInstruction stale mint wallet payer delegate
  = delegateApproveInstruction stale' mint wallet payer delegate /\
  forall ix,
    delegateApproveInstruction stale mint wallet payer delegate = Ok ix ->
    payload ix = [44; 5; 1; 0; 0; 0; 0; 0; 0; 0; 0].
Proof.
  rewrite !delegateApproveInstruction_spec; split; [reflexivity |].
  intros ix E; bind_inv E; subst ix; reflexivity.
Qed.

(** X3.  Unlocking mirrors locking and revoking mirrors delegating: on the
    same arguments the two builders of a pair succeed together and name the
    same accounts, with the same flags and order, for the same program; only
    the payloads differ (46,0,0 and 47,0,0; 45,5 for revoke). *)
Theorem unlock_mirrors_lock (mint wallet payer delegate : PublicKey) :
  (succeeds (lockInstruction mint wallet payer delegate)
   <-> succeeds (unlockInstruction mint wallet payer delegate)) /\
  (forall stale,
     succeeds (delegateApproveInstruction stale mint wallet payer delegate)
     <-> succeeds (delegateRevokeInstruction mint wallet payer delegate)) /\
  (forall l u,
     lockInstruction mint wallet payer delegate = Ok l ->
     unlockInstruction mint wallet payer delegate = Ok u ->
     keys u = keys l /\ programId u = programId l /\
     payload l = [46; 0; 0] /\ payload u = [47; 0; 0]) /\
  (forall stale a r,
     delegateApproveInstruction stale mint wallet payer delegate = Ok a ->
     delegateRevokeInstruction mint wallet payer delegate = Ok r ->
     keys r = keys a /\ programId r = programId a /\
     payload r = [45; 5]).
Proof.
  split; [| split; [| split]].
  - split; intros [l E];
      [unfold lockInstruction in E; unfold unlockInstruction
      | unfold unlockInstruction in E; unfold lockInstruction];
      bind_inv E; replay; apply succeeds_Ok.
  - intros stale; rewrite delegateApproveInstruction_spec.
    split; intros [l E];
      [unfold delegateRevokeInstruction
      | unfold delegateRevokeInstruction in E];
      bind_inv E; replay; apply succeeds_Ok.
  - intros l u El Eu.
    unfold lockInstruction in El; unfold unlockInstruction in Eu.
    bind_inv El; replay_in Eu; apply Ok_inj in Eu; subst; repeat split.
  - intros stale a r Ea Er.
    rewrite delegateApproveInstruction_spec in Ea.
    unfold delegateRevokeInstruction in Er.
    bind_inv Ea; replay_in Er; apply Ok_inj in Er; subst; repeat split.
Qed.

Lemma bump_byte (seeds : list Buffer) (programId address : PublicKey) (bump : Z) :
  findProgramAddressSync seeds programId = Ok (address, bump) ->
  byte.unsigned (byte.of_Z bump) = bump.
Proof.
  intros E; apply findProgramAddressSync_Derived in E; destruct E as (R & _).
  rewrite byte.unsigned_of_Z; unfold byte.wrap; apply Z.mod_small; lia.
Qed.

(** X4.  The builders agree on the derived accounts of a mint: the token
    account and the token record a claim reads are the ones the lock
    instruction of the same wallet and mint locks, and the stake record and
    the configuration account a claim uses are the ones the register
    instruction of that mint names. *)
Theorem claim_accounts_agree (wallet mint signer payer delegate : PublicKey)
    (claim_seed : Buffer) (c l r : TransactionInstruction) :
  claimInstruction wallet mint claim_seed = Ok c ->
  lockInstruction mint wallet payer delegate = Ok l ->
  registerNftInstruction signer mint = Ok r ->
  (exists token token_record nft_record config,
     account c 1 = Some token /\ account l 2 = Some token /\
     account c 2 = Some token_record /\ account l 6 = Some token_record /\
     account c 3 = Some nft_record /\ account r 4 = Some nft_record /\
     account c 5 = Some config /\ account r 5 = Some config) /\
  account l 3 = Some mint /\ account r 1 = Some mint.
Proof.
  intros Ec El Er.
  unfold claimInstruction in Ec; unfold lockInstruction in El;
    unfold registerNftInstruction in Er.
  bind_inv Ec; replay_in El; replay_in Er.
  bind_inv El; replay_in Er.
  bind_inv Er; subst.
  split; [| split; reflexivity].
  repeat eexists; reflexivity.
Qed.

(** X5.  The bump bytes of the claim payloads are the derived bumps
    themselves (a bump lies in 0 .. 255, so storing it in a byte loses
    nothing): the execute-claim payload is 4 followed by the bumps of the
    token account, the token record and the stake record, and the
    create-claim payload is 3, the bump of the claim address, the seed and the
    wallet text without its first two characters. *)
Theorem payload_bumps_exact (wallet mint : PublicKey) (claim_seed : Buffer) :
  (forall ix,
     claimInstruction wallet mint claim_seed = Ok ix ->
     exists nft nft_bump token token_bump token_record token_record_bump,
       findNftPda mint = Ok (nft, nft_bump) /\
       findTokenAccountPda mint wallet = Ok (token, token_bump) /\
       findTokenRecordPda mint token = Ok (token_record, token_record_bump) /\
       payload ix = [4; token_bump; token_record_bump; nft_bump]) /\
  (forall bnb ix,
     createClaimInstruction wallet bnb claim_seed = Ok ix ->
     exists claim bump,
       findClaimPda wallet claim_seed = Ok (claim, bump) /\
       payload ix
       = [3; bump] ++ map byte.unsigned claim_seed
           ++ map byte.unsigned (TextEncoder_encode (string_slice bnb 2))).
Proof.
  split.
  - intros ix E; unfold claimInstruction in E; bind_inv E; subst ix.
    do 6 eexists; repeat (split; [eassumption |]).
    unfold payload, Uint8Array_of; cbn [ix_data map].
    unfold findNftPda, findTokenAccountPda, findTokenRecordPda in *.
    repeat match goal with
      | E : findProgramAddressSync _ _ = Ok (_, ?b) |- context [byte.of_Z ?b] =>
          rewrite (bump_byte _ _ _ _ E)
      end.
    reflexivity.
  - intros bnb ix E.
    destruct (createClaimInstruction_Ok _ _ _ _ E) as (claim & bump & Ep & D & _).
    exists claim, bump; split; [exact Ep |].
    unfold payload; rewrite D, !map_app; cbn [map].
    unfold findClaimPda in Ep; rewrite (bump_byte _ _ _ _ Ep); reflexivity.
Qed.

Lemma signedBy_builders (stale : Buffer) (key other mint : PublicKey)
    (config : ConfigArgs) (bnb : JSString) (claim_seed : Buffer)
    (ix : TransactionInstruction) :
  setConfigInstruction stale key other config = Ok ix \/
  deleteAccountInstruction key other = Ok ix \/
  registerNftInstruction key mint = Ok ix \/
  createClaimInstruction key bnb claim_seed = Ok ix \/
  claimInstruction key mint claim_seed = Ok ix \/
  delegateApproveInstruction stale mint key key key = Ok ix \/
  delegateRevokeInstruction mint key key key = Ok ix \/
  lockInstruction mint key key key = Ok ix \/
  unlockInstruction mint key key key = Ok ix ->
  signedBy key ix.
Proof.
  rewrite setConfigInstruction_spec, delegateApproveInstruction_spec.
  unfold deleteAccountInstruction, registerNftInstruction,
    createClaimInstruction, claimInstruction, delegateRevokeInstruction,
    lockInstruction, unlockInstruction, signedBy.
  intros [E | [E | [E | [E | [E | [E | [E | [E | E]]]]]]]];
    try (destruct (configInRange config); [| discriminate E]);
    bind_inv E; subst ix; cbn [keys];
    repeat constructor; cbn; intros S; (reflexivity || discriminate S).
Qed.

(** X6.  Every request the transaction functions issue is signed by the
    payer alone, who also pays the fee, and no instruction in it marks any
    other account as signer. *)
Theorem requests_signed_by_payer (connection : Connection) (payer : Keypair)
    (request : SendRequest) :
  (forall stale creator config,
     setConfig stale connection payer creator config = Ok request ->
     signedByPayer payer request) /\
  (forall acc,
     deleteAccount connection payer acc = Ok request ->
     signedByPayer payer request) /\
  (forall mint,
     registerNft connection payer mint = Ok request ->
     signedByPayer payer request) /\
  (forall mints bnb luts g,
     fst (claimReward connection payer mints bnb luts g) = Ok request ->
     signedByPayer payer request) /\
  (forall stale mints luts,
     delegateAndLock stale connection payer mints luts = Ok request ->
     signedByPayer payer request) /\
  (forall mints luts,
     revokeAndUnlock connection payer mints luts = Ok request ->
     signedByPayer payer request).
Proof.
  pose proof (fun stale other mint config bnb seed ix =>
                signedBy_builders stale (publicKey payer) other mint config bnb
                  seed ix) as S.
  assert (D : ConfigArgs)
    by exact (mkConfigArgs S754_nan S754_nan S754_nan S754_nan S754_nan).
  unfold signedByPayer.
  split; [| split; [| split; [| split; [| split]]]].
  - intros stale creator config E; unfold setConfig in E.
    bind_inv E; subst request; cbn.
    repeat split; constructor; [| constructor].
    apply (S stale creator creator config (@nil Z) []); tauto.
  - intros acc E; unfold deleteAccount in E.
    bind_inv E; subst request; cbn.
    repeat split; constructor; [| constructor].
    apply (S [] acc acc D (@nil Z) []); tauto.
  - intros mint E; unfold registerNft in E.
    bind_inv E; subst request; cbn.
    repeat split; constructor; [| constructor].
    apply (S [] mint mint D (@nil Z) []); tauto.
  - intros mints bnb luts g E; unfold claimReward in E.
    destruct (randomBytes 32 g) as [seed g']; cbn [fst] in E.
    apply bind_Ok in E; destruct E as (create & Ec & E).
    apply bind_Ok in E; destruct E as (registers & Er & E).
    apply bind_Ok in E; destruct E as (claims & Ek & E).
    apply Ok_inj in E; subst request; cbn.
    repeat split.
    constructor; [apply (S [] (publicKey payer) (publicKey payer) D bnb seed); tauto |].
    apply Forall_app; split.
    + refine (proj1 (mapM_Forall _ (signedBy (publicKey payer)) _ _ _ Er)).
      intros a b Eb; apply (S [] a a D (@nil Z) [] b); tauto.
    + refine (proj1 (mapM_Forall _ (signedBy (publicKey payer)) _ _ _ Ek)).
      intros a b Eb; apply (S [] a a D (@nil Z) seed b); tauto.
  - intros stale mints luts E; unfold delegateAndLock in E.
    apply bind_Ok in E; destruct E as (approves & Ea & E).
    apply bind_Ok in E; destruct E as (locks & El & E).
    apply Ok_inj in E; subst request; cbn.
    repeat split; apply Forall_app; split.
    + refine (proj1 (mapMi_Forall _ (signedBy (publicKey payer)) _ _ _ _ Ea)).
      intros k a b Eb; apply (S (stale k) a a D (@nil Z) [] b); tauto.
    + refine (proj1 (mapM_Forall _ (signedBy (publicKey payer)) _ _ _ El)).
      intros a b Eb; apply (S [] a a D (@nil Z) [] b); tauto.
  - intros mints luts E; unfold revokeAndUnlock in E.
    apply bind_Ok in E; destruct E as (unlocks & Eu & E).
    apply bind_Ok in E; destruct E as (revokes & Er & E).
    apply Ok_inj in E; subst request; cbn.
    repeat split; apply Forall_app; split.
    + refine (proj1 (mapM_Forall _ (signedBy (publicKey payer)) _ _ _ Eu)).
      intros a b Eb; apply (S [] a a D (@nil Z) [] b); tauto.
    + refine (proj1 (mapM_Forall _ (signedBy (publicKey payer)) _ _ _ Er)).
      intros a b Eb; apply (S [] a a D (@nil Z) [] b); tauto.
Qed.

Lemma mapMi_succeeds {A B : Type} (f : nat -> A -> result B) (g : A -> Prop) :
  (forall k a, succeeds (f k a) <-> g a) ->
  forall l k, succeeds (mapMi f k l) <-> Forall g l.
Proof.
  intros Hf; induction l as [| a l IH]; intros k; cbn [mapMi].
  - split; [constructor | intros _; apply succeeds_Ok].
  - split.
    + intros [bs E].
      apply bind_Ok in E; destruct E as (b & Eb & E).
      apply bind_Ok in E; destruct E as (bs' & Ebs & _).
      constructor; [apply (Hf k); exists b; exact Eb |].
      apply (IH (S k)); exists bs'; exact Ebs.
    + intros F; inversion F as [| a' l' Ga F']; subst.
      apply (Hf k) in Ga; destruct Ga as [b Eb].
      apply (IH (S k)) in F'; destruct F' as [bs Ebs].
      rewrite Eb, Ebs; cbn; apply succeeds_Ok.
Qed.

Lemma approve_succeeds_iff_lock (stale : Buffer)
    (mint wallet payer delegate : PublicKey) :
  succeeds (delegateApproveInstruction stale mint wallet payer delegate)
  <-> succeeds (lockInstruction mint wallet payer delegate).
Proof.
  rewrite delegateApproveInstruction_spec.
  split; intros [l E];
    [unfold lockInstruction | unfold lockInstruction in E];
    bind_inv E; replay; apply succeeds_Ok.
Qed.

Lemma revoke_succeeds_iff_lock (mint wallet payer delegate : PublicKey) :
  succeeds (delegateRevokeInstruction mint wallet payer delegate)
  <-> succeeds (lockInstruction mint wallet payer delegate).
Proof.
  split; intros [l E];
    [unfold delegateRevokeInstruction in E; unfold lockInstruction
    | unfold lockInstruction in E; unfold delegateRevokeInstruction];
    bind_inv E; replay; apply succeeds_Ok.
Qed.

Lemma unlock_succeeds_iff_lock (mint wallet payer delegate : PublicKey) :
  succeeds (unlockInstruction mint wallet payer delegate)
  <-> succeeds (lockInstruction mint wallet payer delegate).
Proof.
  split; intros [l E];
    [unfold unlockInstruction in E; unfold lockInstruction
    | unfold lockInstruction in E; unfold unlockInstruction];
    bind_inv E; replay; apply succeeds_Ok.
Qed.

Lemma bind_succeeds {A B : Type} (r : result A) (k : A -> result B) :
  (forall a, succeeds (k a)) -> (succeeds (bind r k) <-> succeeds r).
Proof.
  intros Hk; destruct r as [a | e]; cbn [bind].
  - split; intros _; [apply succeeds_Ok | apply Hk].
  - split; intros S; exfalso; revert S; apply succeeds_Err.
Qed.

Lemma bind_succeeds_and {A B : Type} (r : result A) (k : A -> result B) (P : Prop) :
  (forall a, succeeds (k a) <-> P) -> (succeeds (bind r k) <-> succeeds r /\ P).
Proof.
  intros Hk; destruct r as [a | e]; cbn [bind].
  - rewrite Hk; split; [intros p; split; [apply succeeds_Ok | exact p] | tauto].
  - split; [intros S | intros [S _]]; exfalso; revert S; apply succeeds_Err.
Qed.

(** X7.  [delegateAndLock] sends one delegate instruction per mint followed
    by one lock instruction per mint, and passes the lookup tables on;
    [revokeAndUnlock] sends one unlock per mint followed by one revoke per
    mint and sends no lookup tables, whatever it was given.  The two succeed
    on the same lists of mints, and an empty list gives a request without
    instructions. *)
Theorem lock_and_unlock_batches (connection : Connection) (payer : Keypair)
    (mints : list PublicKey) (tables : option (list AddressLookupTableAccount)) :
  (forall stale request,
     delegateAndLock stale connection payer mints tables = Ok request ->
     exists approves locks,
       instructions (msg request) = approves ++ locks /\
       length approves = length mints /\ length locks = length mints /\
       Forall (fun ix => payload ix = [44; 5; 1; 0; 0; 0; 0; 0; 0; 0; 0]) approves /\
       Forall (fun ix => payload ix = [46; 0; 0]) locks /\
       luts request = tables) /\
  (forall request,
     revokeAndUnlock connection payer mints tables = Ok request ->
     exists unlocks revokes,
       instructions (msg request) = unlocks ++ revokes /\
       length unlocks = length mints /\ length revokes = length mints /\
       Forall (fun ix => payload ix = [47; 0; 0]) unlocks /\
       Forall (fun ix => payload ix = [45; 5]) revokes /\
       luts request = None) /\
  (forall stale,
     succeeds (delegateAndLock stale connection payer mints tables)
     <-> succeeds (revokeAndUnlock connection payer mints tables)) /\
  (mints = [] ->
   forall stale request,
     delegateAndLock stale connection payer mints tables = Ok request ->
     instructions (msg request) = []).
Proof.
  split; [| split; [| split]].
  - intros stale request E; unfold delegateAndLock in E.
    apply bind_Ok in E; destruct E as (approves & Ea & E).
    apply bind_Ok in E; destruct E as (locks & El & E).
    apply Ok_inj in E; subst request; cbn.
    exists approves, locks.
    refine ((fun A L => _)
              (mapMi_Forall _ (fun ix => payload ix = [44; 5; 1; 0; 0; 0; 0; 0; 0; 0; 0])
                 _ _ _ _ Ea)
              (mapM_Forall _ (fun ix => payload ix = [46; 0; 0]) _ _ _ El)).
    + tauto.
    + intros k a b Eb; cbv beta in Eb.
      rewrite delegateApproveInstruction_spec in Eb.
      bind_inv Eb; subst b; reflexivity.
    + intros a b Eb; cbv beta in Eb; unfold lockInstruction in Eb.
      bind_inv Eb; subst b; reflexivity.
  - intros request E; unfold revokeAndUnlock in E.
    apply bind_Ok in E; destruct E as (unlocks & Eu & E).
    apply bind_Ok in E; destruct E as (revokes & Er & E).
    apply Ok_inj in E; subst request; cbn.
    exists unlocks, revokes.
    refine ((fun U R => _)
              (mapM_Forall _ (fun ix => payload ix = [47; 0; 0]) _ _ _ Eu)
              (mapM_Forall _ (fun ix => payload ix = [45; 5]) _ _ _ Er)).
    + tauto.
    + intros a b Eb; cbv beta in Eb; unfold unlockInstruction in Eb.
      bind_inv Eb; subst b; reflexivity.
    + intros a b Eb; cbv beta in Eb; unfold delegateRevokeInstruction in Eb.
      bind_inv Eb; subst b; reflexivity.
  - intros stale; unfold delegateAndLock, revokeAndUnlock.
    set (key := publicKey payer).
    set (lockable := fun mint => succeeds (lockInstruction mint key key key)).
    assert (E1 : forall R : Prop,
               (R <-> Forall lockable mints /\ Forall lockable mints) ->
               (R <-> Forall lockable mints)) by tauto.
    rewrite bind_succeeds_and
      with (P := Forall lockable mints).
    2: { intros approves; rewrite bind_succeeds by (intros; apply succeeds_Ok).
         apply mapM_succeeds. }
    rewrite (mapMi_succeeds _ lockable)
      by (intros k a; apply approve_succeeds_iff_lock).
    rewrite bind_succeeds_and
      with (r := mapM (fun mint => unlockInstruction mint key key key) mints)
           (P := Forall lockable mints).
    2: { intros unlocks; rewrite bind_succeeds by (intros; apply succeeds_Ok).
         rewrite mapM_succeeds.
         split; apply Forall_impl; intros a; apply revoke_succeeds_iff_lock. }
    rewrite mapM_succeeds.
    assert (U : Forall (fun a => succeeds (unlockInstruction a key key key)) mints
                <-> Forall lockable mints)
      by (split; apply Forall_impl; intros a; apply unlock_succeeds_iff_lock).
    tauto.
  - intros -> stale request E; cbn in E.
    apply Ok_inj in E; subst request; reflexivity.
Qed.
End Others.

(** ** Missing and malformed accounts *)

Lemma toSigned8_one (buf : Buffer) (i : Z) :
  (toSigned 8 (byteAt buf i) =? 1) = (byteAt buf i =? 1).
Proof.
  unfold byteAt; set (b := nth (Z.to_nat i) buf Byte.x00).
  pose proof (byte.unsigned_range b) as R; unfold toSigned.
  change (2 ^ (8 - 1)) with 128; change (2 ^ 8) with 256 in *.
  destruct (byte.unsigned b <? 128) eqn:E; [reflexivity |].
  apply Z.ltb_ge in E.
  destruct (byte.unsigned b - 256 =? 1) eqn:E1, (byte.unsigned b =? 1) eqn:E2; lia.
Qed.

Lemma int32_buffer (buf : Buffer) (x : number) :
  length buf = 4%nat ->
  writeInt32LE buf x 0
  = if inInt32Range x then Ok (le_split 4 (truncate x)) else Err RangeError.
Proof.
  intros L.
  do 4 (destruct buf as [| ? buf]; [discriminate L |]).
  destruct buf; [clear L | discriminate L].
  unfold inInt32Range, writeInt32LE, splice, inBounds, len.
  generalize (truncate x).
  generalize (Number_gt x (2 ^ 31 - 1) || Number_lt x (- 2 ^ 31)).
  intros r t; cbv [le_split]; cbn.
  destruct r; reflexivity.
Qed.

Lemma int32At_range (buf : Buffer) (offset : Z) :
  - 2 ^ 31 <= int32At buf offset <= 2 ^ 31 - 1.
Proof.
  unfold int32At, toSigned.
  pose proof (le_combine_bound (bytesAt buf offset 4)) as B.
  assert (L : (length (bytesAt buf offset 4) <= 4)%nat)
    by (unfold bytesAt; rewrite length_firstn; lia).
  assert (P : 2 ^ (8 * Z.of_nat (length (bytesAt buf offset 4))) <= 2 ^ 32)
    by (apply Z.pow_le_mono_r; lia).
  change (2 ^ (32 - 1)) with (2 ^ 31).
  destruct (le_combine (bytesAt buf offset 4) <? 2 ^ 31) eqn:E; lia.
Qed.

Lemma forallb_slice {A : Type} (f : A -> bool) (l : list A) (start stop : Z) :
  forallb f l = true -> forallb f (slice l start stop) = true.
Proof.
  unfold slice; rewrite !forallb_forall; intros F x Hin; apply F.
  rewrite <- (firstn_skipn (Z.to_nat (relativeIndex (len l) start)) l).
  apply in_or_app; right.
  match type of Hin with
  | In _ (firstn ?n ?r) => rewrite <- (firstn_skipn n r)
  end.
  apply in_or_app; left; exact Hin.
Qed.

Lemma length_sliceFrom {A : Type} (l : list A) (start : Z) :
  0 <= start ->
  length (sliceFrom l start) = Z.to_nat (Z.max 0 (len l - start)).
Proof.
  intros Hs; pose proof (len_nonneg l) as Hl.
  unfold sliceFrom, slice, relativeIndex.
  destruct (start <? 0) eqn:E1; [lia |].
  destruct (len l <? 0) eqn:E2; [lia |].
  rewrite length_firstn, length_skipn; unfold len in *; lia.
Qed.

Lemma toSigned64_zero (u : Z) :
  0 <= u < 2 ^ 64 -> (toSigned 64 u = 0 <-> u = 0).
Proof.
  intros R; unfold toSigned.
  change (2 ^ (64 - 1)) with 9223372036854775808.
  change (2 ^ 64) with 18446744073709551616 in *.
  destruct (u <? 9223372036854775808) eqn:E; lia.
Qed.

Section Missing.
Context `{Platform}.

Lemma decoders_never_uninitialized (resp : AccountInfo) :
  decodeConfig resp <> Err UninitializedAccount /\
  decodeNft resp <> Err UninitializedAccount /\
  decodeClaim resp <> Err UninitializedAccount /\
  decodeTokenRecord resp <> Err UninitializedAccount.
Proof.
  rewrite decodeNft_spec, decodeTokenRecord_spec.
  unfold decodeConfig, decodeClaim, PublicKey_new, readInt32LE.
  repeat split;
    repeat match goal with
      | |- context [match ?x with _ => _ end] => destruct x; cbn [bind]
      end;
    discriminate.
Qed.

(** X8.  The decoders of the current client reject with "Uninitialized
    account" exactly when the account does not exist (a malformed account is
    rejected with another error), whereas the decoders of the legacy client
    return [null] exactly in that case. *)
Theorem uninitialized_exactly_when_missing (connection : Connection)
    (acc : PublicKey) :
  (parseConfig connection acc = Err UninitializedAccount
   <-> connection acc = None) /\
  (parseNft connection acc = Err UninitializedAccount
   <-> connection acc = None) /\
  (parseClaim connection acc = Err UninitializedAccount
   <-> connection acc = None) /\
  (parseTokenRecord connection acc = Err UninitializedAccount
   <-> connection acc = None) /\
  (Legacy.parseConfig acc connection = Ok None <-> connection acc = None) /\
  (LegacyClaims.parseNft acc connection = Ok None <-> connection acc = None) /\
  (LegacyClaims.parseClaim acc connection = Ok None <-> connection acc = None).
Proof.
  unfold parseConfig, parseNft, parseClaim, parseTokenRecord, getAccountInfo,
    Legacy.parseConfig, LegacyClaims.parseNft, LegacyClaims.parseClaim.
  destruct (connection acc) as [d |]; cbn [bind].
  - destruct (decoders_never_uninitialized (mkAccountInfo d)) as (C & N & K & T).
    repeat split; intros E; try discriminate E; try contradiction.
    + destruct (Legacy.decodeConfig _); discriminate E.
    + repeat match type of E with
        | context [bind ?r _] => destruct r; cbn [bind] in E
        end; discriminate E.
    + destruct (readDoubleLE d 0); discriminate E.
  - repeat split; reflexivity.
Qed.
End Missing.

Section EnsureProofs.
Context `{Platform}.
Variable connection : Connection.
Variable wallet : Keypair.

(** X9.  [ensureNftRecord] does nothing exactly when the stake record
    exists and holds at least 12 bytes; when the record is missing, and also
    when it exists but is shorter, it issues the register request. *)
Theorem ensureNftRecord_registers_unless_read (mint nft : PublicKey) (bump : Z) :
  findNftPda mint = Ok (nft, bump) ->
  (ensureNftRecord connection wallet mint = Ok None
   <-> exists d, connection nft = Some d /\ 12 <= len d) /\
  (forall request,
     ensureNftRecord connection wallet mint = Ok (Some request) ->
     registerNft connection wallet mint = Ok request /\
     (connection nft = None \/
      exists d, connection nft = Some d /\ len d < 12)) /\
  ((connection nft = None \/ exists d, connection nft = Some d /\ len d < 12) ->
   ensureNftRecord connection wallet mint
   = (request <- registerNft connection wallet mint ;; Ok (Some request))).
Proof.
  intros E; unfold ensureNftRecord; rewrite E; cbn [bind].
  unfold parseNft, getAccountInfo.
  destruct (connection nft) as [d |]; cbn [bind].
  - rewrite decodeNft_spec; cbn [data].
    destruct (12 <=? len d) eqn:L.
    + apply Z.leb_le in L; split; [| split].
      * split; [intros _; exists d; split; [reflexivity | exact L] | reflexivity].
      * intros request R; discriminate R.
      * intros [N | (d' & N & S)]; [discriminate N |].
        injection N as <-; lia.
    + apply Z.leb_gt in L; split; [| split].
      * split.
        -- intros R; apply bind_Ok in R; destruct R as (r & _ & R); discriminate R.
        -- intros (d' & N & S); injection N as <-; lia.
      * intros request R.
        apply bind_Ok in R; destruct R as (r & Er & R).
        apply Ok_inj in R; injection R as <-.
        split; [exact Er | right; exists d; split; [reflexivity | exact L]].
      * reflexivity.
  - split; [| split].
    + split.
      * intros R; apply bind_Ok in R; destruct R as (r & _ & R); discriminate R.
      * intros (d' & N & _); discriminate N.
    + intros request R.
      apply bind_Ok in R; destruct R as (r & Er & R).
      apply Ok_inj in R; injection R as <-.
      split; [exact Er | left; reflexivity].
    + reflexivity.
Qed.

(** X10.  [ensureLock] fails without locking when the token record is
    missing or too short, does nothing when the state byte is 1 (Locked), and
    otherwise logs and issues one request with exactly a delegate and a lock
    instruction for the mint. *)
Theorem ensureLock_cases (stale : nat -> Buffer) (mint token record : PublicKey)
    (token_bump record_bump : Z) :
  findTokenAccountPda mint (publicKey wallet) = Ok (token, token_bump) ->
  findTokenRecordPda mint token = Ok (record, record_bump) ->
  (connection record = None ->
   ensureLock connection wallet stale mint = ([], Err UninitializedAccount)) /\
  (forall d,
     connection record = Some d -> len d < tokenRecordSize d ->
     ensureLock connection wallet stale mint = ([], Err RangeError)) /\
  (forall d,
     connection record = Some d -> tokenRecordSize d <= len d ->
     byteAt d 2 = 1 ->
     ensureLock connection wallet stale mint = ([], Ok None)) /\
  (forall d,
     connection record = Some d -> tokenRecordSize d <= len d ->
     byteAt d 2 <> 1 ->
     fst (ensureLock connection wallet stale mint) = ["Locking token..."%string] /\
     forall outcome,
       snd (ensureLock connection wallet stale mint) = Ok outcome ->
       exists request approve lock,
         outcome = Some request /\
         instructions (msg request) = [approve; lock] /\
         payload approve = [44; 5; 1; 0; 0; 0; 0; 0; 0; 0; 0] /\
         payload lock = [46; 0; 0] /\
         account approve 5 = Some mint /\ account lock 3 = Some mint).
Proof.
  intros Et Er; unfold ensureLock; rewrite Et; cbn [bind]; rewrite Er; cbn [bind].
  unfold parseTokenRecord, getAccountInfo.
  split; [| split; [| split]].
  - intros ->; reflexivity.
  - intros d -> L; cbn [bind]; rewrite decodeTokenRecord_spec; cbn [data].
    destruct (_ <=? len d) eqn:E; [lia | reflexivity].
  - intros d -> L S; cbn [bind]; rewrite decodeTokenRecord_spec; cbn [data].
    destruct (_ <=? len d) eqn:E; [| lia].
    unfold tokenRecordOf; cbn [state].
    change (TokenRecordState_value Locked) with 1.
    rewrite toSigned8_one, S; reflexivity.
  - intros d -> L S; cbn [bind]; rewrite decodeTokenRecord_spec; cbn [data].
    destruct (_ <=? len d) eqn:E; [| lia].
    unfold tokenRecordOf; cbn [state].
    change (TokenRecordState_value Locked) with 1.
    rewrite toSigned8_one.
    destruct (byteAt d 2 =? 1) eqn:S1; [lia |].
    cbn [negb fst snd]; split; [reflexivity |].
    intros outcome R.
    apply bind_Ok in R; destruct R as (request & Eq & R).
    apply Ok_inj in R; subst outcome.
    unfold delegateAndLock in Eq; cbn [mapMi mapM] in Eq.
    apply bind_Ok in Eq; destruct Eq as (approves & Ea & Eq).
    apply bind_Ok in Eq; destruct Eq as (locks & El & Eq).
    apply Ok_inj in Eq; subst request.
    apply bind_Ok in Ea; destruct Ea as (approve & Ea & Ea').
    cbn [bind] in Ea'; apply Ok_inj in Ea'; subst approves.
    apply bind_Ok in El; destruct El as (lock & El & El').
    cbn [bind] in El'; apply Ok_inj in El'; subst locks.
    rewrite delegateApproveInstruction_spec in Ea.
    unfold lockInstruction in El.
    bind_inv Ea; bind_inv El; subst.
    do 3 eexists; repeat split.
Qed.
End EnsureProofs.

(** ** The claim query and the legacy claims *)

Section Queries.
Context `{Platform}.

Lemma getClaimPda_spec (stale : Buffer) (nft_public_key : PublicKey) (nonce : Z)
    (program_id : PublicKey) :
  Z.abs nonce < 2 ^ 53 ->
  LegacyClaims.getClaimPda stale nft_public_key nonce program_id
  = if isInt32 nonce
    then findProgramAddressSync
           [Buffer_from "claim"; toBuffer nft_public_key; le_split 4 nonce]
           program_id
    else Err RangeError.
Proof.
  intros Hn; unfold LegacyClaims.getClaimPda.
  pose proof (Number_integer_ofZ nonce Hn) as I.
  rewrite int32_buffer by apply length_allocUnsafe.
  rewrite (inInt32Range_integer _ nonce I), (truncate_integer _ nonce I).
  destruct (isInt32 nonce); reflexivity.
Qed.

Lemma legacy_parseNft_spec (nft_pda : PublicKey) (connection : Connection) :
  LegacyClaims.parseNft nft_pda connection
  = match connection nft_pda with
    | None => Ok None
    | Some d =>
        if 28 <=? len d
        then Ok (Some
                   (LegacyClaims.mkNftRecord (int32At d 0)
                      (decodeFloat 11 52 (le_combine (bytesAt d 4 8)))
                      (decodeFloat 11 52 (le_combine (bytesAt d 12 8)))
                      (if toSigned 64 (le_combine (bytesAt d 20 8)) =? 0
                       then None
                       else Some (Legacy.Date_of_seconds
                                    (toSigned 64 (le_combine (bytesAt d 20 8)))))))
        else Err RangeError
    end.
Proof.
  unfold LegacyClaims.parseNft.
  destruct (connection nft_pda) as [d |]; [| reflexivity].
  pose proof (len_nonneg d).
  unfold int32At, readBigInt64LE, readDoubleLE, readInt32LE.
  repeat match goal with
    | |- context [if inBounds ?b ?o ?w then _ else _] =>
        let E := fresh "E" in destruct (inBounds b o w) eqn:E; cbn [bind]
    end;
    unfold inBounds in *; destruct (28 <=? len d) eqn:L;
    first [reflexivity | exfalso; lia].
Qed.

(** X12.  The legacy claim instruction derives the claim address from the
    nonce 1 when the stake record is missing and from the stored nonce plus
    one otherwise; it fails with a range error when the stored nonce is
    2^31 - 1, and when the record is shorter than 28 bytes. *)
Theorem legacy_claim_nonce (stale : Buffer)
    (program_id user_key token_key nft_public_key nft_pda : PublicKey)
    (nft_bump : Z) (bnb_wallet : JSString) (connection : Connection) :
  LegacyClaims.getNftPda nft_public_key program_id = Ok (nft_pda, nft_bump) ->
  let instruction :=
    LegacyClaims.claimInstruction stale program_id user_key token_key
      nft_public_key bnb_wallet connection in
  (forall ix,
     instruction = Ok ix ->
     exists next claim_pda claim_bump,
       match connection nft_pda with
       | None => next = 1
       | Some d => 28 <= len d /\ next = int32At d 0 + 1
       end /\
       next <= 2 ^ 31 - 1 /\
       findProgramAddressSync
         [Buffer_from "claim"; toBuffer nft_public_key; le_split 4 next]
         program_id = Ok (claim_pda, claim_bump) /\
       account ix 4 = Some claim_pda /\
       payload ix
       = [2] ++ map byte.unsigned
                  (TextEncoder_encode (string_slice bnb_wallet 2))) /\
  (forall d,
     connection nft_pda = Some d -> 28 <= len d ->
     int32At d 0 = 2 ^ 31 - 1 ->
     instruction = Err RangeError) /\
  (forall d,
     connection nft_pda = Some d -> len d < 28 ->
     instruction = Err RangeError).
Proof.
  intros En instruction; subst instruction.
  unfold LegacyClaims.claimInstruction; rewrite En; cbn [bind].
  rewrite legacy_parseNft_spec.
  split; [| split].
  - intros ix E.
    apply bind_Ok in E; destruct E as (nft & Ep & E).
    set (next := match nft with
                 | Some record => LegacyClaims.nonce record + 1
                 | None => 1
                 end) in *.
    assert (Hb : Z.abs next < 2 ^ 53).
    { subst next; destruct (connection nft_pda) as [d |].
      - destruct (28 <=? len d); [| discriminate Ep].
        apply Ok_inj in Ep; subst nft; cbn [LegacyClaims.nonce].
        pose proof (int32At_range d 0); lia.
      - apply Ok_inj in Ep; subst nft; reflexivity. }
    rewrite getClaimPda_spec in E by exact Hb.
    destruct (isInt32 next) eqn:R; [| discriminate E].
    apply isInt32_true in R.
    bind_inv E; subst ix.
    exists next; do 2 eexists.
    split.
    { destruct (connection nft_pda) as [d |].
      - destruct (28 <=? len d) eqn:L; [| discriminate Ep].
        apply Ok_inj in Ep; subst nft; split; [lia | reflexivity].
      - apply Ok_inj in Ep; subst nft; reflexivity. }
    split; [lia |].
    split; [eassumption |].
    split; [reflexivity |].
    unfold payload; cbn [ix_data].
    rewrite Uint8Array_of_app, Uint8Array_of_spread, map_app; reflexivity.
  - intros d -> L M.
    replace (28 <=? len d) with true by lia; cbn [bind LegacyClaims.nonce].
    rewrite M, getClaimPda_spec by reflexivity; reflexivity.
  - intros d -> L.
    replace (28 <=? len d) with false by lia; reflexivity.
Qed.

(** X13.  The legacy stake record decoder returns [null] for a missing
    account, rejects an account shorter than 28 bytes, and otherwise returns
    a record whose last claim date is [null] exactly when the eight bytes at
    offset 20 are zero. *)
Theorem legacy_parseNft_cases (nft_pda : PublicKey) (connection : Connection) :
  (connection nft_pda = None ->
   LegacyClaims.parseNft nft_pda connection = Ok None) /\
  (forall d,
     connection nft_pda = Some d -> len d < 28 ->
     LegacyClaims.parseNft nft_pda connection = Err RangeError) /\
  (forall d,
     connection nft_pda = Some d -> 28 <= len d ->
     exists record,
       LegacyClaims.parseNft nft_pda connection = Ok (Some record) /\
       LegacyClaims.nonce record = int32At d 0 /\
       (LegacyClaims.last_claimed_at record = None
        <-> bytesAt d 20 8 = repeat Byte.x00 8)).
Proof.
  rewrite legacy_parseNft_spec.
  split; [| split].
  - intros ->; reflexivity.
  - intros d -> L; replace (28 <=? len d) with false by lia; reflexivity.
  - intros d -> L; replace (28 <=? len d) with true by lia.
    eexists; split; [reflexivity |].
    split; [reflexivity |].
    cbn [LegacyClaims.last_claimed_at].
    assert (L8 : length (bytesAt d 20 8) = 8%nat).
    { unfold bytesAt; rewrite length_firstn, length_skipn; unfold len in L; lia. }
    pose proof (le_combine_bound (bytesAt d 20 8)) as B.
    rewrite L8 in B; change (2 ^ (8 * Z.of_nat 8)) with (2 ^ 64) in B.
    pose proof (toSigned64_zero _ B) as Z0.
    split.
    + intros N.
      destruct (toSigned 64 (le_combine (bytesAt d 20 8)) =? 0) eqn:E;
        [| discriminate N].
      apply Z.eqb_eq, Z0 in E.
      rewrite <- (split_le_combine (bytesAt d 20 8)), L8, E; reflexivity.
    + intros E; rewrite E; reflexivity.
Qed.

Hypothesis bs58_round_trip : forall b, bs58_decode (bs58_encode b) = Some b.

(** X11.  The claim query asks for accounts of 80 bytes and, when given a
    generation, for four bytes at offset 0: the little-endian bytes of the
    integer part of the generation.  The filter is built exactly when the
    generation is neither above [2^31 - 1] nor below [-2^31]; for a
    generation that is an integer, when the integer lies in that range.
    Every account of that shape decodes as a claim of that integer part, with
    a wallet text of at most 42 code units, and of exactly 42 when the bytes
    from offset 40 on are ASCII. *)
Theorem claim_query_matches_decoder (stale : Buffer) (gen : number) :
  claimRecordFilters stale None = Ok [dataSize 80] /\
  (succeeds (claimRecordFilters stale (Some gen)) <-> inInt32Range gen = true) /\
  (forall z,
     Number_integer gen = Some z ->
     (succeeds (claimRecordFilters stale (Some gen))
      <-> - 2 ^ 31 <= z <= 2 ^ 31 - 1) /\
     truncate gen = z) /\
  (forall filters,
     claimRecordFilters stale (Some gen) = Ok filters ->
     exists text,
       filters = [dataSize 80; memcmp 0 text] /\
       bs58_decode text = Some (le_split 4 (truncate gen)) /\
       forall resp,
         len (data resp) = 80 ->
         bytesAt (data resp) 0 4 = le_split 4 (truncate gen) ->
         exists record,
           decodeClaim resp = Ok record /\
           generation record = truncate gen /\
           (length (bnb_chain_wallet_address record) <= 42)%nat /\
           (Forall (fun b => isAscii (byte.unsigned b)) (sliceFrom (data resp) 40) ->
            bnb_chain_wallet_address record
            = utf16 "0x" ++ map byte.unsigned (sliceFrom (data resp) 40) /\
            length (bnb_chain_wallet_address record) = 42%nat)).
Proof.
  unfold claimRecordFilters.
  rewrite int32_buffer by apply length_allocUnsafe.
  assert (S : succeeds
                (buf <- (if inInt32Range gen
                         then Ok (le_split 4 (truncate gen))
                         else Err RangeError) ;;
                 Ok ([dataSize 80] ++ [memcmp 0 (bs58_encode buf)]))
              <-> inInt32Range gen = true).
  { destruct (inInt32Range gen); cbn [bind]; split; intros S;
      try reflexivity; try apply succeeds_Ok; try discriminate S.
    exfalso; revert S; apply succeeds_Err. }
  split; [reflexivity |].
  split; [exact S |].
  split.
  - intros z Hz; split; [| apply truncate_integer; exact Hz].
    rewrite S, (inInt32Range_integer gen z Hz); apply isInt32_true.
  - intros filters E.
    destruct (inInt32Range gen) eqn:R; [| discriminate E].
    cbn [bind] in E; apply Ok_inj in E; subst filters.
    eexists; split; [reflexivity |].
    split; [apply bs58_round_trip |].
    intros resp L B.
    rewrite (decodeClaim_spec bs58_round_trip), L; cbn [Z.leb Z.compare].
    eexists; split; [reflexivity |].
    apply inInt32Range_truncate, isInt32_true in R.
    assert (L40 : length (sliceFrom (data resp) 40) = 40%nat)
      by (rewrite length_sliceFrom, L by lia; reflexivity).
    split; [| split].
    + unfold claimRecordOf, int32At; cbn [generation].
      rewrite B; apply (toSigned_le_split 4); lia.
    + unfold claimRecordOf, toString_utf8; cbn [bnb_chain_wallet_address].
      rewrite length_app.
      pose proof (length_utf8Slice (sliceFrom (data resp) 40)) as U.
      change (length (utf16 "0x")) with 2%nat; lia.
    + intros A.
      unfold claimRecordOf, toString_utf8; cbn [bnb_chain_wallet_address].
      rewrite utf8Slice_ascii by exact A.
      split; [reflexivity |].
      rewrite length_app, length_map, L40; reflexivity.
Qed.

(** X14.  The create-claim payload holds 2 bytes, the seed and the UTF-8
    bytes of the wallet text without its first two code units: between one
    and three bytes for each remaining code unit, and exactly one when they
    are ASCII.  A wallet text of at most two code units contributes
    nothing. *)
Theorem createClaim_payload_length (wallet : PublicKey) (bnb : JSString)
    (claim_seed : Buffer) (ix : TransactionInstruction) :
  createClaimInstruction wallet bnb claim_seed = Ok ix ->
  let units := Z.max 0 (len bnb - 2) in
  len (string_slice bnb 2) = units /\
  (forallb isCodeUnit bnb = true ->
   2 + len claim_seed + units <= len (ix_data ix)
   <= 2 + len claim_seed + 3 * units) /\
  (Forall isAscii (string_slice bnb 2) ->
   len (ix_data ix) = 2 + len claim_seed + units) /\
  ((length bnb <= 2)%nat ->
   exists bump, payload ix = [3; bump] ++ map byte.unsigned claim_seed).
Proof.
  intros E units.
  destruct (createClaimInstruction_Ok _ _ _ _ E) as (claim & bump & Ep & D & _).
  assert (Lu : len (string_slice bnb 2) = units).
  { unfold string_slice, len; rewrite length_sliceFrom by lia.
    subst units; unfold len; lia. }
  assert (Ld : len (ix_data ix)
               = 2 + len claim_seed
                 + len (TextEncoder_encode (string_slice bnb 2))).
  { rewrite D, !len_app; unfold len; cbn [length]; lia. }
  split; [exact Lu |].
  split; [| split].
  - intros C.
    pose proof (length_TextEncoder_encode (string_slice bnb 2)
                  (forallb_slice _ _ _ _ C)) as B.
    rewrite Ld; unfold len in *; lia.
  - intros A; rewrite Ld, TextEncoder_encode_ascii by exact A.
    unfold len in *; rewrite length_map; lia.
  - intros S; exists bump.
    assert (N : string_slice bnb 2 = [])
      by (apply length_zero_iff_nil; subst units; unfold len in Lu; lia).
    unfold payload; rewrite D, N, !map_app.
    cbn [map TextEncoder_encode codePoints flat_map]; rewrite app_nil_r.
    unfold findClaimPda in Ep; rewrite (bump_byte _ _ _ _ Ep); reflexivity.
Qed.
End Queries.

(** ** Runs on the sample platform *)

#[local] Existing Instance Sample.platform.

Lemma sample_bs58_round_trip :
  forall b : Buffer, bs58_decode (bs58_encode b) = Some b.
Proof.
  intros b; change (Some (list_byte_of_string (string_of_list_byte b)) = Some b).
  rewrite list_byte_of_string_of_list_byte; reflexivity.
Qed.

Lemma sample_randomBytes_length :
  forall (n : nat) (g : RNG), length (fst (randomBytes n g)) = n.
Proof. intros n g; cbn; apply length_le_split. Qed.

Lemma claimReward_sequence_witness :
  exists request create registers claims,
    fst (claimReward Sample.noAccounts Sample.payer (Sample.mints 2) bnbWallet
           None Sample.rng0) = Ok request /\
    instructions (msg request) = [create] ++ registers ++ claims /\
    length registers = 2%nat /\ length claims = 2%nat /\
    Forall (fun ix => account ix 4 = account create 1) claims.
Proof.
  destruct (claimReward_sequence (H := Sample.platform) sample_randomBytes_length Sample.noAccounts
              Sample.payer (Sample.mints 2) bnbWallet None Sample.rng0)
    as (_ & _ & _ & _ & Shape).
  destruct (fst (claimReward Sample.noAccounts Sample.payer (Sample.mints 2)
                   bnbWallet None Sample.rng0)) as [request | e] eqn:E;
    [| vm_compute in E; discriminate E].
  destruct (Shape request eq_refl)
    as (create & registers & claims & address & bump
        & I & Lr & Lk & _ & _ & _ & _ & _ & _ & _ & Ac & Ak).
  exists request, create, registers, claims.
  split; [reflexivity |].
  split; [exact I |].
  split; [exact Lr |].
  split; [exact Lk |].
  rewrite Ac; exact Ak.
Defined.

Lemma config_fields_round_trip_witness :
  exists ix,
    setConfigInstruction [] (Sample.key 1) (Sample.key 2) Sample.extremeConfig
    = Ok ix /\
    decodeConfig
      (mkAccountInfo
         (toBuffer (Sample.key 7) ++ toBuffer (Sample.key 2)
            ++ sliceFrom (ix_data ix) 1))
    = Ok (mkConfigRecord (Sample.key 7) (Sample.key 2)
            0 (2 ^ 31 - 1) (- 2 ^ 31) (-1) 1).
Proof.
  destruct (config_fields_round_trip (H := Sample.platform) sample_bs58_round_trip)
    as (_ & _ & _ & _ & _ & RT & _).
  destruct (setConfigInstruction [] (Sample.key 1) (Sample.key 2)
              Sample.extremeConfig) as [ix | e] eqn:E;
    [| vm_compute in E; discriminate E].
  exists ix; split; [reflexivity |].
  rewrite (proj2 (RT [] (Sample.key 1) (Sample.key 2) Sample.extremeConfig ix
                    (Sample.key 7) E eq_refl eq_refl)).
  vm_compute; reflexivity.
Defined.

(** The set-config payload is not a configuration account: decoding it
    fails.  A field with a fraction, within the range of its width, comes
    back without the fraction, also from the layout of the account.  And a
    wallet text that begins with "0x" and holds a surrogate on its own comes
    back with U+FFFD in its place. *)
Lemma encoded_record_does_not_decode_back :
  (exists ix,
     setConfigInstruction [] (Sample.key 1) (Sample.key 2) Sample.config = Ok ix /\
     length (ix_data ix) = 21%nat /\
     decodeConfig (mkAccountInfo (ix_data ix)) = Err InvalidPublicKeyInput) /\
  (exists ix record,
     inInt32Range (args_claimable_from Sample.fractionalConfig) = true /\
     setConfigInstruction [] (Sample.key 1) (Sample.key 2)
       Sample.fractionalConfig = Ok ix /\
     decodeConfig
       (mkAccountInfo
          (toBuffer (Sample.key 7) ++ toBuffer (Sample.key 2)
             ++ sliceFrom (ix_data ix) 1)) = Ok record /\
     claimable_from record = 1711447200 /\
     Number_compare (args_claimable_from Sample.fractionalConfig)
       (claimable_from record) = Some Gt) /\
  (exists ix,
     createClaimInstruction (Sample.key 1) (utf16 "0x" ++ [0xD800])
       (le_split 32 9) = Ok ix /\
     decodeClaim
       (mkAccountInfo
          (le_split 4 1 ++ le_split 4 2 ++ toBuffer (Sample.key 3)
             ++ sliceFrom (ix_data ix) 34))
     = Ok (mkClaimRecord 1 2 (Sample.key 3) (utf16 "0x" ++ [0xFFFD]))).
Proof.
  split; [| split].
  - eexists; split; [vm_compute; reflexivity |].
    split; vm_compute; reflexivity.
  - eexists; eexists; split; [reflexivity |].
    split; [vm_compute; reflexivity |].
    split; [vm_compute; reflexivity |].
    split; reflexivity.
  - eexists; split; [vm_compute; reflexivity | vm_compute; reflexivity].
Qed.

Lemma short_account_rejected_witness :
  exists e,
    parseConfig (fun _ => Some (repeat Byte.x00 79)) (Sample.key 1) = Err e /\
    LayoutError e.
Proof.
  destruct (short_account_rejected (H := Sample.platform) sample_bs58_round_trip
              (fun _ => Some (repeat Byte.x00 79)) (Sample.key 1)
              (repeat Byte.x00 79) eq_refl) as ((Short & _) & _).
  apply Short; unfold len; cbn; lia.
Defined.

(** An 80-byte configuration account is rejected as well: the decoder reads
    the last field at offsets 80 to 83. *)
Lemma config_account_of_80_bytes_rejected :
  parseConfig (fun _ => Some (repeat Byte.x00 80)) (Sample.key 1)
  = Err RangeError /\
  succeeds (parseConfig (fun _ => Some (repeat Byte.x00 84)) (Sample.key 1)).
Proof.
  split; [vm_compute; reflexivity | eexists; vm_compute; reflexivity].
Qed.

Lemma decodeTokenRecord_layout_witness :
  decodeTokenRecord (mkAccountInfo Sample.tokenRecordData)
  = Ok {| state := TokenRecordState_value Locked;
          delegate := Some (bs58_encode Sample.delegateBytes);
          delegateRole := Some (DelegateRole_value Staking) |}.
Proof.
  exact (proj2 (decodeTokenRecord_layout (H := Sample.platform)) (byte.of_Z 11) (byte.of_Z 255)
           (byte.of_Z 1) (byte.of_Z 0) Sample.delegateBytes
           (Uint8Array_of [0; 0]) eq_refl ltac:(vm_compute; discriminate)).
Defined.

Lemma decodeTokenRecord_role_witness :
  exists r,
    decodeTokenRecord (mkAccountInfo Sample.tokenRecordData) = Ok r /\
    (delegateRole r = None <-> delegate r = None).
Proof.
  destruct (decodeTokenRecord (mkAccountInfo Sample.tokenRecordData))
    as [r | e] eqn:E; [| vm_compute in E; discriminate E].
  exists r; split; [reflexivity |].
  exact (decodeTokenRecord_role (H := Sample.platform) (mkAccountInfo Sample.tokenRecordData) r E).
Defined.





Lemma derive_deterministic_witness :
  exists address bump,
    findConfigPda = Ok (address, bump) /\
    Derived [Buffer_from "config"] PID.GAIMIN_PFP address bump /\
    forall address' bump',
      Derived [Buffer_from "config"] PID.GAIMIN_PFP address' bump' ->
      address = address' /\ bump = bump'.
Proof.
  destruct (derive_deterministic (H := Sample.platform) [Buffer_from "config"] PID.GAIMIN_PFP)
    as (Unique & Computes & _).
  destruct findConfigPda as [[address bump] | e] eqn:E;
    [| vm_compute in E; discriminate E].
  exists address, bump; split; [reflexivity |].
  assert (D : Derived [Buffer_from "config"] PID.GAIMIN_PFP address bump)
    by (apply Computes; exact E).
  split; [exact D |].
  intros address' bump' D'; exact (Unique _ _ _ _ D D').
Defined.

Lemma legacy_config_layout_differs_witness :
  exists resp,
    succeeds (Legacy.decodeConfig resp) /\ fails (decodeConfig resp).
Proof.
  exact (proj2 (proj2 (proj2
           (legacy_config_layout_differs (H := Sample.platform) sample_bs58_round_trip)))).
Defined.

(** The role is read as a signed byte: the role byte 255, which [types.ts]
    gives to [Migration], is returned as -1. *)
Remark migration_role_read_as_minus_one :
  decodeTokenRecord
    (mkAccountInfo
       (Uint8Array_of [11; 255; 1; 0; 1] ++ Sample.delegateBytes
          ++ Uint8Array_of [0; 255; 0; 0]))
  = Ok {| state := TokenRecordState_value Locked;
          delegate := Some (bs58_encode Sample.delegateBytes);
          delegateRole := Some (-1) |} /\
  DelegateRole_value Migration = 255.
Proof. split; vm_compute; reflexivity. Qed.

Lemma claim_accounts_agree_witness :
  exists c l r,
    claimInstruction (Sample.key 1) (Sample.key 2) (le_split 32 9) = Ok c /\
    lockInstruction (Sample.key 2) (Sample.key 1) (Sample.key 1) (Sample.key 1)
    = Ok l /\
    registerNftInstruction (Sample.key 1) (Sample.key 2) = Ok r /\
    account c 1 = account l 2 /\ account c 2 = account l 6 /\
    account c 3 = account r 4 /\ account c 5 = account r 5.
Proof.
  destruct (claimInstruction (Sample.key 1) (Sample.key 2) (le_split 32 9))
    as [c | e] eqn:Ec; [| vm_compute in Ec; discriminate Ec].
  destruct (lockInstruction (Sample.key 2) (Sample.key 1) (Sample.key 1)
              (Sample.key 1)) as [l | e] eqn:El;
    [| vm_compute in El; discriminate El].
  destruct (registerNftInstruction (Sample.key 1) (Sample.key 2))
    as [r | e] eqn:Er; [| vm_compute in Er; discriminate Er].
  destruct (claim_accounts_agree (H := Sample.platform) _ _ _ _ _ _ c l r Ec El Er)
    as ((t & tr & n & cf & A1 & A2 & A3 & A4 & A5 & A6 & A7 & A8) & _).
  exists c, l, r; repeat split; congruence.
Defined.

Lemma requests_signed_by_payer_witness :
  exists request,
    registerNft Sample.noAccounts Sample.payer (Sample.key 2) = Ok request /\
    signedByPayer Sample.payer request.
Proof.
  destruct (registerNft Sample.noAccounts Sample.payer (Sample.key 2))
    as [request | e] eqn:E; [| vm_compute in E; discriminate E].
  exists request; split; [reflexivity |].
  exact (proj1 (proj2 (proj2
           (requests_signed_by_payer (H := Sample.platform) Sample.noAccounts
              Sample.payer request))) (Sample.key 2) E).
Defined.

Lemma lock_and_unlock_batches_witness :
  exists request,
    revokeAndUnlock Sample.noAccounts Sample.payer (Sample.mints 1)
      (Some []) = Ok request /\
    length (instructions (msg request)) = 2%nat /\
    luts request = None.
Proof.
  destruct (revokeAndUnlock Sample.noAccounts Sample.payer (Sample.mints 1)
              (Some [])) as [request | e] eqn:E;
    [| vm_compute in E; discriminate E].
  destruct (proj1 (proj2
              (lock_and_unlock_batches (H := Sample.platform) Sample.noAccounts
                 Sample.payer (Sample.mints 1) (Some []))) request E)
    as (unlocks & revokes & I & Lu & Lr & _ & _ & T).
  exists request; split; [reflexivity |].
  split; [rewrite I, length_app, Lu, Lr; reflexivity | exact T].
Defined.

Lemma ensureNftRecord_registers_unless_read_witness :
  ensureNftRecord Sample.noAccounts Sample.payer (Sample.key 2)
  = (request <- registerNft Sample.noAccounts Sample.payer (Sample.key 2) ;;
     Ok (Some request)).
Proof.
  destruct (findNftPda (Sample.key 2)) as [[nft bump] | e] eqn:E;
    [| vm_compute in E; discriminate E].
  apply (ensureNftRecord_registers_unless_read (H := Sample.platform)
           Sample.noAccounts Sample.payer (Sample.key 2) nft bump E).
  left; reflexivity.
Defined.

Lemma ensureLock_cases_witness :
  ensureLock Sample.lockedAccounts Sample.payer Sample.zeroed (Sample.key 2)
  = ([], Ok None) /\
  fst (ensureLock Sample.unlockedAccounts Sample.payer Sample.zeroed
         (Sample.key 2)) = ["Locking token..."%string].
Proof.
  destruct (findTokenAccountPda (Sample.key 2) (publicKey Sample.payer))
    as [[token tb] | e] eqn:Et; [| vm_compute in Et; discriminate Et].
  destruct (findTokenRecordPda (Sample.key 2) token)
    as [[record rb] | e] eqn:Er.
  2: { vm_compute in Et; injection Et as <- <-.
       vm_compute in Er; discriminate Er. }
  split.
  - apply (ensureLock_cases (H := Sample.platform) Sample.lockedAccounts
             Sample.payer Sample.zeroed _ _ _ _ _ Et Er)
      with (d := Sample.tokenRecordData); reflexivity || (vm_compute; discriminate).
  - apply (ensureLock_cases (H := Sample.platform) Sample.unlockedAccounts
             Sample.payer Sample.zeroed _ _ _ _ _ Et Er)
      with (d := Uint8Array_of [11; 255; 0; 0; 0]);
      reflexivity || (vm_compute; discriminate).
Defined.

Lemma claim_query_matches_decoder_witness :
  exists text,
    claimRecordFilters [] (Some Sample.fractionalSeconds)
    = Ok [dataSize 80; memcmp 0 text] /\
    bs58_decode text = Some (le_split 4 1711447200).
Proof.
  destruct (claimRecordFilters [] (Some Sample.fractionalSeconds))
    as [filters | e] eqn:E; [| vm_compute in E; discriminate E].
  destruct (proj2 (proj2 (proj2
              (claim_query_matches_decoder (H := Sample.platform)
                 sample_bs58_round_trip [] Sample.fractionalSeconds))) filters E)
    as (text & F & D & _).
  exists text; rewrite <- F; split; [reflexivity | exact D].
Defined.

Lemma legacy_claim_nonce_witness :
  exists ix claim_pda claim_bump,
    LegacyClaims.claimInstruction [] PID.GAIMIN_PFP (Sample.key 1)
      (Sample.key 3) (Sample.key 2) bnbWallet Sample.noAccounts = Ok ix /\
    findProgramAddressSync
      [Buffer_from "claim"; toBuffer (Sample.key 2); le_split 4 1]
      PID.GAIMIN_PFP = Ok (claim_pda, claim_bump) /\
    account ix 4 = Some claim_pda.
Proof.
  destruct (LegacyClaims.getNftPda (Sample.key 2) PID.GAIMIN_PFP)
    as [[nft_pda nft_bump] | e] eqn:En; [| vm_compute in En; discriminate En].
  destruct (LegacyClaims.claimInstruction [] PID.GAIMIN_PFP (Sample.key 1)
              (Sample.key 3) (Sample.key 2) bnbWallet Sample.noAccounts)
    as [ix | e] eqn:E; [| vm_compute in E; discriminate E].
  destruct (proj1
              (legacy_claim_nonce (H := Sample.platform) [] PID.GAIMIN_PFP
                 (Sample.key 1) (Sample.key 3) (Sample.key 2) nft_pda nft_bump
                 bnbWallet Sample.noAccounts En) ix E)
    as (next & claim_pda & claim_bump & N & _ & D & A & _).
  cbn in N; subst next.
  exists ix, claim_pda, claim_bump; split; [reflexivity |].
  split; [exact D | exact A].
Defined.

Lemma createClaim_payload_length_witness :
  exists ix,
    createClaimInstruction (Sample.key 1) [233; 233; 48; 120; 65; 66]
      (le_split 32 9) = Ok ix /\
    len (ix_data ix) = 38.
Proof.
  destruct (createClaimInstruction (Sample.key 1) [233; 233; 48; 120; 65; 66]
              (le_split 32 9)) as [ix | e] eqn:E;
    [| vm_compute in E; discriminate E].
  exists ix; split; [reflexivity |].
  refine (proj1 (proj2 (proj2
            (createClaim_payload_length (H := Sample.platform) (Sample.key 1)
               [233; 233; 48; 120; 65; 66] (le_split 32 9) ix E))) _).
  repeat constructor; discriminate.
Defined.
